(** * The nginx event helpers and thread pool, embedded in Rocq

    This development follows two sources:

    - [src/event/ngx_event.h]: the event record, the capability flags of the
      bound event method and the inline helpers [ngx_handle_read_event],
      [ngx_handle_level_read_event], [ngx_handle_write_event] and
      [ngx_handle_level_write_event];
    - the thread pool ([ngx_thread_pool.c]): [ngx_thread_pool_task_post],
      the loop of [ngx_thread_pool_cycle], [ngx_thread_pool_handler], and
      the configuration functions
      [ngx_thread_pool], [ngx_thread_pool_add], [ngx_thread_pool_get] and
      [ngx_thread_pool_init_conf].

    C integers are [Z] with the conversions written out, bit fields are
    [bool], pointers to tasks are optional addresses into a finite map, and
    the calls that leave the code under study (the event method's [add] and
    [del], the semaphore, [ngx_atoi], the handlers of the tasks) are
    parameters. *)

From Stdlib Require Import Ascii String.
From stdpp Require Import base numbers list strings gmap.

Local Open Scope Z_scope.

(** ** C conventions *)

(** [ngx_core.h]: the two return codes used here. *)
Definition NGX_OK : Z := 0.
Definition NGX_ERROR : Z := -1.

(** A C scalar used as a condition. *)
Definition c_true (z : Z) : bool := negb (z =? 0).

(** [ngx_uint_t] and [ngx_int_t] are pointer-sized; an LP64 build is taken. *)
Definition NGX_PTR_BITS : Z := 64.

(** The cast [(ngx_uint_t) z]. *)
Definition to_ngx_uint (z : Z) : Z := z mod 2 ^ NGX_PTR_BITS.

(** The cast [(ngx_int_t) z] of an [ngx_uint_t]. *)
Definition to_ngx_int (z : Z) : Z :=
  let u := z mod 2 ^ NGX_PTR_BITS in
  if u <? 2 ^ (NGX_PTR_BITS - 1) then u else u - 2 ^ NGX_PTR_BITS.

(** ** [ngx_event.h]: the event record *)

(** [struct ngx_event_s]. The bit fields are booleans. The timer tree
    linkage, the posted-queue link and the log pointer play no part in the
    helpers and are left out; so are the fields that exist only under
    [WIN32], [HAVE_KQUEUE] or [HAVE_AIO]. The thread pool calls the handler
    field [handler], the name the header's TODO announces. *)
Record ngx_event_t := mk_event {
  data : Z;
  handler : Z;
  index : Z;
  oneshot : bool;
  write : bool;
  use_instance : bool;
  instance : bool;
  returned_instance : bool;
  active : bool;
  disabled : bool;
  posted : bool;
  ready : bool;
  complete : bool;
  eof : bool;
  error : bool;
  timedout : bool;
  timer_set : bool;
  delayed : bool;
  read_discarded : bool;
  unexpected_eof : bool;
  accept : bool;
  deferred_accept : bool;
  overflow : bool;
  aio_eof : bool;
  kq_eof : bool;
  available : bool
}.

Definition NGX_INVALID_INDEX : Z := 0xd0d0d0d0.

(** [ev->active = b] *)
Definition set_active (b : bool) (ev : ngx_event_t) : ngx_event_t :=
  mk_event (data ev) (handler ev) (index ev) (oneshot ev) (write ev)
    (use_instance ev) (instance ev) (returned_instance ev) b (disabled ev)
    (posted ev) (ready ev) (complete ev) (eof ev) (error ev) (timedout ev)
    (timer_set ev) (delayed ev) (read_discarded ev) (unexpected_eof ev)
    (accept ev) (deferred_accept ev) (overflow ev) (aio_eof ev) (kq_eof ev)
    (available ev).

(** [ev->ready = b] *)
Definition set_ready (b : bool) (ev : ngx_event_t) : ngx_event_t :=
  mk_event (data ev) (handler ev) (index ev) (oneshot ev) (write ev)
    (use_instance ev) (instance ev) (returned_instance ev) (active ev)
    (disabled ev) (posted ev) b (complete ev) (eof ev) (error ev)
    (timedout ev) (timer_set ev) (delayed ev) (read_discarded ev)
    (unexpected_eof ev) (accept ev) (deferred_accept ev) (overflow ev)
    (aio_eof ev) (kq_eof ev) (available ev).

(** [ev->complete = b] *)
Definition set_complete (b : bool) (ev : ngx_event_t) : ngx_event_t :=
  mk_event (data ev) (handler ev) (index ev) (oneshot ev) (write ev)
    (use_instance ev) (instance ev) (returned_instance ev) (active ev)
    (disabled ev) (posted ev) (ready ev) b (eof ev) (error ev) (timedout ev)
    (timer_set ev) (delayed ev) (read_discarded ev) (unexpected_eof ev)
    (accept ev) (deferred_accept ev) (overflow ev) (aio_eof ev) (kq_eof ev)
    (available ev).

(** An event as [ngx_pcalloc] leaves it: every field zero. *)
Definition zero_event : ngx_event_t :=
  mk_event 0 0 0 false false false false false false false false false false
    false false false false false false false false false false false false
    false.

(** ** [ngx_event.h]: capability flags of the event method *)

Definition NGX_USE_LEVEL_EVENT : Z := 0x00000001.
Definition NGX_USE_ONESHOT_EVENT : Z := 0x00000002.
Definition NGX_USE_CLEAR_EVENT : Z := 0x00000004.
Definition NGX_HAVE_KQUEUE_EVENT : Z := 0x00000008.
Definition NGX_HAVE_LOWAT_EVENT : Z := 0x00000010.
Definition NGX_HAVE_INSTANCE_EVENT : Z := 0x00000020.
Definition NGX_HAVE_GREEDY_EVENT : Z := 0x00000040.
Definition NGX_USE_EDGE_EVENT : Z := 0x00000080.
Definition NGX_USE_RTSIG_EVENT : Z := 0x00000100.
Definition NGX_USE_AIO_EVENT : Z := 0x00000200.
Definition NGX_USE_IOCP_EVENT : Z := 0x00000400.

(** The per-build constants. The header picks them by [HAVE_KQUEUE],
    [HAVE_DEVPOLL], [HAVE_EPOLL], [HAVE_POLL] or, failing all, select; every
    branch but the last takes them from system headers, so a build is an
    instance of this class. *)
Class ngx_event_build := {
  NGX_READ_EVENT : Z;
  NGX_WRITE_EVENT : Z;
  NGX_LEVEL_EVENT : Z;
  NGX_ONESHOT_EVENT : Z;
  NGX_CLEAR_EVENT : Z;
  NGX_CLOSE_EVENT : Z;
  NGX_DISABLE_EVENT : Z;
  NGX_LOWAT_EVENT : Z;
  NGX_VNODE_EVENT : Z
}.

(** The select build: the [#else] branch, with the dummy [NGX_CLEAR_EVENT]
    and the defaults of the flags that only kqueue redefines. *)
Definition select_build : ngx_event_build := {|
  NGX_READ_EVENT := 0;
  NGX_WRITE_EVENT := 1;
  NGX_LEVEL_EVENT := 0;
  NGX_ONESHOT_EVENT := 1;
  NGX_CLEAR_EVENT := 0;
  NGX_CLOSE_EVENT := 1;
  NGX_DISABLE_EVENT := 2;
  NGX_LOWAT_EVENT := 0;
  NGX_VNODE_EVENT := 0
|}.

(** The kqueue build, with the values FreeBSD's [sys/event.h] gives to
    [EVFILT_READ], [EVFILT_WRITE], [EVFILT_VNODE], [EV_ONESHOT], [EV_CLEAR],
    [EV_EOF], [EV_DISABLE] and [EV_FLAG1]. *)
Definition kqueue_build : ngx_event_build := {|
  NGX_READ_EVENT := -1;
  NGX_WRITE_EVENT := -2;
  NGX_LEVEL_EVENT := 0;
  NGX_ONESHOT_EVENT := 0x0010;
  NGX_CLEAR_EVENT := 0x0020;
  NGX_CLOSE_EVENT := 0x8000;
  NGX_DISABLE_EVENT := 0x0008;
  NGX_LOWAT_EVENT := 0x2000;
  NGX_VNODE_EVENT := -4
|}.

(** ** [ngx_event.h]: the event method's actions *)

(** The function table [ngx_event_actions_t], over the method's private
    state [R]. An action receives the event by pointer, so it returns the
    event as it leaves it, together with its status. The connection-level
    and cycle-level entries are not called by the helpers and are left
    out. *)
Record ngx_event_actions_t (R : Type) := {
  add : ngx_event_t -> Z -> Z -> R -> Z * ngx_event_t * R;
  del : ngx_event_t -> Z -> Z -> R -> Z * ngx_event_t * R;
  enable : ngx_event_t -> Z -> Z -> R -> Z * ngx_event_t * R;
  disable : ngx_event_t -> Z -> Z -> R -> Z * ngx_event_t * R
}.
Arguments add {R}.
Arguments del {R}.
Arguments enable {R}.
Arguments disable {R}.

(** What the helpers asked of the event method: the operation, the event
    as it was when the call was made, the direction and the flags. *)
Inductive reactor_op := OpAdd | OpDel.

#[global] Instance reactor_op_eq_dec : EqDecision reactor_op.
Proof. solve_decision. Defined.

Record reactor_call := {
  call_op : reactor_op;
  call_ev : ngx_event_t;
  call_event : Z;
  call_flags : Z
}.

(** The event method's state with the record of the calls made to it. *)
Record reactor (R : Type) := {
  backend : R;
  calls : list reactor_call
}.
Arguments backend {R}.
Arguments calls {R}.

Section Helpers.
Context {build : ngx_event_build} {R : Type}.
Variable ngx_event_actions : ngx_event_actions_t R.
Variable ngx_event_flags : Z.

(** [#define ngx_add_event ngx_event_actions.add] *)
Definition ngx_add_event (ev : ngx_event_t) (event flags : Z)
    (st : reactor R) : Z * ngx_event_t * reactor R :=
  let '(rc, ev', r') := add ngx_event_actions ev event flags (backend st) in
  (rc, ev',
   {| backend := r';
      calls := calls st ++ [Build_reactor_call OpAdd ev event flags] |}).

(** [#define ngx_del_event ngx_event_actions.del] *)
Definition ngx_del_event (ev : ngx_event_t) (event flags : Z)
    (st : reactor R) : Z * ngx_event_t * reactor R :=
  let '(rc, ev', r') := del ngx_event_actions ev event flags (backend st) in
  (rc, ev',
   {| backend := r';
      calls := calls st ++ [Build_reactor_call OpDel ev event flags] |}).

Definition ngx_handle_read_event (rev : ngx_event_t) (flags : Z)
    (st : reactor R) : Z * ngx_event_t * reactor R :=
  if c_true (Z.land ngx_event_flags NGX_USE_CLEAR_EVENT) then
    (* kqueue *)
    if negb (active rev) && negb (ready rev) then
      let '(rc, rev', st') :=
        ngx_add_event rev NGX_READ_EVENT NGX_CLEAR_EVENT st in
      if rc =? NGX_ERROR then (NGX_ERROR, rev', st')
      else (NGX_OK, rev', st')
    else (NGX_OK, rev, st)
  else if c_true (Z.land ngx_event_flags NGX_USE_LEVEL_EVENT) then
    (* select, poll, /dev/poll *)
    if negb (active rev) && negb (ready rev) then
      let '(rc, rev', st') :=
        ngx_add_event rev NGX_READ_EVENT NGX_LEVEL_EVENT st in
      if rc =? NGX_ERROR then (NGX_ERROR, rev', st')
      else (NGX_OK, rev', st')
    else if active rev
            && (ready rev || c_true (Z.land flags NGX_CLOSE_EVENT)) then
      let '(rc, rev', st') := ngx_del_event rev NGX_READ_EVENT flags st in
      if rc =? NGX_ERROR then (NGX_ERROR, rev', st')
      else (NGX_OK, rev', st')
    else (NGX_OK, rev, st)
  else
    (* aio, iocp, epoll, rtsig *)
    (NGX_OK, rev, st).

Definition ngx_handle_level_read_event (rev : ngx_event_t)
    (st : reactor R) : Z * ngx_event_t * reactor R :=
  if c_true (Z.land ngx_event_flags NGX_USE_LEVEL_EVENT) then
    if negb (active rev) && negb (ready rev) then
      let '(rc, rev', st') :=
        ngx_add_event rev NGX_READ_EVENT NGX_LEVEL_EVENT st in
      if rc =? NGX_ERROR then (NGX_ERROR, rev', st')
      else (NGX_OK, rev', st')
    else if active rev && ready rev then
      let '(rc, rev', st') := ngx_del_event rev NGX_READ_EVENT 0 st in
      if rc =? NGX_ERROR then (NGX_ERROR, rev', st')
      else (NGX_OK, rev', st')
    else (NGX_OK, rev, st)
  else (NGX_OK, rev, st).

Definition ngx_handle_write_event (wev : ngx_event_t) (flags : Z)
    (st : reactor R) : Z * ngx_event_t * reactor R :=
  if c_true (Z.land ngx_event_flags NGX_USE_CLEAR_EVENT) then
    (* kqueue *)
    if negb (active wev) && negb (ready wev) then
      let '(rc, wev', st') :=
        ngx_add_event wev NGX_WRITE_EVENT (Z.lor NGX_CLEAR_EVENT flags) st in
      if rc =? NGX_ERROR then (NGX_ERROR, wev', st')
      else (NGX_OK, wev', st')
    else (NGX_OK, wev, st)
  else if c_true (Z.land ngx_event_flags NGX_USE_LEVEL_EVENT) then
    (* select, poll, /dev/poll *)
    if negb (active wev) && negb (ready wev) then
      let '(rc, wev', st') :=
        ngx_add_event wev NGX_WRITE_EVENT NGX_LEVEL_EVENT st in
      if rc =? NGX_ERROR then (NGX_ERROR, wev', st')
      else (NGX_OK, wev', st')
    else if active wev && ready wev then
      let '(rc, wev', st') := ngx_del_event wev NGX_WRITE_EVENT 0 st in
      if rc =? NGX_ERROR then (NGX_ERROR, wev', st')
      else (NGX_OK, wev', st')
    else (NGX_OK, wev, st)
  else
    (* aio, iocp, epoll, rtsig *)
    (NGX_OK, wev, st).

Definition ngx_handle_level_write_event (wev : ngx_event_t)
    (st : reactor R) : Z * ngx_event_t * reactor R :=
  if c_true (Z.land ngx_event_flags NGX_USE_LEVEL_EVENT) then
    if negb (active wev) && negb (ready wev) then
      let '(rc, wev', st') :=
        ngx_add_event wev NGX_WRITE_EVENT NGX_LEVEL_EVENT st in
      if rc =? NGX_ERROR then (NGX_ERROR, wev', st')
      else (NGX_OK, wev', st')
    else if active wev && ready wev then
      let '(rc, wev', st') := ngx_del_event wev NGX_WRITE_EVENT 0 st in
      if rc =? NGX_ERROR then (NGX_ERROR, wev', st')
      else (NGX_OK, wev', st')
    else (NGX_OK, wev, st)
  else (NGX_OK, wev, st).

(** A caller's use of the read helper over time: before each call the
    consumer sets [ready] to what it last observed, then calls the helper
    with the given flags; the status is not looked at. *)
Fixpoint read_event_run (steps : list (bool * Z)) (rev : ngx_event_t)
    (st : reactor R) : ngx_event_t * reactor R :=
  match steps with
  | [] => (rev, st)
  | (rdy, flags) :: steps' =>
      let '(_, rev', st') :=
        ngx_handle_read_event (set_ready rdy rev) flags st in
      read_event_run steps' rev' st'
  end.
End Helpers.

(** ** Strings *)

(** [ngx_str_t] is a length and a byte pointer; it is modelled by [string],
    whose length is [len]. The configuration parser hands out arguments that
    are followed by a zero byte, which is what a read past the end sees. *)

Definition byte_val (c : ascii) : Z := Z.of_N (N_of_ascii c).

(** [#define ngx_strncmp(s1, s2, n) strncmp(s1, s2, n)]: compare at most [n]
    bytes, stopping after a zero byte. *)
Fixpoint ngx_strncmp (s1 s2 : string) (n : nat) : Z :=
  match n with
  | O => 0
  | S n' =>
      match s1, s2 with
      | EmptyString, EmptyString => 0
      | EmptyString, String c2 _ => 0 - byte_val c2
      | String c1 _, EmptyString => byte_val c1
      | String c1 r1, String c2 r2 =>
          if byte_val c1 =? byte_val c2 then
            if byte_val c1 =? 0 then 0 else ngx_strncmp r1 r2 n'
          else byte_val c1 - byte_val c2
      end
  end.

(** [data + n] *)
Fixpoint string_skip (n : nat) (s : string) : string :=
  match n, s with
  | O, _ => s
  | S n', String _ r => string_skip n' r
  | S _, EmptyString => EmptyString
  end.

(** ** The thread pool: data *)

(** [ngx_semaphore.h] is outside the sources at hand. The pool only needs a
    semaphore type, the value of zeroed memory at that type, and the
    calls, each returning its status first; a wait that would block has no
    result. *)
Class ngx_semaphore := {
  ngx_sem_t : Type;
  ngx_sem_zero : ngx_sem_t;
  ngx_sem_init : Z -> Z * ngx_sem_t;
  ngx_sem_getvalue : ngx_sem_t -> Z * Z;
  ngx_sem_post : ngx_sem_t -> Z * ngx_sem_t;
  ngx_sem_wait : ngx_sem_t -> option (Z * ngx_sem_t)
}.

(** A counting semaphore for the examples: [None] is a semaphore that was
    never initialised, on which every call fails; waiting on a zero count
    blocks. *)
Definition counting_semaphore : ngx_semaphore := {|
  ngx_sem_t := option Z;
  ngx_sem_zero := None;
  ngx_sem_init := fun v => (NGX_OK, Some v);
  ngx_sem_getvalue := fun s =>
    match s with Some c => (NGX_OK, c) | None => (NGX_ERROR, 0) end;
  ngx_sem_post := fun s =>
    match s with Some c => (NGX_OK, Some (c + 1)) | None => (NGX_ERROR, s) end;
  ngx_sem_wait := fun s =>
    match s with
    | Some c => if 0 <? c then Some (NGX_OK, Some (c - 1)) else None
    | None => Some (NGX_ERROR, s)
    end
|}.

(** Tasks live in the request arena; a pointer to a task is an address or
    [NULL]. *)
Definition addr := positive.
Definition ptr := option addr.

(** The two queues of a pool. *)
Inductive queue_id := QIn | QOut.

(** The cells a [last_p] can point at: the head pointer of one of the two
    queues, [&tp->in.first] or [&tp->out.first], or the link of a task,
    [&task->next]. *)
Inductive link_cell :=
| FirstOf (q : queue_id)
| NextOf (task : addr).

#[global] Instance queue_id_eq_dec : EqDecision queue_id.
Proof. solve_decision. Defined.
#[global] Instance link_cell_eq_dec : EqDecision link_cell.
Proof. solve_decision. Defined.

(** [ngx_thread_pool_queue_t]; [last_p] is [NULL] in zeroed memory. *)
Record ngx_thread_pool_queue_t := {
  first : ptr;
  last_p : option link_cell
}.

(** [ngx_thread_pool_task_t] ([ngx_thread_pool.h]): the link, the id given
    at post time, the payload, the work and the completion event. *)
Record ngx_thread_pool_task_t := {
  task_next : ptr;
  task_id : Z;
  task_ctx : Z;
  task_handler : Z;
  task_event : ngx_event_t
}.

Definition task_set_next (v : ptr) (t : ngx_thread_pool_task_t) :=
  {| task_next := v; task_id := task_id t; task_ctx := task_ctx t;
     task_handler := task_handler t; task_event := task_event t |}.
Definition task_set_id (v : Z) (t : ngx_thread_pool_task_t) :=
  {| task_next := task_next t; task_id := v; task_ctx := task_ctx t;
     task_handler := task_handler t; task_event := task_event t |}.
Definition task_set_event (v : ngx_event_t) (t : ngx_thread_pool_task_t) :=
  {| task_next := task_next t; task_id := task_id t; task_ctx := task_ctx t;
     task_handler := task_handler t; task_event := v |}.

Section Pool.
Context {semaphore : ngx_semaphore}.

(** [struct ngx_thread_pool_s], without the notify connection, the log
    and the arena, which are handles to what lies outside. *)
Record ngx_thread_pool_t := {
  tp_sem : ngx_sem_t;
  tp_task_id : Z;
  tp_in : ngx_thread_pool_queue_t;
  tp_out : ngx_thread_pool_queue_t;
  tp_name : string;
  tp_threads : Z;
  tp_max_queue : Z;
  tp_file : string;
  tp_line : Z
}.

Definition tp_set_sem v tp :=
  {| tp_sem := v; tp_task_id := tp_task_id tp; tp_in := tp_in tp;
     tp_out := tp_out tp; tp_name := tp_name tp;
     tp_threads := tp_threads tp; tp_max_queue := tp_max_queue tp;
     tp_file := tp_file tp; tp_line := tp_line tp |}.
Definition tp_set_task_id v tp :=
  {| tp_sem := tp_sem tp; tp_task_id := v; tp_in := tp_in tp;
     tp_out := tp_out tp; tp_name := tp_name tp;
     tp_threads := tp_threads tp; tp_max_queue := tp_max_queue tp;
     tp_file := tp_file tp; tp_line := tp_line tp |}.
Definition tp_set_in v tp :=
  {| tp_sem := tp_sem tp; tp_task_id := tp_task_id tp; tp_in := v;
     tp_out := tp_out tp; tp_name := tp_name tp;
     tp_threads := tp_threads tp; tp_max_queue := tp_max_queue tp;
     tp_file := tp_file tp; tp_line := tp_line tp |}.
Definition tp_set_out v tp :=
  {| tp_sem := tp_sem tp; tp_task_id := tp_task_id tp; tp_in := tp_in tp;
     tp_out := v; tp_name := tp_name tp;
     tp_threads := tp_threads tp; tp_max_queue := tp_max_queue tp;
     tp_file := tp_file tp; tp_line := tp_line tp |}.
Definition tp_set_threads v tp :=
  {| tp_sem := tp_sem tp; tp_task_id := tp_task_id tp; tp_in := tp_in tp;
     tp_out := tp_out tp; tp_name := tp_name tp;
     tp_threads := v; tp_max_queue := tp_max_queue tp;
     tp_file := tp_file tp; tp_line := tp_line tp |}.
Definition tp_set_max_queue v tp :=
  {| tp_sem := tp_sem tp; tp_task_id := tp_task_id tp; tp_in := tp_in tp;
     tp_out := tp_out tp; tp_name := tp_name tp;
     tp_threads := tp_threads tp; tp_max_queue := v;
     tp_file := tp_file tp; tp_line := tp_line tp |}.

(** ** The thread pool: configuration *)

(** The result of a directive handler or of [init_conf]. *)
Inductive conf_status := NGX_CONF_OK | NGX_CONF_ERROR.

(** The records logged at [NGX_LOG_EMERG] by the configuration code. *)
Inductive conf_emerg :=
| EmergDuplicate (name : string)
| EmergInvalidThreads (value : string)
| EmergInvalidMaxQueue (value : string)
| EmergMustHaveThreads (cmd : string)
| EmergUnknownPool (name file : string) (line : Z).

(** What of [ngx_conf_t] the thread pool reads: the directive's
    arguments, the position in the configuration file, and whether the
    arena can serve the two allocations of [ngx_thread_pool_add]. *)
Record ngx_conf_t := {
  args : list string;
  conf_file_name : string;
  conf_file_line : Z;
  pcalloc_ok : bool;
  array_push_ok : bool
}.

(** [ngx_thread_pool_conf_t] holds one array, [pools], of pointers to
    pools: it is the list of the pools, and a pointer to a pool is its
    position in the list. *)

Definition ngx_thread_pool_default : string := "default".

Definition zero_queue : ngx_thread_pool_queue_t :=
  {| first := None; last_p := None |}.

(** A pool as [ngx_pcalloc] returns it. *)
Definition zero_pool : ngx_thread_pool_t :=
  {| tp_sem := ngx_sem_zero; tp_task_id := 0; tp_in := zero_queue;
     tp_out := zero_queue; tp_name := ""; tp_threads := 0;
     tp_max_queue := 0; tp_file := ""; tp_line := 0 |}.

(** The loop of [ngx_thread_pool_get], from position [i] on. *)
Fixpoint ngx_thread_pool_get_from (tpp : list ngx_thread_pool_t) (i : nat)
    (name : string) : option nat :=
  match tpp with
  | [] => None
  | tp :: tpp' =>
      if (String.length (tp_name tp) =? String.length name)%nat
         && (ngx_strncmp (tp_name tp) name (String.length name) =? 0)
      then Some i
      else ngx_thread_pool_get_from tpp' (S i) name
  end.

Definition ngx_thread_pool_get (tcf : list ngx_thread_pool_t)
    (name : string) : option nat :=
  ngx_thread_pool_get_from tcf 0%nat name.

(** [ngx_thread_pool_add]: the pool of that name, made if there is none.
    The result is the pointer returned and the array afterwards. *)
Definition ngx_thread_pool_add (cf : ngx_conf_t)
    (tcf : list ngx_thread_pool_t) (name : option string)
    : option nat * list ngx_thread_pool_t :=
  let name := match name with
              | None => ngx_thread_pool_default
              | Some n => n
              end in
  match ngx_thread_pool_get tcf name with
  | Some i => (Some i, tcf)
  | None =>
      if negb (pcalloc_ok cf) then (None, tcf)
      else
        let tp := {| tp_sem := ngx_sem_zero; tp_task_id := 0;
                     tp_in := zero_queue; tp_out := zero_queue;
                     tp_name := name; tp_threads := 0; tp_max_queue := 0;
                     tp_file := conf_file_name cf;
                     tp_line := conf_file_line cf |} in
        if negb (array_push_ok cf) then (None, tcf)
        else (Some (length tcf), tcf ++ [tp])
  end.

Section Directive.
(** [ngx_atoi] ([ngx_string.c]) is outside the sources at hand: the
    bytes of a number to its value, or [NGX_ERROR]. *)
Variable ngx_atoi : string -> Z.

(** The loop [for (i = 2; i < cf->args->nelts; i++)] of
    [ngx_thread_pool], over the arguments left to read. [true] means
    the loop ran to its end. *)
Fixpoint ngx_thread_pool_args (value : list string)
    (tp : ngx_thread_pool_t)
    : bool * list conf_emerg * ngx_thread_pool_t :=
  match value with
  | [] => (true, [], tp)
  | v :: value' =>
      if ngx_strncmp v "threads=" 8 =? 0 then
        let tp := tp_set_threads
                    (to_ngx_uint (ngx_atoi (string_skip 8 v))) tp in
        if (tp_threads tp =? to_ngx_uint NGX_ERROR)
           || (tp_threads tp =? 0)
        then (false, [EmergInvalidThreads v], tp)
        else ngx_thread_pool_args value' tp
      else if ngx_strncmp v "max_queue=" 10 =? 0 then
        let tp := tp_set_max_queue
                    (to_ngx_uint (ngx_atoi (string_skip 10 v))) tp in
        if tp_max_queue tp =? to_ngx_uint NGX_ERROR
        then (false, [EmergInvalidMaxQueue v], tp)
        else ngx_thread_pool_args value' tp
      else ngx_thread_pool_args value' tp
  end.

(** The handler of the [thread_pool] directive. [cmd] is the
    directive's name; reading [value[1]] of a shorter argument list,
    which the parser never passes ([NGX_CONF_TAKE23]), gives the empty
    string. *)
Definition ngx_thread_pool (cf : ngx_conf_t) (cmd : string)
    (tcf : list ngx_thread_pool_t)
    : conf_status * list conf_emerg * list ngx_thread_pool_t :=
  let value := args cf in
  match ngx_thread_pool_add cf tcf (Some (nth 1 value ""%string)) with
  | (None, tcf) => (NGX_CONF_ERROR, [], tcf)
  | (Some i, tcf) =>
      match tcf !! i with
      | None => (NGX_CONF_ERROR, [], tcf) (* not reached: [i] is in [tcf] *)
      | Some tp =>
          if c_true (tp_threads tp) then
            (NGX_CONF_ERROR, [EmergDuplicate (tp_name tp)], tcf)
          else
            let tp := tp_set_max_queue 65536 tp in
            match ngx_thread_pool_args (drop 2 value) tp with
            | (false, lg, tp) => (NGX_CONF_ERROR, lg, <[i:=tp]> tcf)
            | (true, lg, tp) =>
                if tp_threads tp =? 0 then
                  (NGX_CONF_ERROR, lg ++ [EmergMustHaveThreads cmd],
                   <[i:=tp]> tcf)
                else (NGX_CONF_OK, lg, <[i:=tp]> tcf)
            end
      end
  end.
End Directive.

(** The loop of [ngx_thread_pool_init_conf] over the pools left to
    visit; the pools already visited keep what was written to them. *)
Fixpoint ngx_thread_pool_init_conf (tpp : list ngx_thread_pool_t)
    : conf_status * list conf_emerg * list ngx_thread_pool_t :=
  match tpp with
  | [] => (NGX_CONF_OK, [], [])
  | tp :: tpp' =>
      if c_true (tp_threads tp) then
        let '(rc, lg, rest) := ngx_thread_pool_init_conf tpp' in
        (rc, lg, tp :: rest)
      else if (String.length (tp_name tp)
                 =? String.length ngx_thread_pool_default)%nat
              && (ngx_strncmp (tp_name tp) ngx_thread_pool_default
                    (String.length ngx_thread_pool_default) =? 0)
      then
        let tp := tp_set_max_queue 65536 (tp_set_threads 32 tp) in
        let '(rc, lg, rest) := ngx_thread_pool_init_conf tpp' in
        (rc, lg, tp :: rest)
      else
        (NGX_CONF_ERROR,
         [EmergUnknownPool (tp_name tp) (tp_file tp) (tp_line tp)],
         tp :: tpp')
  end.
End Pool.

(** ** The thread pool: memory shared by the event loop and the workers *)

Section Runtime.
Context {semaphore : ngx_semaphore}.

(** One pool and the tasks allocated for it. *)
Record mem := {
  pool : ngx_thread_pool_t;
  tasks : gmap addr ngx_thread_pool_task_t
}.

(** What a run leaves behind for an observer: the error-log records of
    [ngx_thread_pool_task_post], every store that changes a queue (to a
    link cell or to a [last_p]), each task run by a worker, the
    notification sent to the event loop, and each completion handler
    called, with the task's event as the handler receives it. The debug
    records ([ngx_log_debug2] after the enqueue of a post, and those of
    the worker and of the handler), which are compiled in only with
    [NGX_DEBUG], are not among them, nor is what [ngx_sem_post] and the
    like log themselves. *)
Inductive obs :=
| LogAlertActive (id : Z)
| LogErrOverflow (name : string) (count : Z)
| StoreCell (c : link_cell) (v : ptr)
| StoreLastP (q : queue_id) (v : option link_cell)
| RunTask (task : addr) (ctx : Z)
| SignalNotify
| HandleNotify
| CallHandler (task : addr) (ev : ngx_event_t).

Record world := {
  w_mem : mem;
  w_tick : nat;
  w_trace : list obs
}.

(** A computation on the shared memory; [None] is a run that went through
    a pointer to nothing, or a loop cut short by lack of fuel. *)
Definition M (A : Type) : Type := world -> option (A * world).

Definition ret {A} (a : A) : M A := fun w => Some (a, w).

Definition bind {A B} (c : M A) (k : A -> M B) : M B :=
  fun w => match c w with
           | Some (a, w') => k a w'
           | None => None
           end.

Definition stuck {A} : M A := fun _ => None.

Notation "x <- c1 ;; c2" := (bind c1 (fun x => c2))
  (at level 100, c1 at next level, right associativity).
Notation "c1 ;; c2" := (bind c1 (fun _ => c2))
  (at level 100, right associativity).

Definition load_mem : M mem := fun w => Some (w_mem w, w).

Definition store_mem (m : mem) : M unit :=
  fun w => Some (tt, {| w_mem := m; w_tick := w_tick w;
                        w_trace := w_trace w |}).

Definition emit (o : obs) : M unit :=
  fun w => Some (tt, {| w_mem := w_mem w; w_tick := w_tick w;
                        w_trace := w_trace w ++ [o] |}).

(** The other threads. Between the moment this thread reads a word and the
    moment it compares-and-sets it, and whenever it yields, they may have
    run: [interfere n] is what they did to the memory before the [n]-th
    such point of the run. A run alone has [interfere n m = m]. The plain
    loads and stores in between are taken to follow one another without
    interference. *)
Variable interfere : nat -> mem -> mem.

Definition others_run : M unit :=
  fun w => Some (tt, {| w_mem := interfere (w_tick w) (w_mem w);
                        w_tick := S (w_tick w);
                        w_trace := w_trace w |}).

Definition load_pool : M ngx_thread_pool_t :=
  m <- load_mem ;; ret (pool m).

Definition store_pool (tp : ngx_thread_pool_t) : M unit :=
  m <- load_mem ;; store_mem {| pool := tp; tasks := tasks m |}.

Definition queue_of (q : queue_id) (tp : ngx_thread_pool_t)
    : ngx_thread_pool_queue_t :=
  match q with QIn => tp_in tp | QOut => tp_out tp end.

Definition set_queue (q : queue_id) (v : ngx_thread_pool_queue_t)
    (tp : ngx_thread_pool_t) : ngx_thread_pool_t :=
  match q with QIn => tp_set_in v tp | QOut => tp_set_out v tp end.

(** [*task], for reading. *)
Definition load_task (task : addr) : M ngx_thread_pool_task_t :=
  m <- load_mem ;;
  match tasks m !! task with
  | Some t => ret t
  | None => stuck
  end.

(** A store to fields of [*task]. *)
Definition update_task (task : addr)
    (f : ngx_thread_pool_task_t -> ngx_thread_pool_task_t) : M unit :=
  t <- load_task task ;;
  m <- load_mem ;;
  store_mem {| pool := pool m; tasks := <[task := f t]> (tasks m) |}.

Definition load_first (q : queue_id) : M ptr :=
  tp <- load_pool ;; ret (first (queue_of q tp)).

Definition store_first (q : queue_id) (v : ptr) : M unit :=
  tp <- load_pool ;;
  store_pool (set_queue q {| first := v;
                             last_p := last_p (queue_of q tp) |} tp) ;;
  emit (StoreCell (FirstOf q) v).

Definition load_last_p (q : queue_id) : M (option link_cell) :=
  tp <- load_pool ;; ret (last_p (queue_of q tp)).

Definition store_last_p (q : queue_id) (v : option link_cell) : M unit :=
  tp <- load_pool ;;
  store_pool (set_queue q {| first := first (queue_of q tp);
                             last_p := v |} tp) ;;
  emit (StoreLastP q v).

(** The store of [v] through the pointer [lp], [*lp = v]. *)
Definition store_through (lp : option link_cell) (v : ptr) : M unit :=
  match lp with
  | None => stuck
  | Some (FirstOf q) => store_first q v
  | Some (NextOf b) =>
      update_task b (task_set_next v) ;; emit (StoreCell (NextOf b) v)
  end.

(** [ngx_atomic_cmp_set(&queue.last_p, old, set)] *)
Definition ngx_atomic_cmp_set_last_p (q : queue_id)
    (old set : option link_cell) : M bool :=
  others_run ;;
  lp <- load_last_p q ;;
  if decide (lp = old) then store_last_p q set ;; ret true
  else ret false.

(** [ngx_atomic_cmp_set(&queue.first, old, set)] *)
Definition ngx_atomic_cmp_set_first (q : queue_id) (old set : ptr)
    : M bool :=
  others_run ;;
  p <- load_first q ;;
  if decide (p = old) then store_first q set ;; ret true
  else ret false.

(** *** [ngx_thread_pool_task_post] *)

(** Lines 222 to 238: the task goes to the end of the intake queue. *)
Definition ngx_thread_pool_task_post_enqueue (task : addr) : M unit :=
  lp <- load_last_p QIn ;;
  alone <- (if decide (lp = Some (FirstOf QIn)) then ret true
            else ok <- ngx_atomic_cmp_set_last_p QIn lp (Some (NextOf task)) ;;
                 ret (negb ok)) ;;
  if alone : bool then
    (* either this is the first task or the last one
       has just been dequeued by a thread *)
    store_first QIn (Some task) ;;
    store_last_p QIn (Some (NextOf task))
  else
    store_through lp (Some task).

Definition ngx_thread_pool_task_post (task : addr) : M Z :=
  t <- load_task task ;;
  if active (task_event t) then
    emit (LogAlertActive (task_id t)) ;;
    ret NGX_ERROR
  else
    tp <- load_pool ;;
    let '(rc, count) := ngx_sem_getvalue (tp_sem tp) in
    if negb (rc =? NGX_OK) then ret NGX_ERROR
    else if count >=? to_ngx_int (tp_max_queue tp) then
      emit (LogErrOverflow (tp_name tp) count) ;;
      ret NGX_ERROR
    else
      update_task task
        (fun t => task_set_event (set_active true (task_event t)) t) ;;
      update_task task (task_set_id (tp_task_id tp)) ;;
      store_pool (tp_set_task_id (to_ngx_uint (tp_task_id tp + 1)) tp) ;;
      update_task task (task_set_next None) ;;
      ngx_thread_pool_task_post_enqueue task ;;
      tp <- load_pool ;;
      let '(rc, sem) := ngx_sem_post (tp_sem tp) in
      store_pool (tp_set_sem sem tp) ;;
      if negb (rc =? NGX_OK) then ret NGX_ERROR
      else ret NGX_OK.

(** *** [ngx_thread_pool_cycle]: a finished task goes to the completion
    queue *)

(** Lines 336 to 341: the loop around the compare-and-set, then the store
    through the old tail link. *)
Fixpoint ngx_thread_pool_cycle_enqueue (fuel : nat) (task : addr)
    : M unit :=
  match fuel with
  | O => stuck
  | S fuel' =>
      lp <- load_last_p QOut ;;
      ok <- ngx_atomic_cmp_set_last_p QOut lp (Some (NextOf task)) ;;
      if ok : bool then store_through lp (Some task)
      else ngx_thread_pool_cycle_enqueue fuel' task
  end.

(** Lines 332 to 343, what a worker does with a task once its handler has
    returned. *)
Definition ngx_thread_pool_cycle_complete (fuel : nat) (task : addr)
    : M unit :=
  update_task task (task_set_next None) ;;
  (* ngx_memory_barrier() *)
  ngx_thread_pool_cycle_enqueue fuel task ;;
  emit SignalNotify.

(** *** [ngx_thread_pool_cycle]: a worker takes a task and runs it *)

(** The work of a task is code of the pool's user: [task_work h ctx] is
    what the handler [h], called on the payload [ctx], does to the
    memory. *)
Variable task_work : Z -> Z -> mem -> mem.

(** Lines 291 to 320, from the label [again] to the task taken off the
    intake queue. [ngx_thread_yield] lets the other threads run. *)
Fixpoint ngx_thread_pool_cycle_dequeue (fuel : nat) : M addr :=
  match fuel with
  | O => stuck
  | S fuel' =>
      p <- load_first QIn ;;
      match p with
      | None =>
          others_run ;;
          ngx_thread_pool_cycle_dequeue fuel'
      | Some task =>
          t <- load_task task ;;
          ok <- ngx_atomic_cmp_set_first QIn (Some task) (task_next t) ;;
          if negb ok then ngx_thread_pool_cycle_dequeue fuel'
          else
            p' <- load_first QIn ;;
            match p' with
            | Some _ => ret task
            | None =>
                (* special care to avoid race condition with appending *)
                lp <- load_last_p QIn ;;
                appended <-
                  (if decide (lp <> Some (NextOf task)) then ret true
                   else
                     ok <- ngx_atomic_cmp_set_last_p QIn
                             (Some (NextOf task)) (Some (FirstOf QIn)) ;;
                     ret (negb ok)) ;;
                if appended : bool then
                  t' <- load_task task ;;
                  match task_next t' with
                  | None =>
                      store_first QIn (Some task) ;;
                      others_run ;;
                      ngx_thread_pool_cycle_dequeue fuel'
                  | Some next =>
                      store_first QIn (Some next) ;;
                      ret task
                  end
                else ret task
            end
      end
  end.

(** [task->handler(task->ctx, &log)] *)
Definition run_task (task : addr) : M unit :=
  t <- load_task task ;;
  emit (RunTask task (task_ctx t)) ;;
  m <- load_mem ;;
  store_mem (task_work (task_handler t) (task_ctx t) m).

(** One turn of the loop [for ( ;; )] of a worker: wait, take a task, run
    it, hand it back. [false] is the [return NULL] after a failed wait; a
    wait that blocks does not return here. *)
Definition ngx_thread_pool_cycle_turn (fuel : nat) : M bool :=
  tp <- load_pool ;;
  match ngx_sem_wait (tp_sem tp) with
  | None => stuck
  | Some (rc, sem) =>
      store_pool (tp_set_sem sem tp) ;;
      if negb (rc =? NGX_OK) then ret false
      else
        task <- ngx_thread_pool_cycle_dequeue fuel ;;
        run_task task ;;
        ngx_thread_pool_cycle_complete fuel task ;;
        ret true
  end.

(** *** [ngx_thread_pool_handler] *)

(** A completion handler is code of the pool's user: [event_handler h task]
    is what the handler [h], called on the event of [task], does to the
    memory. *)
Variable event_handler : Z -> addr -> mem -> mem.

(** [event->handler(event)] *)
Definition call_event_handler (task : addr) : M unit :=
  t <- load_task task ;;
  emit (CallHandler task (task_event t)) ;;
  m <- load_mem ;;
  store_mem (event_handler (handler (task_event t)) task m).

(** The loop [for ( ;; )] of the handler. *)
Fixpoint ngx_thread_pool_handler_loop (fuel : nat) : M unit :=
  match fuel with
  | O => stuck
  | S fuel' =>
      p <- load_first QOut ;;
      match p with
      | None => ret tt
      | Some task =>
          t <- load_task task ;;
          store_first QOut (task_next t) ;;
          p' <- load_first QOut ;;
          appended <-
            match p' with
            | Some _ => ret false
            | None =>
                (* special care to avoid race condition with appending *)
                lp <- load_last_p QOut ;;
                if decide (lp <> Some (NextOf task)) then ret true
                else
                  ok <- ngx_atomic_cmp_set_last_p QOut (Some (NextOf task))
                          (Some (FirstOf QOut)) ;;
                  ret (negb ok)
            end ;;
          if appended : bool then
            store_first QOut (Some task)
          else
            update_task task
              (fun t => task_set_event (set_complete true (task_event t)) t) ;;
            update_task task
              (fun t => task_set_event (set_active false (task_event t)) t) ;;
            call_event_handler task ;;
            ngx_thread_pool_handler_loop fuel'
      end
  end.

(** [have_handle_notify] tells whether [ngx_handle_notify] is set; the
    call re-arms the channel and leaves the pool alone. *)
Definition ngx_thread_pool_handler (have_handle_notify : bool)
    (fuel : nat) : M unit :=
  (if have_handle_notify then emit HandleNotify else ret tt) ;;
  ngx_thread_pool_handler_loop fuel.

(** *** The enqueue as the specification words it *)

(** The specification's enqueue (Thread Pool Queues, Enqueue, steps 3 and
    4), which it gives for the intake queue and declares identical for the
    completion queue: read [lp = last_p]; if [lp == &first] or the
    compare-and-set of [last_p] from [lp] to [&task->next] fails, store
    [first = task] and [last_p = &task->next]; otherwise store [task]
    through the old [lp]. *)
Definition spec_enqueue (q : queue_id) (task : addr) : M unit :=
  lp <- load_last_p q ;;
  if decide (lp = Some (FirstOf q)) then
    store_first q (Some task) ;; store_last_p q (Some (NextOf task))
  else
    ok <- ngx_atomic_cmp_set_last_p q lp (Some (NextOf task)) ;;
    if ok : bool then store_through lp (Some task)
    else store_first q (Some task) ;; store_last_p q (Some (NextOf task)).

End Runtime.

(** ** The vocabulary of the properties *)

(** What of a call the scenarios count: operation, direction, flags. *)
Definition call_sig (c : reactor_call) : reactor_op * Z * Z :=
  (call_op c, call_event c, call_flags c).

(** A call that respects the registration state of its event: [add] on an
    event that is not active, [del] on one that is. *)
Definition call_respects_active (c : reactor_call) : Prop :=
  match call_op c with
  | OpAdd => active (call_ev c) = false
  | OpDel => active (call_ev c) = true
  end.

(** The calls a helper made, given the reactor before and its result. *)
Definition appended {R} (st : reactor R) (res : Z * ngx_event_t * reactor R)
    (new : list reactor_call) : Prop :=
  calls res.2 = calls st ++ new.

(** How many of the calls were of the given operation. *)
Definition count_op (op : reactor_op) (l : list reactor_call) : nat :=
  length (filter (fun c => call_op c = op) l).

(** A string without a zero byte, as the configuration parser produces. *)
Fixpoint no_nul (s : string) : bool :=
  match s with
  | EmptyString => true
  | String c r => negb (byte_val c =? 0) && no_nul r
  end.

(** A [threads=] or [max_queue=] parameter of the [thread_pool] directive,
    in the words of the documentation: an argument that begins so. *)
Definition is_threads_param (v : string) : bool := String.prefix "threads=" v.
Definition is_max_queue_param (v : string) : bool :=
  String.prefix "max_queue=" v.

Section PoolVocabulary.
Context {semaphore : ngx_semaphore}.

(** A pool that was referenced but never declared by a directive, and is
    not the default one. *)
Definition undeclared (tp : ngx_thread_pool_t) : Prop :=
  tp_threads tp = 0 /\ tp_name tp <> "default"%string.

#[global] Instance undeclared_dec tp : Decision (undeclared tp).
Proof. unfold undeclared. apply _. Defined.

(** What [init_conf] makes of a pool when it does not fail. *)
Definition auto_provided (tp : ngx_thread_pool_t) : ngx_thread_pool_t :=
  if decide (tp_threads tp = 0 /\ tp_name tp = "default"%string)
  then tp_set_max_queue 65536 (tp_set_threads 32 tp)
  else tp.

(** A [last_p] that can be stored through: it points at a head pointer or
    at the link of an allocated task. *)
Definition link_valid (m : mem) (lp : option link_cell) : Prop :=
  match lp with
  | None => False
  | Some (FirstOf _) => True
  | Some (NextOf b) => is_Some (tasks m !! b)
  end.

(** The chain of tasks that starts at [p] is exactly [l], ending in
    [NULL]. *)
Fixpoint queue_seg (ts : gmap addr ngx_thread_pool_task_t) (p : ptr)
    (l : list addr) : Prop :=
  match l with
  | [] => p = None
  | a :: l' =>
      p = Some a
      /\ exists t, ts !! a = Some t /\ queue_seg ts (task_next t) l'
  end.

(** The cell [last_p] points at when the queue holds [l]: the link of the
    last task, or the head pointer when there is none. *)
Definition queue_tail (q : queue_id) (l : list addr) : option link_cell :=
  Some (match last l with
        | Some a => NextOf a
        | None => FirstOf q
        end).

(** The queue invariant of the data model: the queue [q] of the pool holds
    the tasks [l], in order. *)
Definition queue_holds (q : queue_id) (m : mem) (l : list addr) : Prop :=
  queue_seg (tasks m) (first (queue_of q (pool m))) l
  /\ last_p (queue_of q (pool m)) = queue_tail q l.


(** The completion handlers called during a run, in order, each with the
    event it was given. *)
Definition handler_calls (tr : list obs) : list (addr * ngx_event_t) :=
  omap (fun o => match o with
                 | CallHandler task ev => Some (task, ev)
                 | _ => None
                 end) tr.

(** The stores to the queues made during a run, in order. *)
Definition queue_stores (tr : list obs) : list obs :=
  omap (fun o => match o with
                 | StoreCell _ _ | StoreLastP _ _ => Some o
                 | _ => None
                 end) tr.

(** The event a completion handler may be given: complete and no longer
    active. *)
Definition completed (ev : ngx_event_t) : Prop :=
  complete ev = true /\ active ev = false.

End PoolVocabulary.

(** ** Reasoning about runs *)

Section Runs.
Context {semaphore : ngx_semaphore}.

(** [runs c Q w]: from [w] the computation [c] returns, with a result and
    a world that satisfy [Q]. *)
Definition runs {A} (c : M A) (Q : A -> world -> Prop) (w : world) : Prop :=
  exists a w', c w = Some (a, w') /\ Q a w'.

(** [safe c Q w]: if the computation [c] returns from [w], its result and
    world satisfy [Q]. *)
Definition safe {A} (c : M A) (Q : A -> world -> Prop) (w : world) : Prop :=
  forall a w', c w = Some (a, w') -> Q a w'.

(** The world with its memory replaced, and with one more observation. *)
Definition with_mem (m : mem) (w : world) : world :=
  {| w_mem := m; w_tick := w_tick w; w_trace := w_trace w |}.

Definition with_obs (o : obs) (w : world) : world :=
  {| w_mem := w_mem w; w_tick := w_tick w; w_trace := w_trace w ++ [o] |}.

(** The memory with its pool or its tasks replaced. *)
Definition with_pool (tp : ngx_thread_pool_t) (m : mem) : mem :=
  {| pool := tp; tasks := tasks m |}.

Definition with_tasks (ts : gmap addr ngx_thread_pool_task_t) (m : mem)
    : mem :=
  {| pool := pool m; tasks := ts |}.

(** The pool with one word of one queue replaced. *)
Definition with_first (q : queue_id) (v : ptr) (tp : ngx_thread_pool_t)
    : ngx_thread_pool_t :=
  set_queue q {| first := v; last_p := last_p (queue_of q tp) |} tp.

Definition with_last_p (q : queue_id) (v : option link_cell)
    (tp : ngx_thread_pool_t) : ngx_thread_pool_t :=
  set_queue q {| first := first (queue_of q tp); last_p := v |} tp.

(** The world after one point at which the other threads could have run
    and did nothing. *)
Definition ticked (w : world) : world :=
  {| w_mem := w_mem w; w_tick := S (w_tick w); w_trace := w_trace w |}.

(** The memory a run returns with, if it returns. *)
Definition final_mem {A} (r : option (A * world)) : option mem :=
  match r with
  | Some (_, w) => Some (w_mem w)
  | None => None
  end.

(** The stores to the queues a run made, if it returns. *)
Definition final_stores {A} (r : option (A * world)) : option (list obs) :=
  match r with
  | Some (_, w) => Some (queue_stores (w_trace w))
  | None => None
  end.


(** [w'] continues [w] without a call to a completion handler. *)
Definition no_calls (w w' : world) : Prop :=
  exists new, w_trace w' = w_trace w ++ new /\ handler_calls new = [].

End Runs.

(** ** Fixtures for the examples *)

(** Modelled from the spec: the event methods themselves (select, poll,
    kqueue and the others) are outside the sources at hand. The data model
    says that [active] is set exactly while the reactor holds the event; so
    this method keeps the list of the directions it holds, sets [active] on
    [add] and clears it on [del], and always succeeds. *)
Definition holding_method : ngx_event_actions_t (list Z) := {|
  add := fun ev event _ held => (NGX_OK, set_active true ev, event :: held);
  del := fun ev event _ held =>
           (NGX_OK, set_active false ev, filter (fun e => e <> event) held);
  enable := fun ev _ _ held => (NGX_OK, ev, held);
  disable := fun ev _ _ held => (NGX_OK, ev, held)
|}.

Definition idle_reactor : reactor (list Z) := {| backend := []; calls := [] |}.

(** An event that the reactor holds and that is not ready. *)
Definition held_event : ngx_event_t := set_active true zero_event.

(** A decimal reading with the interface of [ngx_atoi], for the examples:
    the value of a non-empty run of digits that fits [ngx_int_t], and
    [NGX_ERROR] for anything else. *)
Fixpoint decimal_value (acc : Z) (s : string) : Z :=
  match s with
  | EmptyString => acc
  | String c r =>
      let d := byte_val c - 48 in
      if (0 <=? d) && (d <=? 9) && (acc * 10 + d <? 2 ^ (NGX_PTR_BITS - 1))
      then decimal_value (acc * 10 + d) r
      else NGX_ERROR
  end.

Definition decimal_atoi (s : string) : Z :=
  match s with
  | EmptyString => NGX_ERROR
  | _ => decimal_value 0 s
  end.

(** The directive [thread_pool default max_queue=1024;]. *)
Definition directive_default_max_queue : ngx_conf_t :=
  {| args := ["thread_pool"; "default"; "max_queue=1024"]%string;
     conf_file_name := "nginx.conf"; conf_file_line := 1;
     pcalloc_ok := true; array_push_ok := true |}.

(** The directive [thread_pool io threads=4;]. *)
Definition directive_io_threads : ngx_conf_t :=
  {| args := ["thread_pool"; "io"; "threads=4"]%string;
     conf_file_name := "nginx.conf"; conf_file_line := 2;
     pcalloc_ok := true; array_push_ok := true |}.

(** The directive [thread_pool io max_queue=8;]. *)
Definition directive_io_max_queue : ngx_conf_t :=
  {| args := ["thread_pool"; "io"; "max_queue=8"]%string;
     conf_file_name := "nginx.conf"; conf_file_line := 2;
     pcalloc_ok := true; array_push_ok := true |}.

(** A pool over the counting semaphore as the configuration code keeps
    it, by name and thread count. *)
Definition conf_pool (name : string) (threads max_queue : Z)
    : @ngx_thread_pool_t counting_semaphore :=
  @Build_ngx_thread_pool_t counting_semaphore None 0 zero_queue zero_queue
    name threads max_queue "nginx.conf" 1.

(** A run alone: the other threads do nothing. *)
Definition no_interference {semaphore : ngx_semaphore} (n : nat) (m : mem)
    : mem := m.

(** A queue as [ngx_thread_pool_init] leaves it: [first = NULL] and
    [last_p = &first]. *)
Definition empty_queue (q : queue_id) : ngx_thread_pool_queue_t :=
  {| first := None; last_p := Some (FirstOf q) |}.

(** A pool over the counting semaphore as [ngx_thread_pool_init] leaves
    it, with the given settings and the given semaphore count. *)
Definition started_pool (threads max_queue count : Z)
    : @ngx_thread_pool_t counting_semaphore :=
  @Build_ngx_thread_pool_t counting_semaphore (Some count) 0
    (empty_queue QIn) (empty_queue QOut) "default" threads max_queue
    "nginx.conf" 1.

(** A task as [ngx_thread_pool_task_alloc] returns it, with its handlers
    set. *)
Definition new_task (h eh : Z) : ngx_thread_pool_task_t :=
  {| task_next := None; task_id := 0; task_ctx := 0; task_handler := h;
     task_event :=
       mk_event 0 eh 0 false false false false false false false false
         false false false false false false false false false false false
         false false false false |}.

Definition world_of {semaphore : ngx_semaphore} (m : mem) : world :=
  {| w_mem := m; w_tick := 0%nat; w_trace := [] |}.

(** A started pool with three allocated tasks, empty queues, and the
    given limit and semaphore count. *)
Definition three_tasks (max_queue count : Z) : @mem counting_semaphore :=
  {| pool := started_pool 2 max_queue count;
     tasks := {[ 1%positive := new_task 7 8;
                 2%positive := new_task 7 8;
                 3%positive := new_task 7 8 ]} |}.

(** A task that was posted and not yet handled: it bears its id and its
    event is active. *)
Definition posted_task (id : Z) (next : ptr) : ngx_thread_pool_task_t :=
  task_set_next next
    (task_set_id id
       (task_set_event (set_active true (task_event (new_task 7 8)))
          (new_task 7 8))).

(** A started pool where task 1 was posted and is waiting in the intake
    queue. *)
Definition task_1_active : @mem counting_semaphore :=
  {| pool :=
       @Build_ngx_thread_pool_t counting_semaphore (Some 1) 1
         {| first := Some 1%positive; last_p := Some (NextOf 1%positive) |}
         (empty_queue QOut) "default" 2 4 "nginx.conf" 1;
     tasks := {[ 1%positive := posted_task 0 None;
                 2%positive := new_task 7 8 ]} |}.

(** A started pool whose workers have run three posted tasks: tasks 1 and
    2 wait, in this order, in the completion queue, and task 3 is about to
    be put there. *)
Definition two_completed : @mem counting_semaphore :=
  {| pool :=
       @Build_ngx_thread_pool_t counting_semaphore (Some 0) 3
         (empty_queue QIn)
         {| first := Some 1%positive; last_p := Some (NextOf 2%positive) |}
         "default" 2 4 "nginx.conf" 1;
     tasks := {[ 1%positive := posted_task 0 (Some 2%positive);
                 2%positive := posted_task 1 None;
                 3%positive := posted_task 2 None ]} |}.

(** The same with task 2 alone in the completion queue, and tasks 1 and 3
    about to be put there by two workers. *)
Definition one_completed : @mem counting_semaphore :=
  {| pool :=
       @Build_ngx_thread_pool_t counting_semaphore (Some 0) 3
         (empty_queue QIn)
         {| first := Some 2%positive; last_p := Some (NextOf 2%positive) |}
         "default" 2 4 "nginx.conf" 1;
     tasks := {[ 1%positive := posted_task 0 None;
                 2%positive := posted_task 1 None;
                 3%positive := posted_task 2 None ]} |}.

(** Work that writes nothing the pool can see. *)
Definition private_work {semaphore : ngx_semaphore} (h ctx : Z) (m : mem)
    : mem := m.

(** A completion handler that gives its task back to the arena. *)
Definition freeing_handler {semaphore : ngx_semaphore} (h : Z)
    (task : addr) (m : mem) : mem :=
  {| pool := pool m; tasks := delete task (tasks m) |}.

(** Another worker that, the first time it gets to run, puts the finished
    task [task] on the completion queue, and then rests. *)
Definition rival_worker {semaphore : ngx_semaphore} (task : addr) (n : nat)
    (m : mem) : mem :=
  match n with
  | O =>
      match ngx_thread_pool_cycle_enqueue no_interference 1 task
              (world_of m) with
      | Some (_, w) => w_mem w
      | None => m
      end
  | S _ => m
  end.

(** A round trip on a pool with room for two waiting tasks: the event loop
    posts tasks 1, 2 and 3; a worker takes two turns; the event loop then
    handles the notification. The result is the statuses of the three
    posts and of the two turns. *)
Definition offload_round_trip : @M counting_semaphore (list Z * list bool) :=
  bind (ngx_thread_pool_task_post no_interference 1%positive) (fun r1 =>
  bind (ngx_thread_pool_task_post no_interference 2%positive) (fun r2 =>
  bind (ngx_thread_pool_task_post no_interference 3%positive) (fun r3 =>
  bind (ngx_thread_pool_cycle_turn no_interference private_work 4) (fun t1 =>
  bind (ngx_thread_pool_cycle_turn no_interference private_work 4) (fun t2 =>
  bind (ngx_thread_pool_handler no_interference freeing_handler true 4)
    (fun _ => ret ([r1; r2; r3], [t1; t2]))))))).

(** ** Further vocabulary *)

(** The status the event method gave to a call, on the state it was
    called with. *)
Definition method_result {R} (acts : ngx_event_actions_t R)
    (c : reactor_call) (r : R) : Z * ngx_event_t * R :=
  match call_op c with
  | OpAdd => add acts (call_ev c) (call_event c) (call_flags c) r
  | OpDel => del acts (call_ev c) (call_event c) (call_flags c) r
  end.

(** An event method that keeps the registration discipline of the data
    model: [add] leaves the event active, [del] leaves it not active, and
    neither touches [ready]. *)
Definition method_tracks_active {R} (acts : ngx_event_actions_t R) : Prop :=
  forall ev e f r,
    active (add acts ev e f r).1.2 = true
    /\ ready (add acts ev e f r).1.2 = ready ev
    /\ active (del acts ev e f r).1.2 = false
    /\ ready (del acts ev e f r).1.2 = ready ev.

(** The outcome of a helper called on [ev] with the reactor [st]: either
    it did nothing and returned [NGX_OK], or it made one call on [ev],
    returned [NGX_ERROR] exactly when the event method did, and left the
    event and the method's state as the method left them. *)
Definition one_call_or_none {R} (acts : ngx_event_actions_t R)
    (ev : ngx_event_t) (st : reactor R)
    (res : Z * ngx_event_t * reactor R) : Prop :=
  res = (NGX_OK, ev, st)
  \/ exists c,
       call_ev c = ev
       /\ res = (if (method_result acts c (backend st)).1.1 =? NGX_ERROR
                 then NGX_ERROR else NGX_OK,
                 (method_result acts c (backend st)).1.2,
                 {| backend := (method_result acts c (backend st)).2;
                    calls := calls st ++ [c] |}).

Section DirectiveVocabulary.
Variable ngx_atoi : string -> Z.

(** The number a [threads=] or [max_queue=] parameter carries, as the
    directive stores it. *)
Definition threads_value (v : string) : Z :=
  to_ngx_uint (ngx_atoi (string_skip 8 v)).
Definition max_queue_value (v : string) : Z :=
  to_ngx_uint (ngx_atoi (string_skip 10 v)).

(** A parameter the directive does not reject: a [threads=] whose number
    is neither an error nor zero, a [max_queue=] whose number is not an
    error, or anything else. *)
Definition param_accepted (v : string) : bool :=
  if is_threads_param v then
    negb (threads_value v =? to_ngx_uint NGX_ERROR)
    && negb (threads_value v =? 0)
  else if is_max_queue_param v then
    negb (max_queue_value v =? to_ngx_uint NGX_ERROR)
  else true.

(** The last of the parameters of one kind, if there is one. *)
Definition last_param (kind : string -> bool) (params : list string)
    : option string :=
  last (List.filter kind params).

(** A parameter the directive reads. *)
Definition param_recognised (v : string) : bool :=
  is_threads_param v || is_max_queue_param v.

End DirectiveVocabulary.

Section RunVocabulary.
Context {semaphore : ngx_semaphore}.

(** Work that leaves the pool's own data alone: it does not write the
    pool, and the chains of tasks stay what they were. It may do anything
    else to the tasks. *)
Definition work_keeps_links (task_work : Z -> Z -> mem -> mem) : Prop :=
  forall h ctx m,
    pool (task_work h ctx m) = pool m
    /\ forall p l,
         queue_seg (tasks m) p l ->
         queue_seg (tasks (task_work h ctx m)) p l.

(** Observations that are all stores to the queues. *)
Definition only_stores (tr : list obs) : Prop := queue_stores tr = tr.

End RunVocabulary.

Section WorkerLoop.
Context {semaphore : ngx_semaphore}.
Variable interfere : nat -> mem -> mem.
Variable task_work : Z -> Z -> mem -> mem.

(** The loop [for ( ;; )] of [ngx_thread_pool_cycle], followed for
    [turns] turns: [false] is the thread's [return NULL] after a failed
    wait, [true] a thread that is still in its loop. The prologue (the
    thread's own log and the blocked signals) writes nothing to the
    pool. *)
Fixpoint ngx_thread_pool_cycle (fuel turns : nat) : M bool :=
  match turns with
  | O => ret true
  | S turns' =>
      bind (ngx_thread_pool_cycle_turn interfere task_work fuel)
        (fun ok : bool =>
           if ok then ngx_thread_pool_cycle fuel turns' else ret false)
  end.

(** The event loop posts the tasks one after another; the result is the
    statuses. *)
Fixpoint post_each (l : list addr) : M (list Z) :=
  match l with
  | [] => ret []
  | task :: l' =>
      bind (ngx_thread_pool_task_post interfere task) (fun rc =>
        bind (post_each l') (fun rcs => ret (rc :: rcs)))
  end.

(** The tasks whose work was run during a run, in order. *)
Definition task_runs (tr : list obs) : list addr :=
  omap (fun o => match o with
                 | RunTask task _ => Some task
                 | _ => None
                 end) tr.

End WorkerLoop.

(** ** Further fixtures *)

(** The pools of a configuration that declares [io] with four threads
    and refers to [default] without declaring it. *)
Definition two_pools : list (@ngx_thread_pool_t counting_semaphore) :=
  [conf_pool "io" 4 65536; conf_pool "default" 0 0].

(** The directive
    [thread_pool io threads=2 sendfile max_queue=0 threads=8;]. *)
Definition directive_io_mixed : ngx_conf_t :=
  {| args := ["thread_pool"; "io"; "threads=2"; "sendfile"; "max_queue=0";
              "threads=8"]%string;
     conf_file_name := "nginx.conf"; conf_file_line := 3;
     pcalloc_ok := true; array_push_ok := true |}.

(** A started pool where tasks 1 and 2 were posted, in this order, and
    wait in the intake queue. *)
Definition two_posted : @mem counting_semaphore :=
  {| pool :=
       @Build_ngx_thread_pool_t counting_semaphore (Some 2) 2
         {| first := Some 1%positive; last_p := Some (NextOf 2%positive) |}
         (empty_queue QOut) "default" 2 4 "nginx.conf" 1;
     tasks := {[ 1%positive := posted_task 0 (Some 2%positive);
                 2%positive := posted_task 1 None;
                 3%positive := new_task 7 8 ]} |}.

(** Task 1 waits in the intake queue while the event loop posts task 2:
    the post has moved [last_p] to the link of task 2 and has not yet
    stored task 2 through the link of task 1. *)
Definition intake_append_pending : @mem counting_semaphore :=
  {| pool :=
       @Build_ngx_thread_pool_t counting_semaphore (Some 1) 2
         {| first := Some 1%positive; last_p := Some (NextOf 2%positive) |}
         (empty_queue QOut) "default" 2 4 "nginx.conf" 1;
     tasks := {[ 1%positive := posted_task 0 None;
                 2%positive := posted_task 1 None ]} |}.

(** The same on the completion queue: task 1 waits there while a worker
    hands back task 3. *)
Definition completion_append_pending : @mem counting_semaphore :=
  {| pool :=
       @Build_ngx_thread_pool_t counting_semaphore (Some 0) 3
         (empty_queue QIn)
         {| first := Some 1%positive; last_p := Some (NextOf 3%positive) |}
         "default" 2 4 "nginx.conf" 1;
     tasks := {[ 1%positive := posted_task 0 None;
                 3%positive := posted_task 2 None ]} |}.

(** The event loop that, the second time the others get to run, stores
    task 2 through the link of task 1, and rests otherwise. *)
Definition late_link (n : nat) (m : @mem counting_semaphore)
    : @mem counting_semaphore :=
  match n, tasks m !! 1%positive with
  | 1%nat, Some t =>
      {| pool := pool m;
         tasks := <[1%positive := task_set_next (Some 2%positive) t]>
                    (tasks m) |}
  | _, _ => m
  end.

(** A worker that, the first time it gets to run, takes the task at the
    head of the intake queue, and then rests. *)
Definition rival_dequeue (n : nat) (m : @mem counting_semaphore)
    : @mem counting_semaphore :=
  match n with
  | O =>
      match ngx_thread_pool_cycle_dequeue no_interference 1 (world_of m) with
      | Some (_, w) => w_mem w
      | None => m
      end
  | S _ => m
  end.

(** ** The drain and the workers *)

Section DrainVocabulary.
Context {semaphore : ngx_semaphore}.




(** [w'] continues [w] without the work of a task being run. *)
Definition no_work (w w' : world) : Prop :=
  exists new, w_trace w' = w_trace w ++ new /\ task_runs new = [].

End DrainVocabulary.

(** The directive [thread_pool io threads=0;]. *)
Definition directive_io_zero_threads : ngx_conf_t :=
  {| args := ["thread_pool"; "io"; "threads=0"]%string;
     conf_file_name := "nginx.conf"; conf_file_line := 2;
     pcalloc_ok := true; array_push_ok := true |}.

(** The event loop that, the third time the others get to run, posts
    task 1, and rests otherwise. *)
Definition late_post (n : nat) (m : @mem counting_semaphore)
    : @mem counting_semaphore :=
  match n with
  | 2%nat =>
      match ngx_thread_pool_task_post no_interference 1%positive
              (world_of m) with
      | Some (_, w) => w_mem w
      | None => m
      end
  | _ => m
  end.

(** * Proofs *)

(** ** The readiness helpers *)

Lemma c_true_false z : c_true z = false <-> z = 0.
Proof. unfold c_true. destruct (Z.eqb_spec z 0); simpl; split; congruence. Qed.

Lemma c_true_true z : c_true z = true <-> z <> 0.
Proof. unfold c_true. destruct (Z.eqb_spec z 0); simpl; split; congruence. Qed.

Section HelperFacts.
Context {build : ngx_event_build} {R : Type}.
Variable acts : ngx_event_actions_t R.
Variable ngx_event_flags : Z.

Lemma ngx_add_event_calls ev e f (st : reactor R) :
  calls (ngx_add_event acts ev e f st).2
  = calls st ++ [Build_reactor_call OpAdd ev e f].
Proof.
  unfold ngx_add_event.
  destruct (add acts ev e f (backend st)) as [[rc ev'] r']. reflexivity.
Qed.

Lemma ngx_del_event_calls ev e f (st : reactor R) :
  calls (ngx_del_event acts ev e f st).2
  = calls st ++ [Build_reactor_call OpDel ev e f].
Proof.
  unfold ngx_del_event.
  destruct (del acts ev e f (backend st)) as [[rc ev'] r']. reflexivity.
Qed.

Lemma ngx_add_event_ev ev e f (st : reactor R) :
  (ngx_add_event acts ev e f st).1.2 = (add acts ev e f (backend st)).1.2.
Proof.
  unfold ngx_add_event.
  destruct (add acts ev e f (backend st)) as [[rc ev'] r']. reflexivity.
Qed.

Lemma ngx_del_event_ev ev e f (st : reactor R) :
  (ngx_del_event acts ev e f st).1.2 = (del acts ev e f (backend st)).1.2.
Proof.
  unfold ngx_del_event.
  destruct (del acts ev e f (backend st)) as [[rc ev'] r']. reflexivity.
Qed.

(** The four helpers share one shape: at most one call, with the status
    following the call's. These equations give the calls recorded and the
    event left after a call to [add] or to [del]. *)
Lemma after_add_calls ev e f (st : reactor R) :
  calls (let '(rc, ev', st') := ngx_add_event acts ev e f st in
         if rc =? NGX_ERROR then (NGX_ERROR, ev', st')
         else (NGX_OK, ev', st')).2
  = calls st ++ [Build_reactor_call OpAdd ev e f].
Proof.
  rewrite <- ngx_add_event_calls.
  destruct (ngx_add_event acts ev e f st) as [[rc ev'] st'].
  destruct (rc =? NGX_ERROR); reflexivity.
Qed.

Lemma after_del_calls ev e f (st : reactor R) :
  calls (let '(rc, ev', st') := ngx_del_event acts ev e f st in
         if rc =? NGX_ERROR then (NGX_ERROR, ev', st')
         else (NGX_OK, ev', st')).2
  = calls st ++ [Build_reactor_call OpDel ev e f].
Proof.
  rewrite <- ngx_del_event_calls.
  destruct (ngx_del_event acts ev e f st) as [[rc ev'] st'].
  destruct (rc =? NGX_ERROR); reflexivity.
Qed.

Lemma after_add_ev ev e f (st : reactor R) :
  (let '(rc, ev', st') := ngx_add_event acts ev e f st in
   if rc =? NGX_ERROR then (NGX_ERROR, ev', st')
   else (NGX_OK, ev', st')).1.2
  = (add acts ev e f (backend st)).1.2.
Proof.
  rewrite <- ngx_add_event_ev.
  destruct (ngx_add_event acts ev e f st) as [[rc ev'] st'].
  destruct (rc =? NGX_ERROR); reflexivity.
Qed.

Lemma after_del_ev ev e f (st : reactor R) :
  (let '(rc, ev', st') := ngx_del_event acts ev e f st in
   if rc =? NGX_ERROR then (NGX_ERROR, ev', st')
   else (NGX_OK, ev', st')).1.2
  = (del acts ev e f (backend st)).1.2.
Proof.
  rewrite <- ngx_del_event_ev.
  destruct (ngx_del_event acts ev e f st) as [[rc ev'] st'].
  destruct (rc =? NGX_ERROR); reflexivity.
Qed.

Lemma appended_nothing rc ev (st : reactor R) : appended st (rc, ev, st) [].
Proof. unfold appended. simpl. by rewrite app_nil_r. Qed.

(** C2. Whatever the state of the event and whatever the capability flags,
    each of the four readiness helpers asks the event method to [add] only
    an event whose [active] bit is clear and to [del] only an event whose
    [active] bit is set. *)
Theorem helpers_respect_active (ev : ngx_event_t) (flags : Z)
    (st : reactor R) :
  (exists new,
      appended st (ngx_handle_read_event acts ngx_event_flags ev flags st) new
      /\ Forall call_respects_active new)
  /\ (exists new,
      appended st (ngx_handle_write_event acts ngx_event_flags ev flags st) new
      /\ Forall call_respects_active new)
  /\ (exists new,
      appended st (ngx_handle_level_read_event acts ngx_event_flags ev st) new
      /\ Forall call_respects_active new)
  /\ (exists new,
      appended st (ngx_handle_level_write_event acts ngx_event_flags ev st) new
      /\ Forall call_respects_active new).
Proof.
  unfold ngx_handle_read_event, ngx_handle_write_event,
    ngx_handle_level_read_event, ngx_handle_level_write_event, appended.
  destruct (c_true (Z.land ngx_event_flags NGX_USE_CLEAR_EVENT)),
    (c_true (Z.land ngx_event_flags NGX_USE_LEVEL_EVENT)),
    (active ev) eqn:Hactive, (ready ev),
    (c_true (Z.land flags NGX_CLOSE_EVENT));
    cbn [negb andb orb];
    rewrite ?after_add_calls, ?after_del_calls;
    repeat split;
    first [ by (exists []; rewrite app_nil_r; split; [ | constructor ])
          | eexists [_]; split; [ reflexivity | ];
            constructor; [ exact Hactive | constructor ] ].
Qed.

(** C1, as amended. With the LEVEL capability (and without CLEAR), on an
    event whose [active] bit is set, [ngx_handle_write_event] calls
    [del(WRITE, 0)] exactly when [ready] is set; its [flags] argument is
    neither consulted nor passed on, so a call with [ready] clear makes no
    call to the event method even when [flags] holds [NGX_CLOSE_EVENT]. *)
Theorem write_event_level_active (wev : ngx_event_t) (flags : Z)
    (st : reactor R) :
  Z.land ngx_event_flags NGX_USE_CLEAR_EVENT = 0 ->
  Z.land ngx_event_flags NGX_USE_LEVEL_EVENT <> 0 ->
  active wev = true ->
  appended st (ngx_handle_write_event acts ngx_event_flags wev flags st)
    (if ready wev
     then [Build_reactor_call OpDel wev NGX_WRITE_EVENT 0]
     else []).
Proof.
  intros Hclear Hlevel Hactive.
  apply c_true_false in Hclear. apply c_true_true in Hlevel.
  unfold ngx_handle_write_event, appended.
  rewrite Hclear, Hlevel, Hactive. cbn [negb andb].
  destruct (ready wev); cbn [andb].
  - apply after_del_calls.
  - simpl. by rewrite app_nil_r.
Qed.

(** Once an event is active, the CLEAR branch of the read helper neither
    calls the event method nor touches the event, whatever [ready] is set
    to between the calls. *)
Lemma read_event_run_clear_active steps (rev : ngx_event_t)
    (st : reactor R) :
  Z.land ngx_event_flags NGX_USE_CLEAR_EVENT <> 0 ->
  active rev = true ->
  (read_event_run acts ngx_event_flags steps rev st).2 = st.
Proof.
  intros Hclear. apply c_true_true in Hclear.
  revert rev. induction steps as [ | [rdy flags] steps IH ]; intros rev Hactive.
  - reflexivity.
  - cbn [read_event_run]. unfold ngx_handle_read_event.
    rewrite Hclear.
    replace (active (set_ready rdy rev)) with true by (symmetry; exact Hactive).
    cbn [negb andb]. apply IH. exact Hactive.
Qed.

(** C6. With the LEVEL capability (and without CLEAR, so in particular
    with LEVEL alone) and an event method that sets [active] when it adds
    and clears it when it deletes: starting from an event that is neither
    active nor ready, calling [ngx_handle_read_event], then setting [ready]
    and calling again, then clearing [ready] and calling again, makes
    exactly three calls to the event method, in this order: [add(READ,
    LEVEL)], [del(READ, flags)], [add(READ, LEVEL)]; two adds and one
    del. *)
Theorem level_read_churn (rev : ngx_event_t) (f1 f2 f3 : Z)
    (st : reactor R) :
  (forall ev e f r, active (add acts ev e f r).1.2 = true) ->
  (forall ev e f r, active (del acts ev e f r).1.2 = false) ->
  Z.land ngx_event_flags NGX_USE_CLEAR_EVENT = 0 ->
  Z.land ngx_event_flags NGX_USE_LEVEL_EVENT <> 0 ->
  active rev = false ->
  exists new,
    calls (read_event_run acts ngx_event_flags
             [(false, f1); (true, f2); (false, f3)] rev st).2
    = calls st ++ new
    /\ map call_sig new
       = [(OpAdd, NGX_READ_EVENT, NGX_LEVEL_EVENT);
          (OpDel, NGX_READ_EVENT, f2);
          (OpAdd, NGX_READ_EVENT, NGX_LEVEL_EVENT)]
    /\ count_op OpAdd new = 2%nat
    /\ count_op OpDel new = 1%nat.
Proof.
  intros Hadd Hdel Hclear Hlevel Hactive.
  apply c_true_false in Hclear. apply c_true_true in Hlevel.
  cbn [read_event_run]. unfold ngx_handle_read_event.
  rewrite Hclear, Hlevel.
  (* first call: add *)
  replace (active (set_ready false rev)) with false
    by (symmetry; exact Hactive).
  cbn [ready set_ready negb andb].
  pose proof (after_add_calls (set_ready false rev) NGX_READ_EVENT
                NGX_LEVEL_EVENT st) as Hc1.
  pose proof (after_add_ev (set_ready false rev) NGX_READ_EVENT
                NGX_LEVEL_EVENT st) as He1.
  destruct (let '(rc, ev', st') :=
              ngx_add_event acts (set_ready false rev) NGX_READ_EVENT
                NGX_LEVEL_EVENT st in
            if rc =? NGX_ERROR then (NGX_ERROR, ev', st')
            else (NGX_OK, ev', st')) as [[rc1 rev1] st1].
  cbn [fst snd] in Hc1, He1.
  assert (active rev1 = true) as Ha1 by (rewrite He1; apply Hadd).
  (* second call: del *)
  replace (active (set_ready true rev1)) with true by (symmetry; exact Ha1).
  cbn [ready set_ready negb andb orb].
  pose proof (after_del_calls (set_ready true rev1) NGX_READ_EVENT f2 st1)
    as Hc2.
  pose proof (after_del_ev (set_ready true rev1) NGX_READ_EVENT f2 st1)
    as He2.
  destruct (let '(rc, ev', st') :=
              ngx_del_event acts (set_ready true rev1) NGX_READ_EVENT f2
                st1 in
            if rc =? NGX_ERROR then (NGX_ERROR, ev', st')
            else (NGX_OK, ev', st')) as [[rc2 rev2] st2].
  cbn [fst snd] in Hc2, He2.
  assert (active rev2 = false) as Ha2 by (rewrite He2; apply Hdel).
  (* third call: add *)
  replace (active (set_ready false rev2)) with false
    by (symmetry; exact Ha2).
  cbn [ready set_ready negb andb].
  pose proof (after_add_calls (set_ready false rev2) NGX_READ_EVENT
                NGX_LEVEL_EVENT st2) as Hc3.
  destruct (let '(rc, ev', st') :=
              ngx_add_event acts (set_ready false rev2) NGX_READ_EVENT
                NGX_LEVEL_EVENT st2 in
            if rc =? NGX_ERROR then (NGX_ERROR, ev', st')
            else (NGX_OK, ev', st')) as [[rc3 rev3] st3].
  cbn [fst snd] in Hc3 |- *.
  eexists. split.
  - rewrite Hc3, Hc2, Hc1, <- !app_assoc. reflexivity.
  - repeat split.
Qed.

(** C7. With the CLEAR capability and an event method that sets [active]
    when it adds: starting from an event that is neither active nor ready,
    a first call of [ngx_handle_read_event] followed by any number of
    further calls (nine, for ten calls in all), with [ready] set to
    anything before each of them, makes exactly one call to the event
    method, [add(READ, CLEAR)], and no [del]. *)
Theorem clear_read_registers_once (rev : ngx_event_t) (f1 : Z)
    (more : list (bool * Z)) (st : reactor R) :
  (forall ev e f r, active (add acts ev e f r).1.2 = true) ->
  Z.land ngx_event_flags NGX_USE_CLEAR_EVENT <> 0 ->
  active rev = false ->
  exists new,
    calls (read_event_run acts ngx_event_flags ((false, f1) :: more)
             rev st).2
    = calls st ++ new
    /\ map call_sig new = [(OpAdd, NGX_READ_EVENT, NGX_CLEAR_EVENT)]
    /\ count_op OpAdd new = 1%nat
    /\ count_op OpDel new = 0%nat.
Proof.
  intros Hadd Hclear Hactive.
  pose proof Hclear as Hc. apply c_true_true in Hc.
  cbn [read_event_run]. unfold ngx_handle_read_event at 1.
  rewrite Hc.
  replace (active (set_ready false rev)) with false
    by (symmetry; exact Hactive).
  cbn [ready set_ready negb andb].
  pose proof (after_add_calls (set_ready false rev) NGX_READ_EVENT
                NGX_CLEAR_EVENT st) as Hc1.
  pose proof (after_add_ev (set_ready false rev) NGX_READ_EVENT
                NGX_CLEAR_EVENT st) as He1.
  destruct (let '(rc, ev', st') :=
              ngx_add_event acts (set_ready false rev) NGX_READ_EVENT
                NGX_CLEAR_EVENT st in
            if rc =? NGX_ERROR then (NGX_ERROR, ev', st')
            else (NGX_OK, ev', st')) as [[rc1 rev1] st1].
  cbn [fst snd] in Hc1, He1.
  rewrite read_event_run_clear_active
    by (try exact Hclear; rewrite He1; apply Hadd).
  eexists. split; [ exact Hc1 | repeat split ].
Qed.

End HelperFacts.

(** C1, witness: on the select build, with LEVEL alone, the write helper
    called with [NGX_CLOSE_EVENT] on a held event that is not ready makes
    no call. *)
Lemma write_event_level_active_witness :
  appended idle_reactor
    (ngx_handle_write_event (build := select_build) holding_method
       NGX_USE_LEVEL_EVENT held_event 1 idle_reactor)
    [].
Proof.
  apply (write_event_level_active (build := select_build) holding_method
           NGX_USE_LEVEL_EVENT held_event 1 idle_reactor);
    [ reflexivity | discriminate | reflexivity ].
Defined.

(** C1, counterexample. On the select build, with LEVEL alone, a held
    event that is not ready and [flags = NGX_CLOSE_EVENT]:
    [ngx_handle_read_event] calls [del(READ, NGX_CLOSE_EVENT)], while
    [ngx_handle_write_event] makes no call at all; so it is not the case
    that the write helper calls [del(WRITE, flags)] whenever the event is
    active and ready or closing. *)
Lemma write_event_close_counterexample :
  map call_sig
    (calls (ngx_handle_read_event (build := select_build) holding_method
              NGX_USE_LEVEL_EVENT held_event 1 idle_reactor).2)
  = [(OpDel, 0, 1)]
  /\ calls (ngx_handle_write_event (build := select_build) holding_method
              NGX_USE_LEVEL_EVENT held_event 1 idle_reactor).2
     = []
  /\ ~ (forall (build : ngx_event_build) (R : Type)
          (acts : ngx_event_actions_t R) (ngx_event_flags : Z)
          (wev : ngx_event_t) (flags : Z) (st : reactor R),
          Z.land ngx_event_flags NGX_USE_CLEAR_EVENT = 0 ->
          Z.land ngx_event_flags NGX_USE_LEVEL_EVENT <> 0 ->
          active wev = true ->
          ready wev = true \/ Z.land flags NGX_CLOSE_EVENT <> 0 ->
          appended st
            (ngx_handle_write_event acts ngx_event_flags wev flags st)
            [Build_reactor_call OpDel wev NGX_WRITE_EVENT flags]).
Proof.
  split; [ reflexivity | ]. split; [ reflexivity | ].
  intros H.
  assert (appended idle_reactor
            (ngx_handle_write_event (build := select_build) holding_method
               NGX_USE_LEVEL_EVENT held_event 1 idle_reactor)
            [Build_reactor_call OpDel held_event 1 1]) as Hdel.
  { apply (H select_build (list Z) holding_method NGX_USE_LEVEL_EVENT
             held_event 1 idle_reactor);
      [ reflexivity | discriminate | reflexivity | right; discriminate ]. }
  discriminate Hdel.
Qed.

(** C6, witness: the scenario on the select build with LEVEL alone and
    the method that holds what it is given. *)
Lemma level_read_churn_witness :
  exists new,
    calls (read_event_run (build := select_build) holding_method
             NGX_USE_LEVEL_EVENT [(false, 0); (true, 0); (false, 0)]
             zero_event idle_reactor).2
    = calls idle_reactor ++ new
    /\ map call_sig new = [(OpAdd, 0, 0); (OpDel, 0, 0); (OpAdd, 0, 0)]
    /\ count_op OpAdd new = 2%nat
    /\ count_op OpDel new = 1%nat.
Proof.
  apply (level_read_churn (build := select_build) holding_method
           NGX_USE_LEVEL_EVENT zero_event 0 0 0 idle_reactor);
    [ reflexivity | reflexivity | reflexivity | discriminate | reflexivity ].
Defined.

(** C7, witness: ten calls on the kqueue build, with [ready] clear
    throughout. *)
Lemma clear_read_registers_once_witness :
  exists new,
    calls (read_event_run (build := kqueue_build) holding_method
             (Z.lor NGX_USE_CLEAR_EVENT NGX_HAVE_KQUEUE_EVENT)
             ((false, 0) :: replicate 9 (false, 0))
             zero_event idle_reactor).2
    = calls idle_reactor ++ new
    /\ map call_sig new = [(OpAdd, -1, 32)]
    /\ count_op OpAdd new = 1%nat
    /\ count_op OpDel new = 0%nat.
Proof.
  apply (clear_read_registers_once (build := kqueue_build) holding_method
           (Z.lor NGX_USE_CLEAR_EVENT NGX_HAVE_KQUEUE_EVENT) zero_event 0
           (replicate 9 (false, 0)) idle_reactor);
    [ reflexivity | discriminate | reflexivity ].
Defined.

(** ** The configuration of the thread pool *)

(** *** Strings *)

Lemma byte_val_inj c1 c2 : byte_val c1 = byte_val c2 -> c1 = c2.
Proof.
  unfold byte_val. intros H. apply N2Z.inj in H.
  rewrite <- (ascii_N_embedding c1), <- (ascii_N_embedding c2).
  by rewrite H.
Qed.

(** Against a string without a zero byte, [ngx_strncmp] over that string's
    length is the prefix test. *)
Lemma ngx_strncmp_prefix p s :
  no_nul p = true ->
  (ngx_strncmp s p (String.length p) =? 0) = String.prefix p s.
Proof.
  revert s. induction p as [ | c p IH ]; intros s Hp.
  - by destruct s.
  - cbn [no_nul] in Hp. apply andb_true_iff in Hp as [Hc Hp].
    apply negb_true_iff, Z.eqb_neq in Hc.
    destruct s as [ | d s ]; cbn [String.length ngx_strncmp String.prefix].
    + apply Z.eqb_neq. lia.
    + destruct (Z.eqb_spec (byte_val d) (byte_val c)) as [Heq | Hne].
      * apply byte_val_inj in Heq. subst d.
        destruct (Z.eqb_spec (byte_val c) 0); [ done | ].
        destruct (ascii_dec c c); [ by apply IH | done ].
      * destruct (ascii_dec c d) as [-> | _]; [ done | ].
        apply Z.eqb_neq. lia.
Qed.

Lemma prefix_same_length p s :
  String.length s = String.length p -> String.prefix p s = true -> s = p.
Proof.
  revert s. induction p as [ | c p IH ]; intros [ | d s ] Hlen Hpre;
    try done.
  cbn in Hlen, Hpre. destruct (ascii_dec c d) as [-> | ]; [ | done ].
  f_equal. apply IH; [ lia | done ].
Qed.

Lemma prefix_refl s : String.prefix s s = true.
Proof.
  induction s as [ | c s IH ]; [ done | ].
  cbn. by destruct (ascii_dec c c).
Qed.

(** The name test of [ngx_thread_pool_init_conf] is equality with
    ["default"]. *)
Lemma default_name_test (n : string) :
  ((String.length n =? String.length ngx_thread_pool_default)%nat
   && (ngx_strncmp n ngx_thread_pool_default
         (String.length ngx_thread_pool_default) =? 0)) = true
  <-> n = "default"%string.
Proof.
  rewrite ngx_strncmp_prefix by reflexivity.
  rewrite andb_true_iff, Nat.eqb_eq. split.
  - intros [Hlen Hpre]. by apply prefix_same_length.
  - intros ->. split; [ done | apply prefix_refl ].
Qed.

Lemma ngx_strncmp_refl s : ngx_strncmp s s (String.length s) = 0.
Proof.
  induction s as [ | c s IH ]; [ done | ].
  cbn [String.length ngx_strncmp]. rewrite Z.eqb_refl.
  by destruct (byte_val c =? 0).
Qed.

Section ConfFacts.
Context {semaphore : ngx_semaphore}.

(** *** [ngx_thread_pool_init_conf] *)

Lemma init_conf_cons_declared tp tpp :
  tp_threads tp <> 0 ->
  ngx_thread_pool_init_conf (tp :: tpp)
  = (let '(rc, lg, rest) := ngx_thread_pool_init_conf tpp in
     (rc, lg, tp :: rest)).
Proof.
  intros H. apply c_true_true in H. cbn [ngx_thread_pool_init_conf].
  by rewrite H.
Qed.

Lemma init_conf_cons_default tp tpp :
  tp_threads tp = 0 -> tp_name tp = "default"%string ->
  ngx_thread_pool_init_conf (tp :: tpp)
  = (let '(rc, lg, rest) := ngx_thread_pool_init_conf tpp in
     (rc, lg, tp_set_max_queue 65536 (tp_set_threads 32 tp) :: rest)).
Proof.
  intros H Hn. apply c_true_false in H. cbn [ngx_thread_pool_init_conf].
  rewrite H. apply default_name_test in Hn. by rewrite Hn.
Qed.

Lemma init_conf_cons_undeclared tp tpp :
  undeclared tp ->
  ngx_thread_pool_init_conf (tp :: tpp)
  = (NGX_CONF_ERROR,
     [EmergUnknownPool (tp_name tp) (tp_file tp) (tp_line tp)],
     tp :: tpp).
Proof.
  intros [H Hn]. apply c_true_false in H. cbn [ngx_thread_pool_init_conf].
  rewrite H.
  destruct ((String.length (tp_name tp)
             =? String.length ngx_thread_pool_default)%nat
            && (ngx_strncmp (tp_name tp) ngx_thread_pool_default
                  (String.length ngx_thread_pool_default) =? 0)) eqn:E;
    [ | done ].
  apply default_name_test in E. done.
Qed.

Lemma not_undeclared_cases tp :
  ~ undeclared tp ->
  tp_threads tp <> 0
  \/ (tp_threads tp = 0 /\ tp_name tp = "default"%string).
Proof.
  unfold undeclared. intros H.
  destruct (decide (tp_threads tp = 0)) as [H0 | H0]; [ | by left ].
  destruct (decide (tp_name tp = "default"%string)) as [Hn | Hn];
    [ by right | ].
  destruct H. done.
Qed.

Lemma init_conf_all_known tpp :
  Forall (fun tp => ~ undeclared tp) tpp ->
  ngx_thread_pool_init_conf tpp = (NGX_CONF_OK, [], map auto_provided tpp).
Proof.
  induction 1 as [ | tp tpp Htp _ IH ]; [ done | ].
  destruct (not_undeclared_cases tp Htp) as [H0 | [H0 Hn]].
  - rewrite init_conf_cons_declared, IH by done. cbn [map].
    do 2 f_equal. unfold auto_provided.
    case_decide as Hd; [ by destruct Hd | done ].
  - rewrite init_conf_cons_default, IH by done. cbn [map].
    do 2 f_equal. unfold auto_provided.
    case_decide as Hd; [ done | by destruct Hd ].
Qed.

Lemma init_conf_some_undeclared tpp :
  Exists undeclared tpp ->
  exists tp, tp ∈ tpp /\ undeclared tp
    /\ (ngx_thread_pool_init_conf tpp).1
       = (NGX_CONF_ERROR,
          [EmergUnknownPool (tp_name tp) (tp_file tp) (tp_line tp)]).
Proof.
  induction tpp as [ | tp tpp IH ]; intros Hex.
  - by apply Exists_nil in Hex.
  - destruct (decide (undeclared tp)) as [Hu | Hu].
    + exists tp. rewrite init_conf_cons_undeclared by done.
      split; [ apply list_elem_of_here | done ].
    + apply Exists_cons in Hex as [ ? | Hex ]; [ done | ].
      destruct (IH Hex) as (tp' & Hin & Hu' & Hres).
      exists tp'. split; [ by apply list_elem_of_further | ].
      split; [ done | ].
      destruct (not_undeclared_cases tp Hu) as [H0 | [H0 Hn]].
      * rewrite init_conf_cons_declared by done.
        destruct (ngx_thread_pool_init_conf tpp) as [[rc lg] rest].
        exact Hres.
      * rewrite init_conf_cons_default by done.
        destruct (ngx_thread_pool_init_conf tpp) as [[rc lg] rest].
        exact Hres.
Qed.

(** The loop stops at the first pool that is undeclared: the pools
    before it have been visited, that pool and the pools after it are
    left as they were. *)
Lemma init_conf_first_undeclared pre tp post :
  Forall (fun tp => ~ undeclared tp) pre ->
  undeclared tp ->
  ngx_thread_pool_init_conf (pre ++ tp :: post)
  = (NGX_CONF_ERROR,
     [EmergUnknownPool (tp_name tp) (tp_file tp) (tp_line tp)],
     map auto_provided pre ++ tp :: post).
Proof.
  intros Hpre Hu. induction Hpre as [ | tp0 pre Htp0 _ IH ].
  - cbn [app map]. by apply init_conf_cons_undeclared.
  - cbn [app map].
    destruct (not_undeclared_cases tp0 Htp0) as [H0 | [H0 Hn]].
    + rewrite init_conf_cons_declared, IH by done.
      do 2 f_equal. unfold auto_provided.
      case_decide as Hd; [ by destruct Hd | done ].
    + rewrite init_conf_cons_default, IH by done.
      do 2 f_equal. unfold auto_provided.
      case_decide as Hd; [ done | by destruct Hd ].
Qed.

(** C9, as amended. At configuration finalization the pools are visited
    in order, up to the first pool that still has [threads] zero and is
    not named [default]. If there is such a pool, the finalization fails
    there, and the one record it logs names that pool as unknown: the
    pools before it have been visited (those named [default] with
    [threads] zero have [threads = 32] and [max_queue = 65536]), and
    that pool and the pools after it, those named [default] included,
    are left as they were. If there is none, the finalization succeeds,
    every pool named [default] that still has [threads] zero leaves with
    [threads = 32] and [max_queue = 65536], and every other pool is left
    as it was. *)
Theorem init_conf_default_or_unknown (tpp : list ngx_thread_pool_t) :
  (Exists undeclared tpp ->
   exists tp, tp ∈ tpp /\ undeclared tp
     /\ (ngx_thread_pool_init_conf tpp).1
        = (NGX_CONF_ERROR,
           [EmergUnknownPool (tp_name tp) (tp_file tp) (tp_line tp)]))
  /\ (Forall (fun tp => ~ undeclared tp) tpp ->
      (ngx_thread_pool_init_conf tpp).1 = (NGX_CONF_OK, [])
      /\ forall i tp,
           tpp !! i = Some tp ->
           exists tp',
             (ngx_thread_pool_init_conf tpp).2 !! i = Some tp'
             /\ (tp_threads tp = 0 -> tp_name tp = "default"%string ->
                 tp_threads tp' = 32 /\ tp_max_queue tp' = 65536
                 /\ tp_name tp' = tp_name tp)
             /\ (tp_threads tp <> 0 -> tp' = tp))
  /\ (forall pre tp post,
        tpp = pre ++ tp :: post ->
        Forall (fun tp => ~ undeclared tp) pre ->
        undeclared tp ->
        (ngx_thread_pool_init_conf tpp).1
        = (NGX_CONF_ERROR,
           [EmergUnknownPool (tp_name tp) (tp_file tp) (tp_line tp)])
        /\ (forall i tp0,
              pre !! i = Some tp0 ->
              exists tp',
                (ngx_thread_pool_init_conf tpp).2 !! i = Some tp'
                /\ (tp_threads tp0 = 0 ->
                    tp_name tp0 = "default"%string ->
                    tp_threads tp' = 32 /\ tp_max_queue tp' = 65536
                    /\ tp_name tp' = tp_name tp0)
                /\ (tp_threads tp0 <> 0 -> tp' = tp0))
        /\ (forall i tp1,
              (tp :: post) !! i = Some tp1 ->
              (ngx_thread_pool_init_conf tpp).2 !! (length pre + i)%nat
              = Some tp1)).
Proof.
  split; [ apply init_conf_some_undeclared | ].
  assert (forall tp0 : ngx_thread_pool_t,
            (tp_threads tp0 = 0 -> tp_name tp0 = "default"%string ->
             tp_threads (auto_provided tp0) = 32
             /\ tp_max_queue (auto_provided tp0) = 65536
             /\ tp_name (auto_provided tp0) = tp_name tp0)
            /\ (tp_threads tp0 <> 0 -> auto_provided tp0 = tp0))
    as Hauto.
  { intros tp0. unfold auto_provided. split.
    - intros H0 Hn. case_decide as Hd; [ done | by destruct Hd ].
    - intros H0. case_decide as Hd; [ by destruct Hd | done ]. }
  split.
  - intros Hall. rewrite init_conf_all_known by done. split; [ done | ].
    intros i tp Hi. exists (auto_provided tp). cbn [snd].
    split; [ by rewrite list_lookup_fmap, Hi | ].
    apply Hauto.
  - intros pre tp post -> Hpre Hu.
    rewrite init_conf_first_undeclared by done. cbn [fst snd].
    split; [ done | ]. split.
    + intros i tp0 Hi. exists (auto_provided tp0).
      split; [ | apply Hauto ].
      rewrite lookup_app_l.
      * by rewrite list_lookup_fmap, Hi.
      * rewrite length_map. by eapply lookup_lt_Some.
    + intros i tp1 Hi.
      rewrite lookup_app_r by (rewrite length_map; lia).
      rewrite length_map.
      replace (length pre + i - length pre)%nat with i by lia. done.
Qed.

(** *** [ngx_thread_pool_get] and [ngx_thread_pool_add] *)

(** The test of [ngx_thread_pool_get] on one pool. *)
Lemma get_from_names tpp tpp' k name :
  tp_name <$> tpp = tp_name <$> tpp' ->
  ngx_thread_pool_get_from tpp k name
  = ngx_thread_pool_get_from tpp' k name.
Proof.
  revert tpp' k. induction tpp as [ | tp tpp IH ]; intros [ | tp' tpp'] k H;
    try done.
  rewrite !fmap_cons in H. injection H as Hn Hrest.
  cbn [ngx_thread_pool_get_from].
  rewrite Hn. by rewrite (IH tpp' (S k) Hrest).
Qed.

Lemma get_from_app tpp tpp' k name :
  ngx_thread_pool_get_from tpp k name = None ->
  ngx_thread_pool_get_from (tpp ++ tpp') k name
  = ngx_thread_pool_get_from tpp' (k + length tpp)%nat name.
Proof.
  revert k. induction tpp as [ | tp tpp IH ]; intros k H.
  - cbn. by rewrite Nat.add_0_r.
  - cbn [ngx_thread_pool_get_from app length] in *.
    destruct (_ && _); [ done | ].
    rewrite IH by done. f_equal. lia.
Qed.

Lemma get_from_found tpp k name i :
  ngx_thread_pool_get_from tpp k name = Some i ->
  (k <= i)%nat /\ is_Some (tpp !! (i - k)%nat).
Proof.
  revert k. induction tpp as [ | tp tpp IH ]; intros k H; [ done | ].
  cbn [ngx_thread_pool_get_from] in H. destruct (_ && _).
  - injection H as <-. rewrite Nat.sub_diag. split; [ lia | by eexists ].
  - apply IH in H as [Hle Hsome]. split; [ lia | ].
    replace (i - k)%nat with (S (i - S k)) by lia. done.
Qed.

Lemma add_named cf tcf name i tcf1 :
  ngx_thread_pool_add cf tcf (Some name) = (Some i, tcf1) ->
  ngx_thread_pool_get tcf1 name = Some i /\ is_Some (tcf1 !! i).
Proof.
  unfold ngx_thread_pool_add.
  destruct (ngx_thread_pool_get tcf name) as [j | ] eqn:Hget.
  - intros [= <- <-]. split; [ done | ].
    apply get_from_found in Hget as [_ H]. by rewrite Nat.sub_0_r in H.
  - destruct (pcalloc_ok cf); [ | done ].
    destruct (array_push_ok cf); [ | done ].
    cbn [negb]. intros [= <- <-]. split.
    + unfold ngx_thread_pool_get in *. rewrite get_from_app by done.
      cbn [ngx_thread_pool_get_from tp_name].
      by rewrite Nat.eqb_refl, ngx_strncmp_refl.
    + apply lookup_lt_is_Some. rewrite length_app. cbn. lia.
Qed.

(** *** The loop over the parameters *)

Section DirectiveFacts.
Variable ngx_atoi : string -> Z.

Lemma args_keep_name value tp :
  tp_name (ngx_thread_pool_args ngx_atoi value tp).2 = tp_name tp.
Proof.
  revert tp. induction value as [ | v value IH ]; intros tp; [ done | ].
  cbn [ngx_thread_pool_args].
  repeat (case_match; try done); rewrite IH; done.
Qed.

Lemma args_without_threads value tp :
  Forall (fun v => is_threads_param v = false) value ->
  tp_threads (ngx_thread_pool_args ngx_atoi value tp).2 = tp_threads tp.
Proof.
  intros H. revert tp. induction H as [ | v value Hv _ IH ]; intros tp;
    [ done | ].
  cbn [ngx_thread_pool_args].
  change 8%nat with (String.length "threads=").
  rewrite ngx_strncmp_prefix by reflexivity.
  unfold is_threads_param in Hv. rewrite Hv.
  repeat (case_match; try done); rewrite IH; done.
Qed.

Lemma args_without_max_queue value tp :
  Forall (fun v => is_max_queue_param v = false) value ->
  (ngx_thread_pool_args ngx_atoi value tp).1.1 = true ->
  tp_max_queue (ngx_thread_pool_args ngx_atoi value tp).2 = tp_max_queue tp.
Proof.
  intros H. revert tp. induction H as [ | v value Hv _ IH ]; intros tp;
    [ done | ].
  cbn [ngx_thread_pool_args].
  change 10%nat with (String.length "max_queue=").
  rewrite (ngx_strncmp_prefix "max_queue=") by reflexivity.
  unfold is_max_queue_param in Hv. rewrite Hv.
  repeat (case_match; try done); intros Hok; rewrite IH; done.
Qed.

(** Without a [max_queue=] parameter the loop leaves [max_queue] as it
    was, whether it runs to its end or stops at a bad [threads=]. *)
Lemma args_keep_max_queue value tp :
  Forall (fun v => is_max_queue_param v = false) value ->
  tp_max_queue (ngx_thread_pool_args ngx_atoi value tp).2 = tp_max_queue tp.
Proof.
  intros H. revert tp. induction H as [ | v value Hv _ IH ]; intros tp;
    [ done | ].
  cbn [ngx_thread_pool_args].
  change 10%nat with (String.length "max_queue=").
  rewrite (ngx_strncmp_prefix "max_queue=") by reflexivity.
  unfold is_max_queue_param in Hv. rewrite Hv.
  repeat (case_match; try done); rewrite IH; done.
Qed.

(** C8, as amended. For the directive [thread_pool NAME ...] without a
    parameter that begins with [max_queue=]: whenever NAME does not yet
    name a pool with a thread count and the pool can be allocated, the
    pool that NAME names afterwards has [max_queue = 65536], whether the
    directive is then accepted or rejected (the default is written
    before the parameters are read); a directive for a pool that has its
    thread count is rejected as a duplicate before that, and leaves the
    pools as they were. And without a parameter that begins with
    [threads=], the directive is rejected with a fatal configuration
    error, whatever NAME is, [default] included. *)
Theorem thread_pool_directive (cf : ngx_conf_t) (cmd word name : string)
    (params : list string) (tcf : list ngx_thread_pool_t) :
  args cf = word :: name :: params ->
  (Forall (fun v => is_max_queue_param v = false) params ->
   match ngx_thread_pool_get tcf name with
   | Some i => exists tp, tcf !! i = Some tp /\ tp_threads tp = 0
   | None => pcalloc_ok cf = true /\ array_push_ok cf = true
   end ->
   exists i tp,
     ngx_thread_pool_get (ngx_thread_pool ngx_atoi cf cmd tcf).2 name
     = Some i
     /\ (ngx_thread_pool ngx_atoi cf cmd tcf).2 !! i = Some tp
     /\ tp_max_queue tp = 65536)
  /\ (forall i tp,
        ngx_thread_pool_get tcf name = Some i ->
        tcf !! i = Some tp -> tp_threads tp <> 0 ->
        ngx_thread_pool ngx_atoi cf cmd tcf
        = (NGX_CONF_ERROR, [EmergDuplicate (tp_name tp)], tcf))
  /\ (Forall (fun v => is_threads_param v = false) params ->
      (ngx_thread_pool ngx_atoi cf cmd tcf).1.1 = NGX_CONF_ERROR).
Proof.
  intros Hargs. split; [ | split ].
  - intros Hno Hfresh.
    destruct (ngx_thread_pool_add cf tcf (Some name)) as [[i | ] tcf1]
      eqn:Hadd; cycle 1.
    { unfold ngx_thread_pool_add in Hadd.
      destruct (ngx_thread_pool_get tcf name) as [j | ]; [ done | ].
      destruct Hfresh as [Hp Ha]. by rewrite Hp, Ha in Hadd. }
    pose proof Hadd as Hfound. apply add_named in Hfound as [Hget [tp Hi]].
    assert (tp_threads tp = 0) as H0.
    { unfold ngx_thread_pool_add in Hadd.
      destruct (ngx_thread_pool_get tcf name) as [j | ].
      - injection Hadd as -> ->. destruct Hfresh as (tp' & Hj & H0).
        congruence.
      - destruct (pcalloc_ok cf); [ | done ].
        destruct (array_push_ok cf); [ | done ].
        cbn [negb] in Hadd. injection Hadd as <- <-.
        rewrite lookup_app_r, Nat.sub_diag in Hi by done.
        injection Hi as <-. done. }
    unfold ngx_thread_pool. rewrite Hargs. cbn [nth drop].
    rewrite drop_0, Hadd, Hi.
    apply c_true_false in H0 as Hdup. rewrite Hdup.
    pose proof (args_keep_name params (tp_set_max_queue 65536 tp)) as Hname.
    pose proof (args_keep_max_queue params (tp_set_max_queue 65536 tp) Hno)
      as Hmax.
    destruct (ngx_thread_pool_args ngx_atoi params
                (tp_set_max_queue 65536 tp)) as [[ok lg] tp'].
    cbn [fst snd tp_name tp_max_queue tp_set_max_queue] in Hname, Hmax.
    assert (ngx_thread_pool_get (<[i := tp']> tcf1) name = Some i
            /\ <[i := tp']> tcf1 !! i = Some tp') as [Hget' Hi'].
    { split.
      - unfold ngx_thread_pool_get in *. rewrite <- Hget.
        apply get_from_names. rewrite list_fmap_insert, Hname.
        apply list_insert_id. by rewrite list_lookup_fmap, Hi.
      - apply list_lookup_insert_eq. by apply lookup_lt_Some in Hi. }
    exists i, tp'.
    destruct ok; [ destruct (tp_threads tp' =? 0) | ]; cbn [snd]; done.
  - intros i tp Hget Hi H0.
    unfold ngx_thread_pool. rewrite Hargs. cbn [nth drop].
    unfold ngx_thread_pool_add. rewrite Hget, Hi.
    apply c_true_true in H0. by rewrite H0.
  - intros Hno.
    unfold ngx_thread_pool. rewrite Hargs. cbn [nth drop]. rewrite drop_0.
    destruct (ngx_thread_pool_add cf tcf (Some name)) as [[i | ] tcf1]
      eqn:Hadd; [ | done ].
    apply add_named in Hadd as [Hget [tp Hi]]. rewrite Hi.
    destruct (c_true (tp_threads tp)) eqn:Hdup; [ done | ].
    apply c_true_false in Hdup.
    pose proof (args_without_threads params (tp_set_max_queue 65536 tp) Hno)
      as Hthreads.
    destruct (ngx_thread_pool_args ngx_atoi params
                (tp_set_max_queue 65536 tp)) as [[ok lg] tp'].
    cbn [fst snd tp_threads tp_set_max_queue] in Hthreads.
    destruct ok; [ | done ]. by rewrite Hthreads, Hdup.
Qed.

End DirectiveFacts.
End ConfFacts.

(** C8, witness: [thread_pool io threads=4;] on an empty configuration is
    accepted and leaves the pool [io] with [max_queue = 65536];
    [thread_pool io threads=0;] is rejected and leaves the pool [io] with
    [max_queue = 65536] as well; [thread_pool io threads=4;] after the
    pool [io] was declared with two threads is rejected as a duplicate;
    [thread_pool io max_queue=8;] is rejected. *)
Lemma thread_pool_directive_witness :
  (exists i tp,
     ngx_thread_pool_get
       (ngx_thread_pool (semaphore := counting_semaphore) decimal_atoi
          directive_io_threads "thread_pool" []).2 "io"
     = Some i
     /\ (ngx_thread_pool (semaphore := counting_semaphore) decimal_atoi
           directive_io_threads "thread_pool" []).2 !! i = Some tp
     /\ tp_max_queue tp = 65536)
  /\ ((ngx_thread_pool (semaphore := counting_semaphore) decimal_atoi
         directive_io_zero_threads "thread_pool" []).1.1 = NGX_CONF_ERROR
      /\ exists i tp,
           ngx_thread_pool_get
             (ngx_thread_pool (semaphore := counting_semaphore) decimal_atoi
                directive_io_zero_threads "thread_pool" []).2 "io"
           = Some i
           /\ (ngx_thread_pool (semaphore := counting_semaphore)
                 decimal_atoi directive_io_zero_threads "thread_pool" []).2
              !! i = Some tp
           /\ tp_max_queue tp = 65536)
  /\ ngx_thread_pool decimal_atoi directive_io_threads "thread_pool"
       [conf_pool "io" 2 8]
     = (NGX_CONF_ERROR, [EmergDuplicate "io"], [conf_pool "io" 2 8])
  /\ (ngx_thread_pool (semaphore := counting_semaphore) decimal_atoi
        directive_io_max_queue "thread_pool" []).1.1 = NGX_CONF_ERROR.
Proof.
  split; [ | split; [ split; [ reflexivity | ] | split ] ].
  - apply (proj1 (thread_pool_directive (semaphore := counting_semaphore)
                    decimal_atoi directive_io_threads "thread_pool"
                    "thread_pool" "io" ["threads=4"%string] [] eq_refl)).
    + repeat constructor.
    + split; reflexivity.
  - apply (proj1 (thread_pool_directive (semaphore := counting_semaphore)
                    decimal_atoi directive_io_zero_threads "thread_pool"
                    "thread_pool" "io" ["threads=0"%string] [] eq_refl)).
    + repeat constructor.
    + split; reflexivity.
  - apply (proj1 (proj2 (thread_pool_directive decimal_atoi
                           directive_io_threads "thread_pool"
                           "thread_pool" "io" ["threads=4"%string]
                           [conf_pool "io" 2 8] eq_refl))
             0%nat (conf_pool "io" 2 8) eq_refl eq_refl).
    discriminate.
  - apply (proj2 (proj2 (thread_pool_directive
                           (semaphore := counting_semaphore)
                           decimal_atoi directive_io_max_queue "thread_pool"
                           "thread_pool" "io" ["max_queue=8"%string] []
                           eq_refl))).
    repeat constructor.
Defined.

(** C8, counterexample. [thread_pool default max_queue=1024;] on an empty
    configuration: the handler returns [NGX_CONF_ERROR] after logging that
    the directive must have a [threads] parameter; [default] is no
    exception. And [thread_pool io threads=4;], which has no [max_queue]
    parameter, after the pool [io] was declared with two threads and
    [max_queue = 8]: the handler returns [NGX_CONF_ERROR] after logging a
    duplicate, and the pool [io] keeps [max_queue = 8], not 65536. *)
Lemma thread_pool_default_counterexample :
  ((ngx_thread_pool (semaphore := counting_semaphore) decimal_atoi
      directive_default_max_queue "thread_pool" []).1
   = (NGX_CONF_ERROR, [EmergMustHaveThreads "thread_pool"])
   /\ (ngx_thread_pool (semaphore := counting_semaphore) decimal_atoi
         directive_default_max_queue "thread_pool" []).1.1
      <> NGX_CONF_OK)
  /\ (Forall (fun v => is_max_queue_param v = false)
        (drop 2 (args directive_io_threads))
      /\ ngx_thread_pool decimal_atoi directive_io_threads "thread_pool"
           [conf_pool "io" 2 8]
         = (NGX_CONF_ERROR, [EmergDuplicate "io"], [conf_pool "io" 2 8])
      /\ ~ exists i tp,
             ngx_thread_pool_get
               (ngx_thread_pool decimal_atoi directive_io_threads
                  "thread_pool" [conf_pool "io" 2 8]).2 "io"
             = Some i
             /\ (ngx_thread_pool decimal_atoi directive_io_threads
                   "thread_pool" [conf_pool "io" 2 8]).2 !! i = Some tp
             /\ tp_max_queue tp = 65536).
Proof.
  split; [ split; [ reflexivity | discriminate ] | ].
  split; [ repeat constructor | ]. split; [ reflexivity | ].
  intros (i & tp & Hget & Hi & Hmax).
  vm_compute in Hget. injection Hget as <-.
  vm_compute in Hi. injection Hi as <-. discriminate Hmax.
Qed.

(** C9, witness: with the pools [io] (declared, 4 threads) and [default]
    (referenced only), finalization succeeds and gives [default] its 32
    threads and its queue of 65536; with the pool [io] referenced only, it
    fails and names it; with [default], [io] and [default] again, all
    referenced only, it fails at [io], after the first [default] got its
    32 threads and before the second one is looked at. *)
Lemma init_conf_default_or_unknown_witness :
  ((ngx_thread_pool_init_conf
      [conf_pool "io" 4 65536; conf_pool "default" 0 0]).1
   = (NGX_CONF_OK, [])
   /\ exists tp',
        (ngx_thread_pool_init_conf
           [conf_pool "io" 4 65536; conf_pool "default" 0 0]).2 !! 1%nat
        = Some tp'
        /\ tp_threads tp' = 32 /\ tp_max_queue tp' = 65536)
  /\ (exists tp, tp ∈ [conf_pool "io" 0 0] /\ undeclared tp
        /\ (ngx_thread_pool_init_conf [conf_pool "io" 0 0]).1
           = (NGX_CONF_ERROR,
              [EmergUnknownPool (tp_name tp) (tp_file tp) (tp_line tp)]))
  /\ (ngx_thread_pool_init_conf
        [conf_pool "default" 0 0; conf_pool "io" 0 0;
         conf_pool "default" 0 0]).1
     = (NGX_CONF_ERROR, [EmergUnknownPool "io" "nginx.conf" 1])
  /\ (exists tp',
        (ngx_thread_pool_init_conf
           [conf_pool "default" 0 0; conf_pool "io" 0 0;
            conf_pool "default" 0 0]).2 !! 0%nat = Some tp'
        /\ tp_threads tp' = 32 /\ tp_max_queue tp' = 65536)
  /\ (ngx_thread_pool_init_conf
        [conf_pool "default" 0 0; conf_pool "io" 0 0;
         conf_pool "default" 0 0]).2 !! 2%nat
     = Some (conf_pool "default" 0 0).
Proof.
  split; [ | split ].
  - assert (Forall (fun tp => ~ undeclared tp)
              [conf_pool "io" 4 65536; conf_pool "default" 0 0]) as Hall.
    { repeat constructor; intros [H1 H2]; [ discriminate H1 | by apply H2 ]. }
    destruct (proj1 (proj2 (init_conf_default_or_unknown
                              [conf_pool "io" 4 65536;
                               conf_pool "default" 0 0]))
                Hall) as [Hrc Hpools].
    split; [ exact Hrc | ].
    destruct (Hpools 1%nat (conf_pool "default" 0 0) eq_refl)
      as (tp' & Hlook & Hdef & _).
    exists tp'. split; [ exact Hlook | ].
    destruct (Hdef eq_refl eq_refl) as (? & ? & _). done.
  - apply (proj1 (init_conf_default_or_unknown [conf_pool "io" 0 0])).
    constructor. split; [ reflexivity | discriminate ].
  - assert (Forall (fun tp => ~ undeclared tp) [conf_pool "default" 0 0])
      as Hpre.
    { repeat constructor. intros [_ H2]. by apply H2. }
    assert (undeclared (conf_pool "io" 0 0)) as Hio.
    { split; [ reflexivity | discriminate ]. }
    destruct (proj2 (proj2 (init_conf_default_or_unknown
                              [conf_pool "default" 0 0; conf_pool "io" 0 0;
                               conf_pool "default" 0 0]))
                [conf_pool "default" 0 0] (conf_pool "io" 0 0)
                [conf_pool "default" 0 0] eq_refl Hpre Hio)
      as (Hrc & Hbefore & Hafter).
    split; [ exact Hrc | ]. split.
    + destruct (Hbefore 0%nat (conf_pool "default" 0 0) eq_refl)
        as (tp' & Hlook & Hdef & _).
      exists tp'. split; [ exact Hlook | ].
      destruct (Hdef eq_refl eq_refl) as (? & ? & _). done.
    + exact (Hafter 1%nat (conf_pool "default" 0 0) eq_refl).
Defined.

(** C9, counterexample. With the pools [io] and [default], in this order
    and both referenced only, finalization returns at [io]: the pool
    [default] has [threads = 0] and is named [default], and it is left
    with [threads = 0], not given 32 threads and a queue of 65536. *)
Lemma init_conf_default_after_unknown_counterexample :
  ngx_thread_pool_init_conf [conf_pool "io" 0 0; conf_pool "default" 0 0]
  = (NGX_CONF_ERROR, [EmergUnknownPool "io" "nginx.conf" 1],
     [conf_pool "io" 0 0; conf_pool "default" 0 0])
  /\ ~ exists tp',
         (ngx_thread_pool_init_conf
            [conf_pool "io" 0 0; conf_pool "default" 0 0]).2 !! 1%nat
         = Some tp'
         /\ tp_threads tp' = 32 /\ tp_max_queue tp' = 65536.
Proof.
  split; [ reflexivity | ].
  intros (tp' & Hlook & Hthreads & _).
  vm_compute in Hlook. injection Hlook as <-. discriminate Hthreads.
Qed.

(** ** Runs of the thread pool *)

Section RunRules.
Context {semaphore : ngx_semaphore}.
Variable interfere : nat -> mem -> mem.

Lemma runs_ret {A} (a : A) Q w : Q a w -> runs (ret a) Q w.
Proof. intros H. by exists a, w. Qed.

Lemma runs_bind {A B} (c : M A) (k : A -> M B) Q w :
  runs c (fun a w' => runs (k a) Q w') w -> runs (bind c k) Q w.
Proof.
  intros (a & w' & Hc & b & w'' & Hk & HQ).
  exists b, w''. unfold bind. by rewrite Hc.
Qed.

Lemma runs_weaken {A} (c : M A) (Q Q' : A -> world -> Prop) w :
  runs c Q w -> (forall a w', Q a w' -> Q' a w') -> runs c Q' w.
Proof. intros (a & w' & Hc & HQ) H. exists a, w'. auto. Qed.

Lemma runs_load_mem Q w : Q (w_mem w) w -> runs load_mem Q w.
Proof. intros H. by exists (w_mem w), w. Qed.

Lemma runs_store_mem m Q w : Q tt (with_mem m w) -> runs (store_mem m) Q w.
Proof. intros H. by exists tt, (with_mem m w). Qed.

Lemma runs_emit o Q w : Q tt (with_obs o w) -> runs (emit o) Q w.
Proof. intros H. by exists tt, (with_obs o w). Qed.

Lemma runs_load_pool Q w : Q (pool (w_mem w)) w -> runs load_pool Q w.
Proof. intros H. by exists (pool (w_mem w)), w. Qed.

Lemma runs_store_pool tp Q w :
  Q tt (with_mem (with_pool tp (w_mem w)) w) -> runs (store_pool tp) Q w.
Proof. intros H. by exists tt, (with_mem (with_pool tp (w_mem w)) w). Qed.

Lemma runs_load_task task t Q w :
  tasks (w_mem w) !! task = Some t -> Q t w -> runs (load_task task) Q w.
Proof.
  intros Ht H. exists t, w. split; [ | done ].
  cbv [load_task bind load_mem]. by rewrite Ht.
Qed.

Lemma runs_update_task task f t Q w :
  tasks (w_mem w) !! task = Some t ->
  Q tt (with_mem (with_tasks (<[task := f t]> (tasks (w_mem w))) (w_mem w)) w) ->
  runs (update_task task f) Q w.
Proof.
  intros Ht H. eexists tt, _. split; [ | exact H ].
  cbv [update_task load_task bind load_mem]. by rewrite Ht.
Qed.

Lemma runs_load_first q Q w :
  Q (first (queue_of q (pool (w_mem w)))) w -> runs (load_first q) Q w.
Proof. intros H. by eexists _, w. Qed.

Lemma runs_store_first q v Q w :
  Q tt (with_obs (StoreCell (FirstOf q) v)
          (with_mem (with_pool (with_first q v (pool (w_mem w))) (w_mem w)) w)) ->
  runs (store_first q v) Q w.
Proof. intros H. eexists tt, _. split; [ | exact H ]. reflexivity. Qed.

Lemma runs_load_last_p q Q w :
  Q (last_p (queue_of q (pool (w_mem w)))) w -> runs (load_last_p q) Q w.
Proof. intros H. by eexists _, w. Qed.

Lemma runs_store_last_p q v Q w :
  Q tt (with_obs (StoreLastP q v)
          (with_mem (with_pool (with_last_p q v (pool (w_mem w))) (w_mem w)) w)) ->
  runs (store_last_p q v) Q w.
Proof. intros H. eexists tt, _. split; [ | exact H ]. reflexivity. Qed.

Lemma runs_store_through_first q v Q w :
  runs (store_first q v) Q w -> runs (store_through (Some (FirstOf q)) v) Q w.
Proof. done. Qed.

Lemma runs_store_through_next b t v Q w :
  tasks (w_mem w) !! b = Some t ->
  Q tt (with_obs (StoreCell (NextOf b) v)
          (with_mem (with_tasks (<[b := task_set_next v t]> (tasks (w_mem w)))
                       (w_mem w)) w)) ->
  runs (store_through (Some (NextOf b)) v) Q w.
Proof.
  intros Ht H. cbn [store_through]. apply runs_bind.
  eapply runs_update_task; [ exact Ht | ]. by apply runs_emit.
Qed.

Lemma runs_others_run Q w :
  Q tt {| w_mem := interfere (w_tick w) (w_mem w); w_tick := S (w_tick w);
          w_trace := w_trace w |} ->
  runs (others_run interfere) Q w.
Proof. intros H. eexists tt, _. split; [ | exact H ]. reflexivity. Qed.

End RunRules.

Ltac run_pool :=
  cbv [ngx_thread_pool_task_post_enqueue
       spec_enqueue ngx_atomic_cmp_set_last_p ngx_atomic_cmp_set_first
       store_through store_last_p load_last_p store_first load_first
       update_task load_task store_pool load_pool others_run emit
       store_mem load_mem stuck bind ret
       no_interference].

Section EnqueueFacts.
Context {semaphore : ngx_semaphore}.

(** The intake enqueue of [ngx_thread_pool_task_post] is the enqueue of
    the specification, whatever the other threads do. *)
Lemma post_enqueue_is_spec interfere (task : addr) (w : world) :
  ngx_thread_pool_task_post_enqueue interfere task w
  = spec_enqueue interfere QIn task w.
Proof.
  run_pool.
  destruct (decide (last_p (queue_of QIn (pool (w_mem w)))
                    = Some (FirstOf QIn))) as [Heq | Hne]; [ done | ].
  cbn [w_mem]. by case_decide.
Qed.

Lemma cycle_enqueue_alone (fuel : nat) (task : addr) (w : world) :
  final_mem (ngx_thread_pool_cycle_enqueue no_interference (S fuel) task w)
  = final_mem (spec_enqueue no_interference QOut task w).
Proof.
  destruct w as [[tp ts] tick tr].
  cbn [ngx_thread_pool_cycle_enqueue]. run_pool.
  cbn [w_mem w_tick w_trace pool tasks].
  destruct (decide (last_p (queue_of QOut tp) = last_p (queue_of QOut tp)))
    as [_ | Hne]; [ | done ].
  destruct (last_p (queue_of QOut tp)) as [[[ | ] | b] | ] eqn:Hlp;
    repeat case_decide; try done;
    cbn [w_mem w_tick w_trace pool tasks];
    try destruct (ts !! b); reflexivity.
Qed.

Lemma cycle_enqueue_returns (fuel : nat) (task : addr) (w : world) :
  link_valid (w_mem w) (last_p (tp_out (pool (w_mem w)))) ->
  is_Some (ngx_thread_pool_cycle_enqueue no_interference (S fuel) task w).
Proof.
  destruct w as [[tp ts] tick tr].
  cbn [ngx_thread_pool_cycle_enqueue]. run_pool.
  cbn [w_mem w_tick w_trace pool tasks queue_of].
  destruct (decide (last_p (tp_out tp) = last_p (tp_out tp)))
    as [_ | Hne]; [ | done ].
  destruct (last_p (tp_out tp)) as [[[ | ] | b] | ] eqn:Hlp;
    cbn [link_valid w_mem w_tick w_trace pool tasks]; try done.
  intros [t Ht]. by rewrite Ht.
Qed.

End EnqueueFacts.

Section PostFacts.
Context {semaphore : ngx_semaphore}.

(** What the intake enqueue, run alone, keeps: the semaphore, and every
    task's event. *)
Lemma post_enqueue_alone (task : addr) (w : world) :
  link_valid (w_mem w) (last_p (tp_in (pool (w_mem w)))) ->
  runs (ngx_thread_pool_task_post_enqueue no_interference task)
    (fun _ w' =>
       tp_sem (pool (w_mem w')) = tp_sem (pool (w_mem w))
       /\ forall a t, tasks (w_mem w) !! a = Some t ->
            exists t', tasks (w_mem w') !! a = Some t'
                       /\ task_event t' = task_event t)
    w.
Proof.
  destruct w as [[tp ts] tick tr]. unfold runs. run_pool.
  cbn [w_mem w_tick w_trace pool tasks queue_of].
  destruct (last_p (tp_in tp)) as [[[ | ] | b] | ] eqn:Hlp;
    cbn [link_valid w_mem w_tick w_trace pool tasks]; try done;
    repeat case_decide; try done.
  - intros _. eexists _, _. split; [ reflexivity | ].
    cbn. split; [ done | eauto ].
  - intros _. eexists _, _. split; [ reflexivity | ].
    cbn. split; [ done | eauto ].
  - cbn [negb w_mem w_tick w_trace pool tasks].
    intros [tb Hb]. rewrite Hb. eexists _, _. split; [ reflexivity | ].
    cbn. split; [ done | ]. intros a t Ha.
    destruct (decide (a = b)) as [-> | Hne].
    + rewrite lookup_insert_eq. eexists. split; [ done | ].
      rewrite Hb in Ha. by injection Ha as <-.
    + rewrite lookup_insert_ne by done. eauto.
Qed.

Lemma to_ngx_int_small z : 0 <= z < 2 ^ 63 -> to_ngx_int z = z.
Proof.
  intros H. unfold to_ngx_int.
  change (2 ^ NGX_PTR_BITS) with 18446744073709551616.
  change (2 ^ (NGX_PTR_BITS - 1)) with 9223372036854775808.
  change (2 ^ 63) with 9223372036854775808 in H.
  rewrite Z.mod_small by lia.
  destruct (Z.ltb_spec z 9223372036854775808); [ done | lia ].
Qed.

Lemma post_below_limit (task : addr) (t : ngx_thread_pool_task_t)
    (count : Z) (w : world) :
  tasks (w_mem w) !! task = Some t ->
  active (task_event t) = false ->
  ngx_sem_getvalue (tp_sem (pool (w_mem w))) = (NGX_OK, count) ->
  count < to_ngx_int (tp_max_queue (pool (w_mem w))) ->
  (ngx_sem_post (tp_sem (pool (w_mem w)))).1 = NGX_OK ->
  link_valid (w_mem w) (last_p (tp_in (pool (w_mem w)))) ->
  runs (ngx_thread_pool_task_post no_interference task)
    (fun rc w' =>
       rc = NGX_OK
       /\ tp_sem (pool (w_mem w'))
          = (ngx_sem_post (tp_sem (pool (w_mem w)))).2
       /\ exists t', tasks (w_mem w') !! task = Some t'
                     /\ active (task_event t') = true)
    w.
Proof.
  intros Ht Hactive Hsem Hroom Hpost Hlp.
  unfold ngx_thread_pool_task_post.
  apply runs_bind. eapply runs_load_task; [ exact Ht | ]. cbv beta.
  rewrite Hactive.
  apply runs_bind, runs_load_pool. cbv beta.
  rewrite Hsem. cbn [negb Z.eqb NGX_OK].
  destruct (Z.geb_spec count (to_ngx_int (tp_max_queue (pool (w_mem w)))));
    [ lia | ].
  apply runs_bind. eapply runs_update_task; [ exact Ht | ].
  apply runs_bind. eapply runs_update_task; [ apply lookup_insert_eq | ].
  apply runs_bind, runs_store_pool.
  apply runs_bind. eapply runs_update_task; [ apply lookup_insert_eq | ].
  apply runs_bind.
  eapply runs_weaken.
  { apply post_enqueue_alone. cbn.
    destruct (last_p (tp_in (pool (w_mem w)))) as [[q | b] | ];
      cbn in Hlp |- *; try done.
    destruct (decide (b = task)) as [-> | Hne].
    - rewrite !insert_insert_eq, lookup_insert_eq. by eexists.
    - rewrite !insert_insert_eq, lookup_insert_ne by done. done. }
  cbn [w_mem with_mem with_pool with_tasks pool tasks tp_sem tp_set_task_id].
  intros _ w1 [Hsem1 Hev1].
  apply runs_bind, runs_load_pool. cbv beta. rewrite Hsem1.
  destruct (ngx_sem_post (tp_sem (pool (w_mem w)))) as [rc sem'].
  cbn [fst snd] in Hpost |- *. subst rc.
  apply runs_bind, runs_store_pool. cbn [negb Z.eqb NGX_OK].
  apply runs_ret. split; [ done | ]. split; [ done | ].
  cbn [w_mem with_mem with_pool tasks].
  destruct (Hev1 task _ (lookup_insert_eq _ _ _)) as (t' & Ht' & Hev').
  exists t'. split; [ done | ]. by rewrite Hev'.
Qed.

End PostFacts.

Section PostAnyInterference.
Context {semaphore : ngx_semaphore}.
Variable interfere : nat -> mem -> mem.

(** C10. Posting a task whose event is already active fails at once: the
    call returns [NGX_ERROR] after logging the alert and nothing else,
    whatever the semaphore holds and whatever the other threads do, and
    the memory (the intake queue, the semaphore, the task-id counter and
    the task) is what it was. *)
Theorem post_active_task (task : addr) (t : ngx_thread_pool_task_t)
    (w : world) :
  tasks (w_mem w) !! task = Some t ->
  active (task_event t) = true ->
  ngx_thread_pool_task_post interfere task w
  = Some (NGX_ERROR,
          {| w_mem := w_mem w; w_tick := w_tick w;
             w_trace := w_trace w ++ [LogAlertActive (task_id t)] |}).
Proof.
  intros Ht Hactive.
  cbv [ngx_thread_pool_task_post bind load_task load_mem].
  rewrite Ht. cbv [ret]. rewrite Hactive. reflexivity.
Qed.

Lemma post_overflow (task : addr) (t : ngx_thread_pool_task_t)
    (count : Z) (w : world) :
  tasks (w_mem w) !! task = Some t ->
  active (task_event t) = false ->
  ngx_sem_getvalue (tp_sem (pool (w_mem w))) = (NGX_OK, count) ->
  to_ngx_int (tp_max_queue (pool (w_mem w))) <= count ->
  ngx_thread_pool_task_post interfere task w
  = Some (NGX_ERROR,
          with_obs (LogErrOverflow (tp_name (pool (w_mem w))) count) w).
Proof.
  intros Ht Hactive Hsem Hfull.
  cbv [ngx_thread_pool_task_post bind load_task load_mem load_pool ret emit].
  rewrite Ht, Hactive, Hsem. cbn [negb Z.eqb NGX_OK].
  destruct (Z.geb_spec count (to_ngx_int (tp_max_queue (pool (w_mem w)))));
    [ reflexivity | lia ].
Qed.

End PostAnyInterference.

Section SegFacts.
Context {semaphore : ngx_semaphore}.
Implicit Types ts : gmap addr ngx_thread_pool_task_t.

Lemma queue_seg_functional ts p l1 l2 :
  queue_seg ts p l1 -> queue_seg ts p l2 -> l1 = l2.
Proof.
  revert p l2. induction l1 as [ | a l1 IH ]; intros p [ | b l2 ];
    cbn [queue_seg].
  - done.
  - intros -> [? _]. done.
  - intros [-> _] ?. done.
  - intros [-> (t & Ht & H1)] [[= <-] (t' & Ht' & H2)].
    rewrite Ht in Ht'. injection Ht' as <-. f_equal. by eapply IH.
Qed.

Lemma queue_seg_suffix ts p l1 l2 :
  queue_seg ts p (l1 ++ l2) -> exists p', queue_seg ts p' l2.
Proof.
  revert p. induction l1 as [ | a l1 IH ]; intros p; cbn [app queue_seg].
  - eauto.
  - intros [_ (t & _ & H)]. eauto.
Qed.

(** A chain that ends in [NULL] does not come back to its first task. *)
Lemma queue_seg_head_fresh ts p a l :
  queue_seg ts p (a :: l) -> a ∉ l.
Proof.
  intros Hseg Hin. apply list_elem_of_split in Hin as (l1 & l2 & ->).
  pose proof Hseg as [-> (t & Ht & Hrest)].
  apply queue_seg_suffix in Hrest as [p' Hsuf].
  pose proof Hsuf as [-> _].
  pose proof (queue_seg_functional _ _ _ _ Hseg Hsuf) as Heq.
  apply (f_equal length) in Heq. cbn in Heq. rewrite length_app in Heq.
  cbn in Heq. lia.
Qed.



End SegFacts.

Section DrainAlone.
Context {semaphore : ngx_semaphore}.
Variable event_handler : Z -> addr -> mem -> mem.

Lemma runs_cmp_set_last_p_alone q old set Q w :
  last_p (queue_of q (pool (w_mem w))) = old ->
  Q true (with_obs (StoreLastP q set)
            (with_mem (with_pool (with_last_p q set (pool (w_mem w)))
                         (w_mem w)) (ticked w))) ->
  runs (ngx_atomic_cmp_set_last_p no_interference q old set) Q w.
Proof.
  intros Hold HQ. eexists true, _. split; [ | exact HQ ].
  cbv [ngx_atomic_cmp_set_last_p bind others_run no_interference load_last_p
       load_pool load_mem ret].
  cbn [w_mem]. rewrite Hold. by case_decide.
Qed.


Lemma handler_calls_app (l1 l2 : list obs) :
  handler_calls (l1 ++ l2) = handler_calls l1 ++ handler_calls l2.
Proof. apply omap_app. Qed.


End DrainAlone.

Section DrainSafe.
Context {semaphore : ngx_semaphore}.
Variable interfere : nat -> mem -> mem.
Variable event_handler : Z -> addr -> mem -> mem.

Lemma safe_ret {A} (a : A) (Q : A -> world -> Prop) w :
  Q a w -> safe (ret a) Q w.
Proof. intros H a' w' [= <- <-]. done. Qed.

Lemma safe_stuck {A} (Q : A -> world -> Prop) w : safe stuck Q w.
Proof. intros a w' [=]. Qed.

Lemma no_calls_refl w : no_calls w w.
Proof. exists []. by rewrite app_nil_r. Qed.






Ltac quiet_prim :=
  cbv [ngx_atomic_cmp_set_last_p store_through store_last_p load_last_p
       store_first load_first update_task load_task store_pool load_pool
       others_run emit store_mem load_mem stuck bind ret];
  intros; repeat case_match; simplify_eq;
  first [ apply no_calls_refl
        | by (exists []; cbn; rewrite app_nil_r)
        | eexists; split; [ cbn; reflexivity | reflexivity ]
        | eexists; split; [ cbn; by rewrite <- ?app_assoc | reflexivity ] ].




Lemma quiet_load_last_p q w a w' :
  load_last_p q w = Some (a, w') -> no_calls w w'.
Proof. quiet_prim. Qed.

Lemma quiet_cmp_set_last_p q old set w a w' :
  ngx_atomic_cmp_set_last_p interfere q old set w = Some (a, w') ->
  no_calls w w'.
Proof. quiet_prim. Qed.


(** The two stores to the event and the call, as one step. *)
Lemma completes_then_calls {B} task (k : unit -> M B) w b w' :
  bind (update_task task
          (fun t => task_set_event (set_complete true (task_event t)) t))
    (fun _ =>
     bind (update_task task
             (fun t => task_set_event (set_active false (task_event t)) t))
       (fun _ => bind (call_event_handler event_handler task) k)) w
  = Some (b, w') ->
  exists ev w1,
    w_trace w1 = w_trace w ++ [CallHandler task ev]
    /\ completed ev
    /\ k tt w1 = Some (b, w').
Proof.
  cbv [call_event_handler update_task load_task emit store_mem load_mem
       stuck bind ret].
  destruct (tasks (w_mem w) !! task) as [t | ]; [ | done ].
  cbn [w_mem tasks w_tick w_trace pool].
  rewrite lookup_insert_eq. cbn [w_mem tasks w_tick w_trace pool].
  rewrite lookup_insert_eq.
  intros Hk. eexists _, _. split; [ | split; [ | exact Hk ] ].
  - reflexivity.
  - by split.
Qed.


End DrainSafe.

Section AppendFacts.
Context {semaphore : ngx_semaphore}.
Implicit Types ts : gmap addr ngx_thread_pool_task_t.

Lemma queue_seg_allocated ts p l b :
  queue_seg ts p l -> b ∈ l -> is_Some (ts !! b).
Proof.
  revert p. induction l as [ | a l IH ]; intros p Hseg Hin.
  - by apply elem_of_nil in Hin.
  - destruct Hseg as [_ (t & Ht & Hrest)].
    apply elem_of_cons in Hin as [-> | Hin]; [ by eexists | by eapply IH ].
Qed.

Lemma last_elem_of {A} (l : list A) (x : A) : last l = Some x -> x ∈ l.
Proof. intros H. apply last_Some in H as [l' ->]. set_solver. Qed.

(** Linking an allocated task, whose own link is [NULL], after the last
    task of a chain extends the chain by it. *)
Lemma queue_seg_snoc ts p l b tb task t :
  queue_seg ts p l -> last l = Some b -> ts !! b = Some tb ->
  task ∉ l -> ts !! task = Some t -> task_next t = None ->
  queue_seg (<[b := task_set_next (Some task) tb]> ts) p (l ++ [task]).
Proof.
  intros Hseg Hlast Hb Hfresh Ht Hnext. revert p Hseg Hlast Hfresh.
  induction l as [ | a l IH ]; intros p Hseg Hlast Hfresh; [ done | ].
  apply not_elem_of_cons in Hfresh as [Hne Hfresh].
  pose proof (queue_seg_head_fresh _ _ _ _ Hseg) as Ha.
  destruct Hseg as [-> (ta & Hta & Hrest)].
  cbn [app queue_seg]. split; [ done | ].
  destruct l as [ | c l ].
  - cbn in Hlast. simplify_eq.
    eexists. rewrite lookup_insert_eq. split; [ done | ].
    cbn [task_next task_set_next app queue_seg]. split; [ done | ].
    exists t. rewrite lookup_insert_ne by done. by rewrite Hnext.
  - change (last (c :: l) = Some b) in Hlast.
    assert (b ∈ c :: l) as Hbin by (by apply last_elem_of).
    assert (a <> b) as Hab by (intros ->; done).
    exists ta. rewrite lookup_insert_ne by done. split; [ done | ].
    apply IH; done.
Qed.

Lemma queue_of_with_first q v tp :
  queue_of q (with_first q v tp)
  = {| first := v; last_p := last_p (queue_of q tp) |}.
Proof. by destruct q. Qed.

Lemma queue_of_with_last_p q v tp :
  queue_of q (with_last_p q v tp)
  = {| first := first (queue_of q tp); last_p := v |}.
Proof. by destruct q. Qed.

(** The described enqueue, run alone on a queue that holds [l], with a
    task that is allocated, has a [NULL] link and is not in the queue,
    leaves the queue holding [l ++ [task]]. *)
Lemma spec_enqueue_appends q task t l w :
  queue_holds q (w_mem w) l ->
  tasks (w_mem w) !! task = Some t -> task_next t = None -> task ∉ l ->
  runs (spec_enqueue no_interference q task)
    (fun _ w' => queue_holds q (w_mem w') (l ++ [task])) w.
Proof.
  intros [Hseg Hlast] Ht Hnext Hfresh. unfold spec_enqueue.
  apply runs_bind, runs_load_last_p. rewrite Hlast. unfold queue_tail.
  destruct (last l) as [b | ] eqn:Hl.
  - case_decide as Hd; [ done | clear Hd ].
    apply runs_bind.
    apply runs_cmp_set_last_p_alone; [ by rewrite Hlast; unfold queue_tail; rewrite Hl | ].
    assert (b ∈ l) as Hbin by (by apply last_elem_of).
    destruct (queue_seg_allocated _ _ _ _ Hseg Hbin) as [tb Hb].
    eapply runs_store_through_next; [ exact Hb | ].
    split.
    + cbn [w_mem with_obs with_mem with_tasks with_pool pool tasks ticked].
      rewrite queue_of_with_last_p. cbn [first].
      by eapply queue_seg_snoc.
    + cbn [w_mem with_obs with_mem with_tasks with_pool pool tasks ticked].
      rewrite queue_of_with_last_p. cbn [last_p].
      unfold queue_tail. by rewrite last_snoc.
  - apply last_None in Hl. subst l.
    case_decide as Hd; [ clear Hd | done ].
    apply runs_bind, runs_store_first. apply runs_store_last_p.
    split.
    + cbn [w_mem with_obs with_mem with_tasks with_pool pool tasks app].
      rewrite queue_of_with_last_p, queue_of_with_first. cbn [first].
      cbn [queue_seg]. split; [ done | ]. exists t. by rewrite Hnext.
    + cbn [w_mem with_obs with_mem with_tasks with_pool pool tasks app].
      by rewrite queue_of_with_last_p.
Qed.

Lemma runs_final_mem {A} (c : M A) (Q : A -> world -> Prop) w :
  runs c Q w ->
  exists m, final_mem (c w) = Some m /\ forall a w', c w = Some (a, w') -> w_mem w' = m /\ Q a w'.
Proof.
  intros (a & w' & Hc & HQ). exists (w_mem w'). rewrite Hc. split; [ done | ].
  intros a' w'' [= <- <-]. done.
Qed.

End AppendFacts.

(** *** The drain, task by task *)

Section DrainSteps.
Context {semaphore : ngx_semaphore}.
Variable event_handler : Z -> addr -> mem -> mem.









End DrainSteps.

(** *** The drain runs no task work *)

Section DrainNoWork.
Context {semaphore : ngx_semaphore}.
Variable interfere : nat -> mem -> mem.
Variable event_handler : Z -> addr -> mem -> mem.

Lemma no_work_refl w : no_work w w.
Proof. exists []. by rewrite app_nil_r. Qed.

Lemma no_work_trans w0 w1 w2 :
  no_work w0 w1 -> no_work w1 w2 -> no_work w0 w2.
Proof.
  intros (n1 & H1 & F1) (n2 & H2 & F2). exists (n1 ++ n2).
  split; [ by rewrite H2, H1, app_assoc | ].
  unfold task_runs in *. by rewrite omap_app, F1, F2.
Qed.

Lemma safe_step_no_work {A B} w0 (c : M A) (k : A -> M B)
    (Q : B -> world -> Prop) w :
  no_work w0 w ->
  (forall a w', c w = Some (a, w') -> no_work w w') ->
  (forall a w', c w = Some (a, w') -> no_work w0 w' -> safe (k a) Q w') ->
  safe (bind c k) Q w.
Proof.
  intros Hc Hquiet Hk b w'' Hrun. unfold bind in Hrun.
  destruct (c w) as [[a w'] | ] eqn:Hcw; [ | done ].
  eapply Hk; [ done | | exact Hrun ].
  eapply no_work_trans; [ exact Hc | ]. by eapply Hquiet.
Qed.

Ltac no_work_prim :=
  cbv [ngx_atomic_cmp_set_last_p store_through store_last_p load_last_p
       store_first load_first update_task load_task store_pool load_pool
       others_run emit store_mem load_mem stuck bind ret];
  intros; repeat case_match; simplify_eq;
  first [ apply no_work_refl
        | by (exists []; cbn; rewrite app_nil_r)
        | eexists; split; [ cbn; reflexivity | reflexivity ]
        | eexists; split; [ cbn; by rewrite <- ?app_assoc | reflexivity ] ].

Lemma no_work_load_first q w a w' :
  load_first q w = Some (a, w') -> no_work w w'.
Proof. no_work_prim. Qed.

Lemma no_work_load_task task w a w' :
  load_task task w = Some (a, w') -> no_work w w'.
Proof. no_work_prim. Qed.

Lemma no_work_store_first q v w a w' :
  store_first q v w = Some (a, w') -> no_work w w'.
Proof. no_work_prim. Qed.

Lemma no_work_race_test task (p' : ptr) w a w' :
  match p' with
  | Some _ => ret false
  | None =>
      bind (load_last_p QOut) (fun lp =>
        if decide (lp <> Some (NextOf task)) then ret true
        else bind (ngx_atomic_cmp_set_last_p interfere QOut
                     (Some (NextOf task)) (Some (FirstOf QOut)))
               (fun ok => ret (negb ok)))
  end w = Some (a, w') ->
  no_work w w'.
Proof. destruct p'; no_work_prim. Qed.

Lemma handler_loop_no_work (fuel : nat) :
  forall w0 w,
    no_work w0 w ->
    safe (ngx_thread_pool_handler_loop interfere event_handler fuel)
      (fun _ w' => no_work w0 w') w.
Proof.
  induction fuel as [ | fuel IH ]; intros w0 w Hc; [ apply safe_stuck | ].
  cbn [ngx_thread_pool_handler_loop].
  eapply safe_step_no_work; [ exact Hc | apply no_work_load_first | ].
  intros [task | ] w1 _ Hc1; [ | by apply safe_ret ].
  eapply safe_step_no_work; [ exact Hc1 | apply no_work_load_task | ].
  intros t w2 _ Hc2.
  eapply safe_step_no_work; [ exact Hc2 | apply no_work_store_first | ].
  intros _ w3 _ Hc3.
  eapply safe_step_no_work; [ exact Hc3 | apply no_work_load_first | ].
  intros p' w4 _ Hc4.
  eapply safe_step_no_work; [ exact Hc4 | apply no_work_race_test | ].
  intros [ | ] w5 _ Hc5.
  - intros a w' Hrun. eapply no_work_trans; [ exact Hc5 | ].
    by eapply no_work_store_first.
  - intros a w' Hrun.
    apply (completes_then_calls event_handler) in Hrun
      as (ev & w6 & Htr & Hev & Hrun).
    eapply IH; [ | exact Hrun ].
    eapply no_work_trans; [ exact Hc5 | ].
    by exists [CallHandler task ev].
Qed.

(** A run of the handler runs no task work. *)
Lemma handler_no_work (have_handle_notify : bool) (fuel : nat) w w' :
  ngx_thread_pool_handler interfere event_handler have_handle_notify fuel w
  = Some (tt, w') ->
  no_work w w'.
Proof.
  unfold ngx_thread_pool_handler, bind.
  destruct have_handle_notify; cbn [emit ret]; intros Hrun.
  - apply handler_loop_no_work with (w0 := w) in Hrun; [ done | ].
    by exists [HandleNotify].
  - apply handler_loop_no_work with (w0 := w) in Hrun; [ done | ].
    apply no_work_refl.
Qed.

End DrainNoWork.

(** ** The properties of the thread pool *)

Section PoolProperties.
Context {semaphore : ngx_semaphore}.

(** C3. For a task whose event is not active, a semaphore that reports
    its count, and a [max_queue] that fits [ngx_int_t]: with the count at
    [max_queue - 1] the post, run alone on a queue whose tail can be
    stored through and with a semaphore that accepts the post, returns
    [NGX_OK], leaving the event active and the semaphore posted; with the
    count at [max_queue] or above the post returns [NGX_ERROR], whatever
    the other threads do, having logged the overflow and changed nothing
    in memory: the event is still not active, and the intake queue, the
    task-id counter and the semaphore are what they were. *)
Theorem post_at_queue_limit (task : addr) (t : ngx_thread_pool_task_t)
    (count : Z) (w : world) :
  tasks (w_mem w) !! task = Some t ->
  active (task_event t) = false ->
  ngx_sem_getvalue (tp_sem (pool (w_mem w))) = (NGX_OK, count) ->
  0 <= tp_max_queue (pool (w_mem w)) < 2 ^ 63 ->
  (count = tp_max_queue (pool (w_mem w)) - 1 ->
   (ngx_sem_post (tp_sem (pool (w_mem w)))).1 = NGX_OK ->
   link_valid (w_mem w) (last_p (tp_in (pool (w_mem w)))) ->
   exists w' t',
     ngx_thread_pool_task_post no_interference task w = Some (NGX_OK, w')
     /\ tasks (w_mem w') !! task = Some t'
     /\ active (task_event t') = true
     /\ tp_sem (pool (w_mem w'))
        = (ngx_sem_post (tp_sem (pool (w_mem w)))).2)
  /\ (tp_max_queue (pool (w_mem w)) <= count ->
      forall interfere, exists w',
        ngx_thread_pool_task_post interfere task w = Some (NGX_ERROR, w')
        /\ w_mem w' = w_mem w
        /\ tasks (w_mem w') !! task = Some t
        /\ tp_in (pool (w_mem w')) = tp_in (pool (w_mem w))
        /\ tp_task_id (pool (w_mem w')) = tp_task_id (pool (w_mem w))
        /\ tp_sem (pool (w_mem w')) = tp_sem (pool (w_mem w))
        /\ w_trace w'
           = w_trace w ++ [LogErrOverflow (tp_name (pool (w_mem w))) count]).
Proof.
  intros Ht Hactive Hsem Hfits. split.
  - intros Hcount Hpost Hlp.
    destruct (post_below_limit task t count w Ht Hactive Hsem)
      as (rc & w' & Hrun & -> & Hsem' & t' & Ht' & Hactive');
      [ rewrite to_ngx_int_small by done; lia | done | done | ].
    by exists w', t'.
  - intros Hcount interfere. eexists. split.
    + apply (post_overflow interfere task t count w Ht Hactive Hsem).
      rewrite to_ngx_int_small by done. lia.
    + done.
Qed.


(** The completion enqueue, run alone on a queue that holds [l], with a
    task that is allocated, has a [NULL] link and is not in the queue,
    returns and leaves the queue holding [l ++ [task]]. *)
Lemma cycle_enqueue_appends (fuel : nat) (task : addr)
    (t : ngx_thread_pool_task_t) (l : list addr) (w : world) :
  queue_holds QOut (w_mem w) l ->
  tasks (w_mem w) !! task = Some t -> task_next t = None -> task ∉ l ->
  exists w',
    ngx_thread_pool_cycle_enqueue no_interference (S fuel) task w
    = Some (tt, w')
    /\ queue_holds QOut (w_mem w') (l ++ [task]).
Proof.
  intros Hq Ht Hnext Hfresh.
  destruct (spec_enqueue_appends QOut task t l w Hq Ht Hnext Hfresh)
    as ([] & ws & Hspec & Hholds).
  pose proof (cycle_enqueue_alone fuel task w) as Hmem.
  rewrite Hspec in Hmem.
  destruct (ngx_thread_pool_cycle_enqueue no_interference (S fuel) task w)
    as [[[] w'] | ]; [ | done ].
  cbn [final_mem] in Hmem. injection Hmem as Hmem.
  exists w'. by rewrite Hmem.
Qed.

(** C5, as amended. For every task and every state of the queues: the
    intake enqueue of [ngx_thread_pool_task_post] is the enqueue the
    specification describes, step for step and whatever the other threads
    do. The completion enqueue of [ngx_thread_pool_cycle] is another
    algorithm (it repeats its compare-and-set until it succeeds and always
    stores through the old tail link); run alone, it returns whenever the
    tail of the completion queue can be stored through, and it leaves the
    memory that the described enqueue leaves. In particular, on a queue
    that holds the tasks [l], each of the two, run alone with an allocated
    task that has a [NULL] link and is not in [l], leaves its queue
    holding [l] followed by the task. *)
Theorem completion_enqueue_alone (fuel : nat) (task : addr) (w : world) :
  (forall interfere,
     ngx_thread_pool_task_post_enqueue interfere task w
     = spec_enqueue interfere QIn task w)
  /\ final_mem
       (ngx_thread_pool_cycle_enqueue no_interference (S fuel) task w)
     = final_mem (spec_enqueue no_interference QOut task w)
  /\ (link_valid (w_mem w) (last_p (tp_out (pool (w_mem w)))) ->
      is_Some
        (ngx_thread_pool_cycle_enqueue no_interference (S fuel) task w))
  /\ (forall t l,
        tasks (w_mem w) !! task = Some t -> task_next t = None ->
        task ∉ l ->
        (queue_holds QOut (w_mem w) l ->
         exists w',
           ngx_thread_pool_cycle_enqueue no_interference (S fuel) task w
           = Some (tt, w')
           /\ queue_holds QOut (w_mem w') (l ++ [task]))
        /\ (queue_holds QIn (w_mem w) l ->
            exists w',
              ngx_thread_pool_task_post_enqueue no_interference task w
              = Some (tt, w')
              /\ queue_holds QIn (w_mem w') (l ++ [task]))).
Proof.
  split; [ intros interfere; apply post_enqueue_is_spec | ].
  split; [ apply cycle_enqueue_alone | ].
  split; [ apply cycle_enqueue_returns | ].
  intros t l Ht Hnext Hfresh. split; intros Hq.
  - by eapply cycle_enqueue_appends.
  - rewrite post_enqueue_is_spec.
    destruct (spec_enqueue_appends QIn task t l w Hq Ht Hnext Hfresh)
      as ([] & w' & Hspec & Hholds).
    by exists w'.
Qed.

End PoolProperties.

(** C3, witness: a pool with [max_queue = 4]; with the semaphore at 3 the
    post of task 1 succeeds, with the semaphore at 4 it fails and nothing
    changes. *)
Lemma post_at_queue_limit_witness :
  (exists w' t',
     ngx_thread_pool_task_post no_interference 1%positive
       (world_of (three_tasks 4 3)) = Some (NGX_OK, w')
     /\ tasks (w_mem w') !! 1%positive = Some t'
     /\ active (task_event t') = true
     /\ tp_sem (pool (w_mem w')) = Some 4)
  /\ (exists w',
        ngx_thread_pool_task_post (rival_worker 2%positive) 1%positive
          (world_of (three_tasks 4 4)) = Some (NGX_ERROR, w')
        /\ w_mem w' = three_tasks 4 4
        /\ tasks (w_mem w') !! 1%positive = Some (new_task 7 8)
        /\ tp_in (pool (w_mem w')) = empty_queue QIn
        /\ tp_task_id (pool (w_mem w')) = 0
        /\ tp_sem (pool (w_mem w')) = Some 4
        /\ w_trace w' = [LogErrOverflow "default" 4]).
Proof.
  split.
  - apply (proj1 (post_at_queue_limit (semaphore := counting_semaphore)
                    1%positive (new_task 7 8) 3 (world_of (three_tasks 4 3))
                    eq_refl eq_refl eq_refl ltac:(cbn; lia)));
      [ reflexivity | reflexivity | exact I ].
  - apply (proj2 (post_at_queue_limit (semaphore := counting_semaphore)
                    1%positive (new_task 7 8) 4 (world_of (three_tasks 4 4))
                    eq_refl eq_refl eq_refl ltac:(cbn; lia))).
    cbn. lia.
Defined.

(** C10, witness: task 1 is already active; the post fails at once. *)
Lemma post_active_task_witness :
  ngx_thread_pool_task_post (semaphore := counting_semaphore)
    no_interference 1%positive (world_of task_1_active)
  = Some (NGX_ERROR,
          {| w_mem := task_1_active; w_tick := 0%nat;
             w_trace := [LogAlertActive 0] |}).
Proof.
  apply (post_active_task (semaphore := counting_semaphore) no_interference
           1%positive
           (posted_task 0 None) (world_of task_1_active));
    reflexivity.
Defined.





(** C5, witness: task 3 put on the completion queue that holds tasks 1
    and 2, and on the empty intake queue. *)
Lemma completion_enqueue_alone_witness :
  final_mem
    (ngx_thread_pool_cycle_enqueue no_interference 1 3%positive
       (world_of two_completed))
  = final_mem
      (spec_enqueue no_interference QOut 3%positive
         (world_of two_completed))
  /\ is_Some
       (ngx_thread_pool_cycle_enqueue no_interference 1 3%positive
          (world_of two_completed))
  /\ (exists w',
        ngx_thread_pool_cycle_enqueue no_interference 1 3%positive
          (world_of two_completed) = Some (tt, w')
        /\ queue_holds QOut (w_mem w')
             [1%positive; 2%positive; 3%positive])
  /\ (exists w',
        ngx_thread_pool_task_post_enqueue no_interference 3%positive
          (world_of two_completed) = Some (tt, w')
        /\ queue_holds QIn (w_mem w') [3%positive]).
Proof.
  destruct (completion_enqueue_alone (semaphore := counting_semaphore)
              0 3%positive (world_of two_completed))
    as (_ & Hout & Hreturns & Happends).
  assert (3%positive ∉ [1%positive; 2%positive]) as Hfresh.
  { intros Hin. apply elem_of_cons in Hin as [Hin | Hin]; [ done | ].
    apply elem_of_cons in Hin as [Hin | Hin]; [ done | ].
    by apply elem_of_nil in Hin. }
  split; [ exact Hout | ].
  split; [ apply Hreturns; by eexists | ].
  split.
  - apply (proj1 (Happends (posted_task 2 None) [1%positive; 2%positive]
                    eq_refl eq_refl Hfresh)).
    split; [ | reflexivity ].
    cbn [queue_seg]. split; [ reflexivity | ].
    eexists. split; [ reflexivity | ].
    split; [ reflexivity | ].
    eexists. split; [ reflexivity | reflexivity ].
  - apply (proj2 (Happends (posted_task 2 None) [] eq_refl eq_refl
                    (not_elem_of_nil _))).
    split; reflexivity.
Defined.

(** C5, counterexample. On the empty completion queue and with no other
    thread running, the completion enqueue of [ngx_thread_pool_cycle]
    stores [last_p] and then [first], where the described enqueue stores
    [first] and then [last_p]. And when another worker appends task 3
    between the read of [last_p] and the compare-and-set, on a queue that
    holds task 2, the completion enqueue tries again and leaves the queue
    starting at task 2 and ending at task 1, where the described enqueue
    would restart the queue at task 1. So the two do not make the same
    stores to the queue. *)
Lemma completion_enqueue_counterexample :
  final_stores
    (ngx_thread_pool_cycle_enqueue no_interference 1 1%positive
       (world_of (three_tasks 4 0)))
  = Some [StoreLastP QOut (Some (NextOf 1%positive));
          StoreCell (FirstOf QOut) (Some 1%positive)]
  /\ final_stores
       (spec_enqueue no_interference QOut 1%positive
          (world_of (three_tasks 4 0)))
     = Some [StoreCell (FirstOf QOut) (Some 1%positive);
             StoreLastP QOut (Some (NextOf 1%positive))]
  /\ (fun m => tp_out (pool m))
       <$> final_mem
             (ngx_thread_pool_cycle_enqueue (rival_worker 3%positive) 2
                1%positive (world_of one_completed))
     = Some {| first := Some 2%positive;
               last_p := Some (NextOf 1%positive) |}
  /\ (fun m => tp_out (pool m))
       <$> final_mem
             (spec_enqueue (rival_worker 3%positive) QOut 1%positive
                (world_of one_completed))
     = Some {| first := Some 1%positive;
               last_p := Some (NextOf 1%positive) |}
  /\ ~ (forall (semaphore : ngx_semaphore) (interfere : nat -> mem -> mem)
          (fuel : nat) (task : addr) (w : world),
          final_stores
            (ngx_thread_pool_cycle_enqueue interfere (S fuel) task w)
          = final_stores (spec_enqueue interfere QOut task w)).
Proof.
  split; [ reflexivity | ]. split; [ reflexivity | ].
  split; [ reflexivity | ]. split; [ reflexivity | ].
  intros H.
  specialize (H counting_semaphore no_interference 0%nat 1%positive
                (world_of (three_tasks 4 0))).
  discriminate H.
Qed.

(** The round trip, run: with room for two waiting tasks the third post is
    refused; the worker runs tasks 1 and 2; the event loop then calls
    their completion handlers, in this order, each on a completed event;
    both queues end empty and the semaphore at zero. *)
Example offload_round_trip_run :
  exists w,
    offload_round_trip (world_of (three_tasks 2 0))
    = Some (([NGX_OK; NGX_OK; NGX_ERROR], [true; true]), w)
    /\ omap (fun o => match o with
                      | RunTask task _ => Some task
                      | _ => None
                      end) (w_trace w)
       = [1%positive; 2%positive]
    /\ (handler_calls (w_trace w)).*1 = [1%positive; 2%positive]
    /\ Forall (fun c => completed c.2) (handler_calls (w_trace w))
    /\ queue_holds QIn (w_mem w) []
    /\ queue_holds QOut (w_mem w) []
    /\ tp_sem (pool (w_mem w)) = Some 0.
Proof.
  eexists. split; [ vm_compute; reflexivity | ].
  repeat split; repeat constructor.
Qed.

(** ** Further properties of the readiness helpers *)

Section MoreHelperFacts.
Context {build : ngx_event_build} {R : Type}.
Variable acts : ngx_event_actions_t R.
Variable ngx_event_flags : Z.

(** What a helper returns after the one call it makes. *)
Lemma after_add_result ev e f (st : reactor R) :
  (let '(rc, ev', st') := ngx_add_event acts ev e f st in
   if rc =? NGX_ERROR then (NGX_ERROR, ev', st')
   else (NGX_OK, ev', st'))
  = (if (add acts ev e f (backend st)).1.1 =? NGX_ERROR
     then NGX_ERROR else NGX_OK,
     (add acts ev e f (backend st)).1.2,
     {| backend := (add acts ev e f (backend st)).2;
        calls := calls st ++ [Build_reactor_call OpAdd ev e f] |}).
Proof.
  unfold ngx_add_event.
  destruct (add acts ev e f (backend st)) as [[rc ev'] r']. cbn [fst snd].
  by destruct (rc =? NGX_ERROR).
Qed.

Lemma after_del_result ev e f (st : reactor R) :
  (let '(rc, ev', st') := ngx_del_event acts ev e f st in
   if rc =? NGX_ERROR then (NGX_ERROR, ev', st')
   else (NGX_OK, ev', st'))
  = (if (del acts ev e f (backend st)).1.1 =? NGX_ERROR
     then NGX_ERROR else NGX_OK,
     (del acts ev e f (backend st)).1.2,
     {| backend := (del acts ev e f (backend st)).2;
        calls := calls st ++ [Build_reactor_call OpDel ev e f] |}).
Proof.
  unfold ngx_del_event.
  destruct (del acts ev e f (backend st)) as [[rc ev'] r']. cbn [fst snd].
  by destruct (rc =? NGX_ERROR).
Qed.

(** X1. Each of the four helpers either does nothing and returns
    [NGX_OK], leaving the event and the reactor as they were, or makes
    exactly one call to the event method, on the event as it was given;
    it then returns [NGX_ERROR] exactly when the method did and [NGX_OK]
    otherwise, and leaves the event and the method's state as the method
    left them. *)
Theorem helpers_make_one_call (ev : ngx_event_t) (flags : Z)
    (st : reactor R) :
  one_call_or_none acts ev st
    (ngx_handle_read_event acts ngx_event_flags ev flags st)
  /\ one_call_or_none acts ev st
       (ngx_handle_write_event acts ngx_event_flags ev flags st)
  /\ one_call_or_none acts ev st
       (ngx_handle_level_read_event acts ngx_event_flags ev st)
  /\ one_call_or_none acts ev st
       (ngx_handle_level_write_event acts ngx_event_flags ev st).
Proof.
  unfold ngx_handle_read_event, ngx_handle_write_event,
    ngx_handle_level_read_event, ngx_handle_level_write_event,
    one_call_or_none.
  destruct (c_true (Z.land ngx_event_flags NGX_USE_CLEAR_EVENT)),
    (c_true (Z.land ngx_event_flags NGX_USE_LEVEL_EVENT)),
    (active ev), (ready ev), (c_true (Z.land flags NGX_CLOSE_EVENT));
    cbn [negb andb orb];
    rewrite ?after_add_result, ?after_del_result;
    repeat split;
    first [ by left
          | right; eexists (Build_reactor_call OpAdd ev _ _);
            split; [ reflexivity | ];
            cbn [method_result call_op call_ev call_event call_flags];
            reflexivity
          | right; eexists (Build_reactor_call OpDel ev _ _);
            split; [ reflexivity | ];
            cbn [method_result call_op call_ev call_event call_flags];
            reflexivity ].
Qed.

(** X2. On a reactor without the CLEAR capability, the level-only
    variants are the general helpers: [ngx_handle_level_write_event] is
    [ngx_handle_write_event] with any flags, and
    [ngx_handle_level_read_event] is [ngx_handle_read_event] with no
    flags. *)
Theorem level_variants_agree (ev : ngx_event_t) (flags : Z)
    (st : reactor R) :
  Z.land ngx_event_flags NGX_USE_CLEAR_EVENT = 0 ->
  ngx_handle_write_event acts ngx_event_flags ev flags st
  = ngx_handle_level_write_event acts ngx_event_flags ev st
  /\ ngx_handle_read_event acts ngx_event_flags ev 0 st
     = ngx_handle_level_read_event acts ngx_event_flags ev st.
Proof.
  intros Hclear. apply c_true_false in Hclear.
  unfold ngx_handle_read_event, ngx_handle_write_event,
    ngx_handle_level_read_event, ngx_handle_level_write_event.
  rewrite Hclear. rewrite Z.land_0_l. change (c_true 0) with false.
  rewrite orb_false_r.
  by destruct (c_true (Z.land ngx_event_flags NGX_USE_LEVEL_EVENT)).
Qed.

(** X3. The level-only variants look at the LEVEL capability alone: on a
    reactor without it they do nothing, even for an event that is neither
    active nor ready and even with the CLEAR capability, where the general
    helpers would register the event. The general helpers do nothing on a
    reactor that has neither capability. *)
Theorem helpers_without_capability (ev : ngx_event_t) (flags : Z)
    (st : reactor R) :
  (Z.land ngx_event_flags NGX_USE_LEVEL_EVENT = 0 ->
   ngx_handle_level_read_event acts ngx_event_flags ev st = (NGX_OK, ev, st)
   /\ ngx_handle_level_write_event acts ngx_event_flags ev st
      = (NGX_OK, ev, st))
  /\ (Z.land ngx_event_flags NGX_USE_LEVEL_EVENT = 0 ->
      Z.land ngx_event_flags NGX_USE_CLEAR_EVENT = 0 ->
      ngx_handle_read_event acts ngx_event_flags ev flags st
      = (NGX_OK, ev, st)
      /\ ngx_handle_write_event acts ngx_event_flags ev flags st
         = (NGX_OK, ev, st))
  /\ (Z.land ngx_event_flags NGX_USE_LEVEL_EVENT = 0 ->
      Z.land ngx_event_flags NGX_USE_CLEAR_EVENT <> 0 ->
      active ev = false -> ready ev = false ->
      exists new_r new_w,
        appended st (ngx_handle_read_event acts ngx_event_flags ev flags st)
          [new_r]
        /\ appended st
             (ngx_handle_write_event acts ngx_event_flags ev flags st)
             [new_w]
        /\ call_sig new_r = (OpAdd, NGX_READ_EVENT, NGX_CLEAR_EVENT)
        /\ call_sig new_w
           = (OpAdd, NGX_WRITE_EVENT, Z.lor NGX_CLEAR_EVENT flags)).
Proof.
  unfold ngx_handle_read_event, ngx_handle_write_event,
    ngx_handle_level_read_event, ngx_handle_level_write_event.
  split; [ | split ].
  - intros Hlevel. apply c_true_false in Hlevel. by rewrite Hlevel.
  - intros Hlevel Hclear. apply c_true_false in Hlevel, Hclear.
    by rewrite Hlevel, Hclear.
  - intros Hlevel Hclear Hactive Hready. apply c_true_true in Hclear.
    rewrite Hclear, Hactive, Hready. cbn [negb andb].
    eexists _, _. unfold appended.
    rewrite !after_add_calls. repeat split.
Qed.

Ltac use_method_contract Hm :=
  repeat match goal with
         | |- context [active (add acts ?ev ?e ?f ?r).1.2] =>
             rewrite (proj1 (Hm ev e f r))
         | |- context [ready (add acts ?ev ?e ?f ?r).1.2] =>
             rewrite (proj1 (proj2 (Hm ev e f r)))
         | |- context [active (del acts ?ev ?e ?f ?r).1.2] =>
             rewrite (proj1 (proj2 (proj2 (Hm ev e f r))))
         | |- context [ready (del acts ?ev ?e ?f ?r).1.2] =>
             rewrite (proj2 (proj2 (proj2 (Hm ev e f r))))
         end.

(** X4. With an event method that sets [active] when it adds, clears it
    when it deletes and leaves [ready] alone, one call of a helper settles
    the registration: a second call right after it, on the event and the
    reactor the first one left, does nothing. This holds for the
    level-only variants and for [ngx_handle_write_event] with any flags,
    and for [ngx_handle_read_event] with flags that do not hold
    [NGX_CLOSE_EVENT], whatever the capabilities of the reactor. *)
Theorem helpers_settle (ev : ngx_event_t) (flags : Z) (st : reactor R) :
  method_tracks_active acts ->
  (forall r,
     r = ngx_handle_level_read_event acts ngx_event_flags ev st ->
     ngx_handle_level_read_event acts ngx_event_flags r.1.2 r.2
     = (NGX_OK, r.1.2, r.2))
  /\ (forall r,
        r = ngx_handle_level_write_event acts ngx_event_flags ev st ->
        ngx_handle_level_write_event acts ngx_event_flags r.1.2 r.2
        = (NGX_OK, r.1.2, r.2))
  /\ (forall r,
        r = ngx_handle_write_event acts ngx_event_flags ev flags st ->
        ngx_handle_write_event acts ngx_event_flags r.1.2 flags r.2
        = (NGX_OK, r.1.2, r.2))
  /\ (Z.land flags NGX_CLOSE_EVENT = 0 ->
      forall r,
        r = ngx_handle_read_event acts ngx_event_flags ev flags st ->
        ngx_handle_read_event acts ngx_event_flags r.1.2 flags r.2
        = (NGX_OK, r.1.2, r.2)).
Proof.
  intros Hm.
  split; [ | split; [ | split ] ];
    [ | | | intros Hclose; apply c_true_false in Hclose ];
    intros r ->;
    unfold ngx_handle_read_event, ngx_handle_write_event,
      ngx_handle_level_read_event, ngx_handle_level_write_event;
    try rewrite Hclose;
    destruct (c_true (Z.land ngx_event_flags NGX_USE_CLEAR_EVENT)),
      (c_true (Z.land ngx_event_flags NGX_USE_LEVEL_EVENT)),
      (active ev) eqn:Hactive, (ready ev) eqn:Hready;
    cbn [negb andb orb fst snd];
    rewrite ?after_add_result, ?after_del_result;
    cbn [negb andb orb fst snd];
    rewrite ?Hactive, ?Hready; cbn [negb andb orb fst snd];
    try reflexivity;
    use_method_contract Hm;
    rewrite ?Hactive, ?Hready; cbn [negb andb orb];
    reflexivity.
Qed.

(** X5. With the same kind of event method, on a reactor with the LEVEL
    capability and without CLEAR, [ngx_handle_read_event] called with
    [NGX_CLOSE_EVENT] does not settle: on an event that is active and not
    ready the first call deletes it, and a second call with the same flags
    adds it again. *)
Theorem read_close_reregisters (ev : ngx_event_t) (flags : Z)
    (st : reactor R) :
  method_tracks_active acts ->
  Z.land ngx_event_flags NGX_USE_CLEAR_EVENT = 0 ->
  Z.land ngx_event_flags NGX_USE_LEVEL_EVENT <> 0 ->
  Z.land flags NGX_CLOSE_EVENT <> 0 ->
  active ev = true -> ready ev = false ->
  exists c1 c2,
    calls (read_event_run acts ngx_event_flags
             [(false, flags); (false, flags)] ev st).2
    = calls st ++ [c1; c2]
    /\ call_sig c1 = (OpDel, NGX_READ_EVENT, flags)
    /\ call_sig c2 = (OpAdd, NGX_READ_EVENT, NGX_LEVEL_EVENT).
Proof.
  intros Hm Hclear Hlevel Hclose Hactive Hready.
  apply c_true_false in Hclear. apply c_true_true in Hlevel, Hclose.
  cbn [read_event_run]. unfold ngx_handle_read_event.
  rewrite Hclear, Hlevel, Hclose.
  cbn [active ready set_ready]. rewrite Hactive.
  cbn [negb andb orb].
  rewrite after_del_result. cbn [fst snd active ready set_ready].
  use_method_contract Hm. cbn [negb andb orb].
  rewrite after_add_result. cbn [snd calls].
  eexists _, _. split; [ by rewrite <- app_assoc | ]. by split.
Qed.

End MoreHelperFacts.

(** ** Further properties of the configuration *)

Section MoreConfFacts.
Context {semaphore : ngx_semaphore}.

(** The name test of [ngx_thread_pool_get], for a name without a zero
    byte, is equality. *)
Lemma name_test (n name : string) :
  no_nul name = true ->
  ((String.length n =? String.length name)%nat
   && (ngx_strncmp n name (String.length name) =? 0)) = true
  <-> n = name.
Proof.
  intros Hnul. rewrite ngx_strncmp_prefix by done.
  rewrite andb_true_iff, Nat.eqb_eq. split.
  - intros [Hlen Hpre]. by apply prefix_same_length.
  - intros ->. split; [ done | apply prefix_refl ].
Qed.

Lemma get_from_spec tpp k name :
  no_nul name = true ->
  match ngx_thread_pool_get_from tpp k name with
  | Some i =>
      (k <= i)%nat
      /\ (exists tp, tpp !! (i - k)%nat = Some tp /\ tp_name tp = name)
      /\ forall j tp, (j < i - k)%nat -> tpp !! j = Some tp ->
                      tp_name tp <> name
  | None => forall j tp, tpp !! j = Some tp -> tp_name tp <> name
  end.
Proof.
  intros Hnul. revert k. induction tpp as [ | tp tpp IH ]; intros k.
  - cbn. intros j tp Hj. done.
  - cbn [ngx_thread_pool_get_from].
    destruct ((String.length (tp_name tp) =? String.length name)%nat
              && (ngx_strncmp (tp_name tp) name (String.length name) =? 0))
      eqn:Htest.
    + apply name_test in Htest; [ | done ].
      rewrite Nat.sub_diag. split; [ lia | ]. split; [ by exists tp | ].
      intros j tp' Hj. lia.
    + assert (tp_name tp <> name) as Hne.
      { intros Heq. apply (name_test _ _ Hnul) in Heq. congruence. }
      specialize (IH (S k)).
      destruct (ngx_thread_pool_get_from tpp (S k) name) as [i | ].
      * destruct IH as (Hle & (tp' & Hi & Hname) & Hbefore).
        split; [ lia | ].
        replace (i - k)%nat with (S (i - S k)) by lia.
        split; [ by exists tp' | ].
        intros [ | j] tp'' Hj Hlook; cbn in Hlook.
        -- by injection Hlook as <-.
        -- eapply Hbefore; [ | exact Hlook ]. lia.
      * intros [ | j] tp' Hlook; cbn in Hlook.
        -- by injection Hlook as <-.
        -- by eapply IH.
Qed.

Lemma get_first_spec (tcf : list ngx_thread_pool_t) (name : string) :
  no_nul name = true ->
  match ngx_thread_pool_get tcf name with
  | Some i =>
      (exists tp, tcf !! i = Some tp /\ tp_name tp = name)
      /\ forall j tp, (j < i)%nat -> tcf !! j = Some tp ->
                      tp_name tp <> name
  | None => name ∉ tp_name <$> tcf
  end.
Proof.
  intros Hnul. unfold ngx_thread_pool_get.
  pose proof (get_from_spec tcf 0 name Hnul) as H.
  destruct (ngx_thread_pool_get_from tcf 0 name) as [i | ].
  - rewrite Nat.sub_0_r in H. destruct H as (_ & Hfound & Hbefore).
    split; [ done | ]. intros j tp Hj. by apply Hbefore.
  - intros Hin. apply list_elem_of_fmap in Hin as (tp & -> & Hin).
    apply list_elem_of_lookup in Hin as [j Hj]. by eapply H.
Qed.

(** X6. For a name without a zero byte, [ngx_thread_pool_get] returns the
    first pool that bears the name, and [NULL] exactly when no pool bears
    it. *)
Theorem get_finds_first (tcf : list ngx_thread_pool_t) (name : string) :
  no_nul name = true ->
  match ngx_thread_pool_get tcf name with
  | Some i =>
      (exists tp, tcf !! i = Some tp /\ tp_name tp = name)
      /\ forall j tp, (j < i)%nat -> tcf !! j = Some tp ->
                      tp_name tp <> name
  | None => name ∉ tp_name <$> tcf
  end.
Proof. apply get_first_spec. Qed.

Lemma add_found cf tcf name i tcf1 :
  ngx_thread_pool_add cf tcf name = (Some i, tcf1) ->
  ngx_thread_pool_get tcf1
    (match name with Some n => n | None => ngx_thread_pool_default end)
  = Some i
  /\ is_Some (tcf1 !! i).
Proof.
  destruct name as [n | ]; [ apply add_named | ].
  apply (add_named cf tcf ngx_thread_pool_default).
Qed.

(** X7. [ngx_thread_pool_add] de-duplicates by name: once it has returned
    a pool for a name, any later call for the same name, from anywhere in
    the configuration and whatever the state of the arena, returns the
    same pool and leaves the array as it is. *)
Theorem add_dedups (cf cf' : ngx_conf_t) (tcf tcf1 : list ngx_thread_pool_t)
    (name : option string) (i : nat) :
  ngx_thread_pool_add cf tcf name = (Some i, tcf1) ->
  ngx_thread_pool_add cf' tcf1 name = (Some i, tcf1).
Proof.
  intros Hadd. apply add_found in Hadd as [Hget _].
  unfold ngx_thread_pool_add. by rewrite Hget.
Qed.

(** X8. [ngx_thread_pool_add] only ever appends: every pool of the array
    stays where it was, unchanged. It returns [NULL] exactly when no pool
    bears the name and the arena cannot serve one of the two allocations,
    and then the array is unchanged; and a pool it creates has no threads
    yet and records the name and the place in the configuration file
    where it was asked for. *)
Theorem add_appends (cf : ngx_conf_t) (tcf : list ngx_thread_pool_t)
    (name : string) :
  (forall j tp,
     tcf !! j = Some tp ->
     (ngx_thread_pool_add cf tcf (Some name)).2 !! j = Some tp)
  /\ ((ngx_thread_pool_add cf tcf (Some name)).1 = None
      <-> ngx_thread_pool_get tcf name = None
          /\ (pcalloc_ok cf = false \/ array_push_ok cf = false))
  /\ ((ngx_thread_pool_add cf tcf (Some name)).1 = None ->
      (ngx_thread_pool_add cf tcf (Some name)).2 = tcf)
  /\ (ngx_thread_pool_get tcf name = None ->
      forall i,
        (ngx_thread_pool_add cf tcf (Some name)).1 = Some i ->
        i = length tcf
        /\ exists tp,
             (ngx_thread_pool_add cf tcf (Some name)).2 = tcf ++ [tp]
             /\ tp_name tp = name /\ tp_threads tp = 0
             /\ tp_file tp = conf_file_name cf
             /\ tp_line tp = conf_file_line cf).
Proof.
  unfold ngx_thread_pool_add.
  destruct (ngx_thread_pool_get tcf name) as [i | ] eqn:Hget.
  { cbn [fst snd]. split; [ done | ]. split; [ | done ].
    split; [ done | intros [? _]; done ]. }
  destruct (pcalloc_ok cf).
  2: { cbn [negb fst snd]. split; [ done | ]. split; [ | done ].
       split; [ intros _; split; [ done | by left ] | done ]. }
  destruct (array_push_ok cf).
  2: { cbn [negb fst snd]. split; [ done | ]. split; [ | done ].
       split; [ intros _; split; [ done | by right ] | done ]. }
  cbn [negb fst snd]. split.
  { intros j tp Hj. by apply lookup_app_l_Some. }
  split; [ split; [ done | intros [_ [? | ?]]; done ] | ].
  split; [ done | ].
  intros _ i [= <-]. split; [ done | ]. eexists. split; [ done | ]. done.
Qed.

(** X9. Names stay distinct: if no two pools of the array bear the same
    name, then after [ngx_thread_pool_add] for a name without a zero byte
    no two pools of the array bear the same name. *)
Theorem add_keeps_names_distinct (cf : ngx_conf_t)
    (tcf : list ngx_thread_pool_t) (name : string) :
  no_nul name = true ->
  NoDup (tp_name <$> tcf) ->
  NoDup (tp_name <$> (ngx_thread_pool_add cf tcf (Some name)).2).
Proof.
  intros Hnul Hdistinct. unfold ngx_thread_pool_add.
  pose proof (get_first_spec tcf name Hnul) as Hget.
  destruct (ngx_thread_pool_get tcf name) as [i | ]; [ done | ].
  destruct (pcalloc_ok cf); [ | done ].
  destruct (array_push_ok cf); [ | done ].
  cbn [negb snd]. rewrite fmap_app. apply NoDup_app.
  split; [ done | ]. split; [ | apply NoDup_singleton ].
  intros n Hin Hnew. cbn in Hnew. apply list_elem_of_singleton in Hnew.
  by subst n.
Qed.

Lemma threads_not_max_queue v :
  is_threads_param v = true -> is_max_queue_param v = false.
Proof.
  unfold is_threads_param, is_max_queue_param.
  destruct v as [ | c r ]; [ done | ]. cbn [String.prefix].
  destruct (ascii_dec "t" c) as [<- | ]; [ | done ].
  by destruct (ascii_dec "m" "t").
Qed.

Section MoreDirectiveFacts.
Variable ngx_atoi : string -> Z.

Lemma args_step_threads v value tp :
  is_threads_param v = true ->
  ngx_thread_pool_args ngx_atoi (v :: value) tp
  = (if (threads_value ngx_atoi v =? to_ngx_uint NGX_ERROR)
        || (threads_value ngx_atoi v =? 0)
     then (false, [EmergInvalidThreads v],
           tp_set_threads (threads_value ngx_atoi v) tp)
     else ngx_thread_pool_args ngx_atoi value
            (tp_set_threads (threads_value ngx_atoi v) tp)).
Proof.
  intros Hv. cbn [ngx_thread_pool_args].
  change 8%nat with (String.length "threads=").
  rewrite ngx_strncmp_prefix by reflexivity.
  unfold is_threads_param in Hv. by rewrite Hv.
Qed.

Lemma args_step_max_queue v value tp :
  is_threads_param v = false -> is_max_queue_param v = true ->
  ngx_thread_pool_args ngx_atoi (v :: value) tp
  = (if max_queue_value ngx_atoi v =? to_ngx_uint NGX_ERROR
     then (false, [EmergInvalidMaxQueue v],
           tp_set_max_queue (max_queue_value ngx_atoi v) tp)
     else ngx_thread_pool_args ngx_atoi value
            (tp_set_max_queue (max_queue_value ngx_atoi v) tp)).
Proof.
  intros Hv Hm. cbn [ngx_thread_pool_args].
  change 8%nat with (String.length "threads=").
  change 10%nat with (String.length "max_queue=").
  rewrite !ngx_strncmp_prefix by reflexivity.
  unfold is_threads_param, is_max_queue_param in Hv, Hm.
  by rewrite Hv, Hm.
Qed.

Lemma args_step_other v value tp :
  is_threads_param v = false -> is_max_queue_param v = false ->
  ngx_thread_pool_args ngx_atoi (v :: value) tp
  = ngx_thread_pool_args ngx_atoi value tp.
Proof.
  intros Hv Hm. cbn [ngx_thread_pool_args].
  change 8%nat with (String.length "threads=").
  change 10%nat with (String.length "max_queue=").
  rewrite !ngx_strncmp_prefix by reflexivity.
  unfold is_threads_param, is_max_queue_param in Hv, Hm.
  by rewrite Hv, Hm.
Qed.

Lemma last_param_cons kind v params :
  last_param kind (v :: params)
  = if kind v
    then Some (default v (last_param kind params))
    else last_param kind params.
Proof.
  unfold last_param. cbn [List.filter]. destruct (kind v); [ | done ].
  rewrite last_cons. by destruct (last (List.filter kind params)).
Qed.

(** The loop over accepted parameters runs to its end and keeps, of each
    kind, the number of the last one. *)
Lemma args_accepted params tp :
  Forall (fun v => param_accepted ngx_atoi v = true) params ->
  (ngx_thread_pool_args ngx_atoi params tp).1 = (true, [])
  /\ tp_threads (ngx_thread_pool_args ngx_atoi params tp).2
     = default (tp_threads tp)
         (threads_value ngx_atoi <$> last_param is_threads_param params)
  /\ tp_max_queue (ngx_thread_pool_args ngx_atoi params tp).2
     = default (tp_max_queue tp)
         (max_queue_value ngx_atoi
            <$> last_param is_max_queue_param params)
  /\ tp_name (ngx_thread_pool_args ngx_atoi params tp).2 = tp_name tp
  /\ tp_file (ngx_thread_pool_args ngx_atoi params tp).2 = tp_file tp
  /\ tp_line (ngx_thread_pool_args ngx_atoi params tp).2 = tp_line tp.
Proof.
  intros Hall. revert tp.
  induction Hall as [ | v params Hv _ IH ]; intros tp; [ done | ].
  unfold param_accepted in Hv. rewrite !last_param_cons.
  destruct (is_threads_param v) eqn:Ht.
  - rewrite (threads_not_max_queue v Ht).
    rewrite args_step_threads by done.
    apply andb_true_iff in Hv as [H1 H2].
    apply negb_true_iff in H1, H2. rewrite H1, H2. cbn [orb].
    destruct (IH (tp_set_threads (threads_value ngx_atoi v) tp))
      as (Hok & Hth & Hmq & Hn & Hf & Hl).
    repeat split; try done.
    rewrite Hth. cbn [tp_threads tp_set_threads].
    by destruct (last_param is_threads_param params).
  - destruct (is_max_queue_param v) eqn:Hm.
    + rewrite args_step_max_queue by done.
      apply negb_true_iff in Hv. rewrite Hv.
      destruct (IH (tp_set_max_queue (max_queue_value ngx_atoi v) tp))
        as (Hok & Hth & Hmq & Hn & Hf & Hl).
      repeat split; try done.
      rewrite Hmq. cbn [tp_max_queue tp_set_max_queue].
      by destruct (last_param is_max_queue_param params).
    + rewrite args_step_other by done. apply IH.
Qed.

(** The loop stops at a parameter that is not accepted. *)
Lemma args_rejected params tp :
  Exists (fun v => param_accepted ngx_atoi v = false) params ->
  (ngx_thread_pool_args ngx_atoi params tp).1.1 = false.
Proof.
  intros Hex. revert tp.
  induction params as [ | v params IH ]; intros tp.
  - by apply Exists_nil in Hex.
  - destruct (param_accepted ngx_atoi v) eqn:Hv.
    + apply Exists_cons in Hex as [ ? | Hex ]; [ congruence | ].
      unfold param_accepted in Hv.
      destruct (is_threads_param v) eqn:Ht.
      * rewrite args_step_threads by done.
        apply andb_true_iff in Hv as [H1 H2].
        apply negb_true_iff in H1, H2. rewrite H1, H2. by apply IH.
      * destruct (is_max_queue_param v) eqn:Hm.
        -- rewrite args_step_max_queue by done.
           apply negb_true_iff in Hv. rewrite Hv. by apply IH.
        -- rewrite args_step_other by done. by apply IH.
    + unfold param_accepted in Hv.
      destruct (is_threads_param v) eqn:Ht.
      * rewrite args_step_threads by done.
        apply andb_false_iff in Hv as [H1 | H1];
          apply negb_false_iff in H1; rewrite H1; [ done | ].
        by rewrite orb_true_r.
      * destruct (is_max_queue_param v) eqn:Hm; [ | done ].
        rewrite args_step_max_queue by done.
        apply negb_false_iff in Hv. by rewrite Hv.
Qed.

Lemma last_param_some kind params v :
  last_param kind params = Some v -> kind v = true /\ v ∈ params.
Proof.
  unfold last_param. intros H. apply last_Some_elem_of in H.
  apply list_elem_of_In, List.filter_In in H as [Hin Hk].
  split; [ done | by apply list_elem_of_In ].
Qed.

Lemma last_param_none kind params :
  last_param kind params = None -> Forall (fun v => kind v = false) params.
Proof.
  unfold last_param. intros H. apply last_None in H.
  apply Forall_forall. intros v Hv. destruct (kind v) eqn:Hk; [ | done ].
  assert (In v (List.filter kind params)) as Hin.
  { apply List.filter_In. split; [ by apply list_elem_of_In | done ]. }
  rewrite H in Hin. destruct Hin.
Qed.

(** What the directive makes of a pool that [ngx_thread_pool_add] handed
    out with [threads = 0]. *)
Lemma directive_of_fresh_pool cf cmd word name params tcf i tcf1 tp :
  args cf = word :: name :: params ->
  ngx_thread_pool_add cf tcf (Some name) = (Some i, tcf1) ->
  tcf1 !! i = Some tp -> tp_threads tp = 0 ->
  (Forall (fun v => param_accepted ngx_atoi v = true) params ->
   forall v, last_param is_threads_param params = Some v ->
   ngx_thread_pool ngx_atoi cf cmd tcf
   = (NGX_CONF_OK, [],
      <[i := (ngx_thread_pool_args ngx_atoi params
                (tp_set_max_queue 65536 tp)).2]> tcf1)
     /\ threads_value ngx_atoi v <> 0)
  /\ (~ (Forall (fun v => param_accepted ngx_atoi v = true) params
         /\ is_Some (last_param is_threads_param params)) ->
      (ngx_thread_pool ngx_atoi cf cmd tcf).1.1 = NGX_CONF_ERROR).
Proof.
  intros Hargs Hadd Hi H0. unfold ngx_thread_pool. rewrite Hargs.
  cbn [nth drop]. rewrite drop_0, Hadd, Hi.
  apply c_true_false in H0 as Hdup. rewrite Hdup.
  destruct (decide (Forall (fun v => param_accepted ngx_atoi v = true)
                      params)) as [Hall | Hnot].
  - destruct (args_accepted params (tp_set_max_queue 65536 tp) Hall)
      as (Hok & Hth & _).
    cbn [tp_threads tp_set_max_queue] in Hth. rewrite H0 in Hth.
    destruct (ngx_thread_pool_args ngx_atoi params
                (tp_set_max_queue 65536 tp)) as [[ok lg] tp'].
    cbn [fst snd] in *. injection Hok as -> ->. split.
    + intros _ v Hv. rewrite Hv in Hth. cbn in Hth.
      apply last_param_some in Hv as [Hkind Hin].
      rewrite Forall_forall in Hall. specialize (Hall v Hin).
      unfold param_accepted in Hall. rewrite Hkind in Hall.
      apply andb_true_iff in Hall as [_ Hnz].
      apply negb_true_iff, Z.eqb_neq in Hnz.
      split; [ | done ]. rewrite Hth.
      by apply Z.eqb_neq in Hnz as ->.
    + intros Hno.
      destruct (last_param is_threads_param params) as [v | ].
      * destruct Hno. split; [ done | by eexists ].
      * cbn in Hth. by rewrite Hth.
  - split; [ done | ]. intros _.
    apply not_Forall_Exists in Hnot; [ | apply _ ].
    assert (Exists (fun v => param_accepted ngx_atoi v = false) params)
      as Hex.
    { eapply Exists_impl; [ exact Hnot | ]. cbn. intros v Hv.
      by destruct (param_accepted ngx_atoi v). }
    pose proof (args_rejected params (tp_set_max_queue 65536 tp) Hex)
      as Hrej.
    destruct (ngx_thread_pool_args ngx_atoi params
                (tp_set_max_queue 65536 tp)) as [[ok lg] tp'].
    cbn [fst snd] in Hrej. by rewrite Hrej.
Qed.

(** X10. The directive [thread_pool NAME params] is accepted exactly when
    NAME is not yet the name of a pool with a thread count (or, for a new
    name, the two allocations succeed), every [threads=] parameter has a
    number that is neither an error nor zero, every [max_queue=] parameter
    has a number that is not an error (zero is taken), and there is at
    least one [threads=] parameter. *)
Theorem directive_accepted_iff (cf : ngx_conf_t) (cmd word name : string)
    (params : list string) (tcf : list ngx_thread_pool_t) :
  args cf = word :: name :: params ->
  (ngx_thread_pool ngx_atoi cf cmd tcf).1.1 = NGX_CONF_OK
  <-> match ngx_thread_pool_get tcf name with
      | Some i => exists tp, tcf !! i = Some tp /\ tp_threads tp = 0
      | None => pcalloc_ok cf = true /\ array_push_ok cf = true
      end
      /\ Forall (fun v => param_accepted ngx_atoi v = true) params
      /\ Exists (fun v => is_threads_param v = true) params.
Proof.
  intros Hargs.
  assert (Exists (fun v => is_threads_param v = true) params
          <-> is_Some (last_param is_threads_param params)) as Hex.
  { split.
    - intros Hex. destruct (last_param is_threads_param params) eqn:Hl;
        [ by eexists | ].
      apply last_param_none in Hl. apply Exists_exists in Hex
        as (v & Hin & Hv).
      rewrite Forall_forall in Hl. specialize (Hl v Hin). congruence.
    - intros [v Hv]. apply last_param_some in Hv as [Hk Hin].
      apply Exists_exists. by exists v. }
  rewrite Hex.
  destruct (ngx_thread_pool_add cf tcf (Some name)) as [[i | ] tcf1]
    eqn:Hadd.
  - pose proof Hadd as Hfound. apply add_named in Hfound as [_ [tp Hi]].
    assert (match ngx_thread_pool_get tcf name with
            | Some i => exists tp, tcf !! i = Some tp /\ tp_threads tp = 0
            | None => pcalloc_ok cf = true /\ array_push_ok cf = true
            end <-> tp_threads tp = 0) as ->.
    { unfold ngx_thread_pool_add in Hadd.
      destruct (ngx_thread_pool_get tcf name) as [j | ].
      - injection Hadd as -> ->. split.
        + intros (tp' & Hj & H0). congruence.
        + intros H0. by exists tp.
      - destruct (pcalloc_ok cf); [ | done ].
        destruct (array_push_ok cf); [ | done ].
        cbn [negb] in Hadd. injection Hadd as <- <-.
        rewrite lookup_app_r, Nat.sub_diag in Hi by done.
        injection Hi as <-. done. }
    destruct (decide (tp_threads tp = 0)) as [H0 | H0].
    + destruct (directive_of_fresh_pool cf cmd word name params tcf i tcf1
                  tp Hargs Hadd Hi H0) as [Hyes Hno].
      split.
      * intros Hok.
        destruct (decide (Forall (fun v => param_accepted ngx_atoi v = true)
                            params
                          /\ is_Some (last_param is_threads_param params)))
          as [[Hall Hsome] | Hnot]; [ done | ].
        apply Hno in Hnot. congruence.
      * intros (_ & Hall & [v Hv]).
        destruct (Hyes Hall v Hv) as [-> _]. done.
    + split; [ | by intros [? _] ].
      unfold ngx_thread_pool. rewrite Hargs. cbn [nth drop].
      rewrite Hadd, Hi. apply c_true_true in H0. by rewrite H0.
  - split.
    + unfold ngx_thread_pool. rewrite Hargs. cbn [nth drop].
      by rewrite Hadd.
    + intros (Hget & _). unfold ngx_thread_pool_add in Hadd.
      destruct (ngx_thread_pool_get tcf name) as [j | ]; [ done | ].
      destruct Hget as [Hp Ha]. by rewrite Hp, Ha in Hadd.
Qed.

(** X11. An accepted directive [thread_pool NAME params] logs nothing and
    leaves, under NAME, a pool whose thread count is the number of the
    last [threads=] parameter (not zero) and whose queue limit is the
    number of the last [max_queue=] parameter, or 65536 when there is
    none; the pool keeps the file and line of the place that first named
    it, and every other pool is as [ngx_thread_pool_add] left it. *)
Theorem directive_stores_last_values (cf : ngx_conf_t)
    (cmd word name : string) (params : list string)
    (tcf : list ngx_thread_pool_t) :
  args cf = word :: name :: params ->
  (ngx_thread_pool ngx_atoi cf cmd tcf).1.1 = NGX_CONF_OK ->
  exists i tp0 tp v,
    (ngx_thread_pool ngx_atoi cf cmd tcf).1.2 = []
    /\ ngx_thread_pool_get (ngx_thread_pool ngx_atoi cf cmd tcf).2 name
       = Some i
    /\ (ngx_thread_pool_add cf tcf (Some name)).2 !! i = Some tp0
    /\ (ngx_thread_pool ngx_atoi cf cmd tcf).2
       = <[i := tp]> (ngx_thread_pool_add cf tcf (Some name)).2
    /\ last_param is_threads_param params = Some v
    /\ tp_threads tp = threads_value ngx_atoi v
    /\ tp_threads tp <> 0
    /\ tp_max_queue tp
       = default 65536 (max_queue_value ngx_atoi
                          <$> last_param is_max_queue_param params)
    /\ tp_name tp = tp_name tp0
    /\ tp_file tp = tp_file tp0
    /\ tp_line tp = tp_line tp0.
Proof.
  intros Hargs Hok.
  destruct (ngx_thread_pool_add cf tcf (Some name)) as [[i | ] tcf1]
    eqn:Hadd; cycle 1.
  { unfold ngx_thread_pool in Hok. rewrite Hargs in Hok.
    cbn [nth drop] in Hok. by rewrite Hadd in Hok. }
  pose proof Hadd as Hfound. apply add_named in Hfound as [Hget [tp0 Hi]].
  destruct (decide (tp_threads tp0 = 0)) as [H0 | H0]; cycle 1.
  { unfold ngx_thread_pool in Hok. rewrite Hargs in Hok.
    cbn [nth drop] in Hok. rewrite Hadd, Hi in Hok.
    apply c_true_true in H0. by rewrite H0 in Hok. }
  destruct (directive_of_fresh_pool cf cmd word name params tcf i tcf1
              tp0 Hargs Hadd Hi H0) as [Hyes Hno].
  destruct (decide (Forall (fun v => param_accepted ngx_atoi v = true)
                      params
                    /\ is_Some (last_param is_threads_param params)))
    as [[Hall [v Hv]] | Hnot]; [ | apply Hno in Hnot; congruence ].
  destruct (Hyes Hall v Hv) as [Hres Hnz].
  destruct (args_accepted params (tp_set_max_queue 65536 tp0) Hall)
    as (_ & Hth & Hmq & Hn & Hf & Hl).
  rewrite Hv in Hth. cbn in Hth.
  exists i, tp0,
    (ngx_thread_pool_args ngx_atoi params (tp_set_max_queue 65536 tp0)).2,
    v.
  rewrite Hres. cbn [fst snd].
  split; [ done | ]. split; [ | repeat split; try done; congruence ].
  unfold ngx_thread_pool_get in *. rewrite <- Hget.
  apply get_from_names. rewrite list_fmap_insert, Hn.
  apply list_insert_id. by rewrite list_lookup_fmap, Hi.
Qed.

(** X12. A name is declared once: after an accepted directive for NAME,
    any further directive for NAME, whatever its parameters, is rejected
    as a duplicate and changes nothing. *)
Theorem directive_twice_rejected (cf cf' : ngx_conf_t)
    (cmd cmd' word word' name : string) (params params' : list string)
    (tcf : list ngx_thread_pool_t) :
  no_nul name = true ->
  args cf = word :: name :: params ->
  args cf' = word' :: name :: params' ->
  (ngx_thread_pool ngx_atoi cf cmd tcf).1.1 = NGX_CONF_OK ->
  ngx_thread_pool ngx_atoi cf' cmd'
    (ngx_thread_pool ngx_atoi cf cmd tcf).2
  = (NGX_CONF_ERROR, [EmergDuplicate name],
     (ngx_thread_pool ngx_atoi cf cmd tcf).2).
Proof.
  intros Hnul Hargs Hargs' Hok.
  destruct (ngx_thread_pool_add cf tcf (Some name)) as [[i | ] tcf1]
    eqn:Hadd; cycle 1.
  { unfold ngx_thread_pool in Hok. rewrite Hargs in Hok.
    cbn [nth drop] in Hok. by rewrite Hadd in Hok. }
  pose proof Hadd as Hfound. apply add_named in Hfound as [Hget [tp0 Hi]].
  destruct (decide (tp_threads tp0 = 0)) as [H0 | H0]; cycle 1.
  { unfold ngx_thread_pool in Hok. rewrite Hargs in Hok.
    cbn [nth drop] in Hok. rewrite Hadd, Hi in Hok.
    apply c_true_true in H0. by rewrite H0 in Hok. }
  destruct (directive_of_fresh_pool cf cmd word name params tcf i tcf1
              tp0 Hargs Hadd Hi H0) as [Hyes Hno].
  destruct (decide (Forall (fun v => param_accepted ngx_atoi v = true)
                      params
                    /\ is_Some (last_param is_threads_param params)))
    as [[Hall [v Hv]] | Hnot]; [ | apply Hno in Hnot; congruence ].
  destruct (Hyes Hall v Hv) as [Hres Hnz].
  destruct (args_accepted params (tp_set_max_queue 65536 tp0) Hall)
    as (_ & Hth & _ & Hn & _).
  rewrite Hv in Hth. cbn in Hth.
  set (tp := (ngx_thread_pool_args ngx_atoi params
                (tp_set_max_queue 65536 tp0)).2) in *.
  rewrite Hres. cbn [snd].
  assert (ngx_thread_pool_get (<[i := tp]> tcf1) name = Some i) as Hget'.
  { unfold ngx_thread_pool_get in *. rewrite <- Hget.
    apply get_from_names. rewrite list_fmap_insert, Hn.
    apply list_insert_id. by rewrite list_lookup_fmap, Hi. }
  assert (<[i := tp]> tcf1 !! i = Some tp) as Hi'.
  { apply list_lookup_insert_eq. by apply lookup_lt_Some in Hi. }
  pose proof (get_first_spec (<[i := tp]> tcf1) name Hnul) as Hfirst.
  rewrite Hget' in Hfirst. destruct Hfirst as [(tp' & Htp' & Hname) _].
  rewrite Hi' in Htp'. injection Htp' as <-.
  unfold ngx_thread_pool. rewrite Hargs'. cbn [nth drop].
  unfold ngx_thread_pool_add. rewrite Hget', Hi'.
  assert (c_true (tp_threads tp) = true) as ->.
  { apply c_true_true. by rewrite Hth. }
  by rewrite Hname.
Qed.

(** The loop over the parameters reads only those that begin with
    [threads=] or [max_queue=]. *)
Lemma args_filter_recognised params tp :
  ngx_thread_pool_args ngx_atoi (List.filter param_recognised params) tp
  = ngx_thread_pool_args ngx_atoi params tp.
Proof.
  revert tp. induction params as [ | v params IH ]; intros tp; [ done | ].
  cbn [List.filter]. unfold param_recognised at 1.
  destruct (is_threads_param v) eqn:Ht.
  - cbn [orb]. rewrite !args_step_threads by done.
    destruct (_ || _); [ done | apply IH ].
  - destruct (is_max_queue_param v) eqn:Hm; cbn [orb].
    + rewrite !args_step_max_queue by done.
      destruct (_ =? _); [ done | apply IH ].
    + rewrite args_step_other by done. apply IH.
Qed.

(** X13. A parameter that begins with neither [threads=] nor
    [max_queue=] is not reported and has no effect: the directive gives
    the same status, log and pools as with those parameters left out. *)
Theorem directive_ignores_other_params (cf : ngx_conf_t)
    (cmd word name : string) (params : list string)
    (tcf : list ngx_thread_pool_t) :
  args cf = word :: name :: params ->
  ngx_thread_pool ngx_atoi
    {| args := word :: name :: List.filter param_recognised params;
       conf_file_name := conf_file_name cf;
       conf_file_line := conf_file_line cf;
       pcalloc_ok := pcalloc_ok cf;
       array_push_ok := array_push_ok cf |} cmd tcf
  = ngx_thread_pool ngx_atoi cf cmd tcf.
Proof.
  intros Hargs. unfold ngx_thread_pool. rewrite Hargs.
  cbn [args nth drop]. rewrite !drop_0.
  unfold ngx_thread_pool_add.
  cbn [pcalloc_ok array_push_ok conf_file_name conf_file_line].
  destruct (ngx_thread_pool_get tcf name) as [i | ].
  - destruct (tcf !! i) as [tp | ]; [ | done ].
    destruct (c_true (tp_threads tp)); [ done | ].
    by rewrite args_filter_recognised.
  - destruct (pcalloc_ok cf); [ | done ].
    destruct (array_push_ok cf); [ | done ]. cbn [negb].
    destruct (_ !! _) as [tp | ]; [ | done ].
    destruct (c_true (tp_threads tp)); [ done | ].
    by rewrite args_filter_recognised.
Qed.

End MoreDirectiveFacts.

(** *** [ngx_thread_pool_init_conf], further *)

Lemma get_none_of_names tcf name :
  no_nul name = true -> name ∉ tp_name <$> tcf ->
  ngx_thread_pool_get tcf name = None.
Proof.
  intros Hnul Hnot. pose proof (get_first_spec tcf name Hnul) as H.
  destruct (ngx_thread_pool_get tcf name) as [i | ]; [ | done ].
  destruct H as [(tp & Hi & Hn) _]. destruct Hnot.
  apply list_elem_of_fmap. exists tp. split; [ done | ].
  by eapply list_elem_of_lookup_2.
Qed.

Lemma init_conf_declared tpp :
  Forall (fun tp => tp_threads tp <> 0) tpp ->
  ngx_thread_pool_init_conf tpp = (NGX_CONF_OK, [], tpp).
Proof.
  induction 1 as [ | tp tpp Htp _ IH ]; [ done | ].
  by rewrite init_conf_cons_declared, IH.
Qed.

Lemma init_conf_app_declared tpp tpp' :
  Forall (fun tp => tp_threads tp <> 0) tpp ->
  ngx_thread_pool_init_conf (tpp ++ tpp')
  = (let '(rc, lg, rest) := ngx_thread_pool_init_conf tpp' in
     (rc, lg, tpp ++ rest)).
Proof.
  induction 1 as [ | tp tpp Htp _ IH ].
  - cbn [app]. by destruct (ngx_thread_pool_init_conf tpp') as [[? ?] ?].
  - cbn [app]. rewrite init_conf_cons_declared, IH by done.
    by destruct (ngx_thread_pool_init_conf tpp') as [[? ?] ?].
Qed.

(** X14. Finalization is idempotent: on the pools that an accepted
    [ngx_thread_pool_init_conf] leaves, a second run is accepted, logs
    nothing and changes nothing. *)
Theorem init_conf_idempotent (tpp : list ngx_thread_pool_t) :
  (ngx_thread_pool_init_conf tpp).1.1 = NGX_CONF_OK ->
  ngx_thread_pool_init_conf (ngx_thread_pool_init_conf tpp).2
  = (NGX_CONF_OK, [], (ngx_thread_pool_init_conf tpp).2).
Proof.
  induction tpp as [ | tp tpp IH ]; [ done | ].
  destruct (decide (tp_threads tp = 0)) as [H0 | H0].
  - destruct (decide (tp_name tp = "default"%string)) as [Hn | Hn].
    + rewrite init_conf_cons_default by done.
      destruct (ngx_thread_pool_init_conf tpp) as [[rc lg] rest].
      cbn [fst snd] in *. intros Hok.
      rewrite init_conf_cons_declared by done. by rewrite IH.
    + by rewrite init_conf_cons_undeclared.
  - rewrite init_conf_cons_declared by done.
    destruct (ngx_thread_pool_init_conf tpp) as [[rc lg] rest].
    cbn [fst snd] in *. intros Hok.
    rewrite init_conf_cons_declared by done. by rewrite IH.
Qed.

(** X15. Whatever its outcome, [ngx_thread_pool_init_conf] keeps the
    number of pools, their names, files and lines, and every pool that
    has a thread count: it writes only to pools named [default] whose
    thread count is zero. *)
Theorem init_conf_keeps_declared (tpp : list ngx_thread_pool_t) :
  tp_name <$> (ngx_thread_pool_init_conf tpp).2 = tp_name <$> tpp
  /\ tp_file <$> (ngx_thread_pool_init_conf tpp).2 = tp_file <$> tpp
  /\ tp_line <$> (ngx_thread_pool_init_conf tpp).2 = tp_line <$> tpp
  /\ forall i tp,
       tpp !! i = Some tp ->
       tp_threads tp <> 0 \/ tp_name tp <> "default"%string ->
       (ngx_thread_pool_init_conf tpp).2 !! i = Some tp.
Proof.
  induction tpp as [ | tp tpp (IHn & IHf & IHl & IH) ]; [ done | ].
  destruct (decide (tp_threads tp = 0)) as [H0 | H0].
  - destruct (decide (tp_name tp = "default"%string)) as [Hn | Hn].
    + rewrite init_conf_cons_default by done.
      destruct (ngx_thread_pool_init_conf tpp) as [[rc lg] rest].
      cbn [fst snd] in *. rewrite !fmap_cons, IHn, IHf, IHl.
      repeat split; try done.
      intros [ | i ] tp' Hi Hkeep; cbn in *; [ | by apply IH ].
      injection Hi as <-. by destruct Hkeep.
    + by rewrite init_conf_cons_undeclared.
  - rewrite init_conf_cons_declared by done.
    destruct (ngx_thread_pool_init_conf tpp) as [[rc lg] rest].
    cbn [fst snd] in *. rewrite !fmap_cons, IHn, IHf, IHl.
    repeat split; try done.
    intros [ | i ] tp' Hi Hkeep; cbn in *; [ done | by apply IH ].
Qed.

(** X16. A reference to the default pool needs no directive: when every
    pool so far has a thread count and none is named [default], a
    reference without a name ([ngx_thread_pool_add] with a null name)
    followed by finalization is accepted, logs nothing, and leaves the
    pools as they were, followed by a pool [default] of 32 threads and
    queue limit 65536 that carries the file and line of the reference. *)
Theorem default_reference_provided (cf : ngx_conf_t)
    (tcf : list ngx_thread_pool_t) :
  Forall (fun tp => tp_threads tp <> 0) tcf ->
  "default"%string ∉ tp_name <$> tcf ->
  pcalloc_ok cf = true -> array_push_ok cf = true ->
  (ngx_thread_pool_add cf tcf None).1 = Some (length tcf)
  /\ ngx_thread_pool_init_conf (ngx_thread_pool_add cf tcf None).2
     = (NGX_CONF_OK, [],
        tcf ++ [ {| tp_sem := ngx_sem_zero; tp_task_id := 0;
                    tp_in := zero_queue; tp_out := zero_queue;
                    tp_name := "default"; tp_threads := 32;
                    tp_max_queue := 65536;
                    tp_file := conf_file_name cf;
                    tp_line := conf_file_line cf |} ]).
Proof.
  intros Hdecl Hnot Hp Ha. unfold ngx_thread_pool_add.
  rewrite (get_none_of_names tcf ngx_thread_pool_default) by done.
  rewrite Hp, Ha. cbn [negb fst snd]. split; [ done | ].
  rewrite init_conf_app_declared by done.
  by rewrite init_conf_cons_default.
Qed.

(** X17. A reference to a pool that no directive declares is fatal at
    finalization: when every pool so far has a thread count, a reference
    to a new name other than [default] makes
    [ngx_thread_pool_init_conf] fail, and the one record it logs names
    that pool with the file and line of the reference. *)
Theorem undeclared_reference_fails (cf : ngx_conf_t)
    (tcf : list ngx_thread_pool_t) (name : string) :
  no_nul name = true -> name <> "default"%string ->
  Forall (fun tp => tp_threads tp <> 0) tcf ->
  name ∉ tp_name <$> tcf ->
  pcalloc_ok cf = true -> array_push_ok cf = true ->
  ngx_thread_pool_init_conf (ngx_thread_pool_add cf tcf (Some name)).2
  = (NGX_CONF_ERROR,
     [EmergUnknownPool name (conf_file_name cf) (conf_file_line cf)],
     (ngx_thread_pool_add cf tcf (Some name)).2).
Proof.
  intros Hnul Hname Hdecl Hnot Hp Ha. unfold ngx_thread_pool_add.
  rewrite (get_none_of_names tcf name) by done.
  rewrite Hp, Ha. cbn [negb fst snd].
  rewrite init_conf_app_declared by done.
  by rewrite init_conf_cons_undeclared.
Qed.

End MoreConfFacts.

(** ** Further properties of the pool at run time *)

Ltac reduce_world :=
  cbv beta;
  cbn [w_mem w_trace w_tick with_obs with_mem with_tasks with_pool pool
       tasks ticked].

Section MorePoolFacts.
Context {semaphore : ngx_semaphore}.
Implicit Types ts : gmap addr ngx_thread_pool_task_t.

(** *** Chains and records *)

(** Writing to a task that is not on a chain leaves the chain. *)
Lemma queue_seg_insert_other ts p l a t' :
  a ∉ l -> queue_seg ts p l -> queue_seg (<[a := t']> ts) p l.
Proof.
  revert p. induction l as [ | b l IH ]; intros p Hfresh Hseg; [ done | ].
  apply not_elem_of_cons in Hfresh as [Hne Hfresh].
  destruct Hseg as [-> (tb & Hb & Hrest)]. split; [ done | ].
  exists tb. rewrite lookup_insert_ne by done. split; [ done | ].
  by apply IH.
Qed.

Lemma set_queue_restore q v tp :
  set_queue q (queue_of q tp) (set_queue q v tp) = tp.
Proof. by destruct q, tp. Qed.

Lemma set_queue_with_first q v tp old :
  set_queue q old (with_first q v tp) = set_queue q old tp.
Proof. by destruct q. Qed.

Lemma set_queue_with_last_p q v tp old :
  set_queue q old (with_last_p q v tp) = set_queue q old tp.
Proof. by destruct q. Qed.

Lemma set_queue_same q tp : set_queue q (queue_of q tp) tp = tp.
Proof. by destruct q, tp. Qed.

Lemma task_set_next_restore v t :
  task_set_next (task_next t) (task_set_next v t) = t.
Proof. by destruct t. Qed.

Lemma task_set_next_same t : task_set_next (task_next t) t = t.
Proof. by destruct t. Qed.

Lemma only_stores_nil : only_stores [].
Proof. done. Qed.

Lemma only_stores_app tr1 tr2 :
  only_stores tr1 -> only_stores tr2 -> only_stores (tr1 ++ tr2).
Proof.
  unfold only_stores, queue_stores. intros H1 H2.
  by rewrite omap_app, H1, H2.
Qed.

Lemma omap_length_le {A B} (f : A -> option B) (l : list A) :
  (length (omap f l) <= length l)%nat.
Proof.
  induction l as [ | x l IH ]; [ done | ].
  cbn. destruct (f x); cbn; lia.
Qed.

Lemma only_stores_no_calls (tr : list obs) :
  only_stores tr -> handler_calls tr = [].
Proof.
  induction tr as [ | o tr IH ]; [ done | ].
  unfold only_stores, queue_stores. intros H.
  pose proof (omap_length_le
                (fun o => match o with
                          | StoreCell _ _ | StoreLastP _ _ => Some o
                          | _ => None
                          end) tr) as Hlen.
  destruct o; cbn in H;
    try (apply (f_equal length) in H; cbn in H; lia);
    injection H as H; by apply IH.
Qed.

Lemma task_runs_app (l1 l2 : list obs) :
  task_runs (l1 ++ l2) = task_runs l1 ++ task_runs l2.
Proof. apply omap_app. Qed.

Lemma only_stores_no_runs (tr : list obs) :
  only_stores tr -> task_runs tr = [].
Proof.
  induction tr as [ | o tr IH ]; [ done | ].
  unfold only_stores, queue_stores. intros H.
  pose proof (omap_length_le
                (fun o => match o with
                          | StoreCell _ _ | StoreLastP _ _ => Some o
                          | _ => None
                          end) tr) as Hlen.
  destruct o; cbn in H;
    try (apply (f_equal length) in H; cbn in H; lia);
    injection H as H; by apply IH.
Qed.


(** *** The enqueue, run alone: what it changes and what it keeps *)

Lemma spec_enqueue_effect q task t l w :
  queue_holds q (w_mem w) l ->
  tasks (w_mem w) !! task = Some t -> task_next t = None -> task ∉ l ->
  runs (spec_enqueue no_interference q task)
    (fun _ w' =>
       queue_holds q (w_mem w') (l ++ [task])
       /\ set_queue q (queue_of q (pool (w_mem w))) (pool (w_mem w'))
          = pool (w_mem w)
       /\ tasks (w_mem w') !! task = Some t
       /\ (forall a ta, tasks (w_mem w) !! a = Some ta ->
             exists ta', tasks (w_mem w') !! a = Some ta'
                         /\ task_set_next (task_next ta) ta' = ta)
       /\ (forall p l', (forall b, last l = Some b -> b ∉ l') ->
             queue_seg (tasks (w_mem w)) p l' ->
             queue_seg (tasks (w_mem w')) p l')
       /\ exists new, w_trace w' = w_trace w ++ new /\ only_stores new)
    w.
Proof.
  intros [Hseg Hlast] Ht Hnext Hfresh. unfold spec_enqueue.
  apply runs_bind, runs_load_last_p. rewrite Hlast. unfold queue_tail.
  destruct (last l) as [b | ] eqn:Hl.
  - case_decide as Hd; [ done | clear Hd ].
    apply runs_bind.
    apply runs_cmp_set_last_p_alone;
      [ by rewrite Hlast; unfold queue_tail; rewrite Hl | ].
    assert (b ∈ l) as Hbin by (by apply last_elem_of).
    assert (b <> task) as Hbt by (intros ->; done).
    destruct (queue_seg_allocated _ _ _ _ Hseg Hbin) as [tb Hb].
    eapply runs_store_through_next; [ exact Hb | ].
    split_and!; reduce_world.
    + split; reduce_world.
      * rewrite queue_of_with_last_p. cbn [first]. by eapply queue_seg_snoc.
      * rewrite queue_of_with_last_p. cbn [last_p].
        unfold queue_tail. by rewrite last_snoc.
    + rewrite set_queue_with_last_p. apply set_queue_same.
    + by rewrite lookup_insert_ne.
    + intros a ta Ha. destruct (decide (a = b)) as [-> | Hne].
      * rewrite lookup_insert_eq. eexists. split; [ done | ].
        rewrite Hb in Ha. injection Ha as <-. apply task_set_next_restore.
      * rewrite lookup_insert_ne by done. eexists. split; [ done | ].
        apply task_set_next_same.
    + intros p l' Hb' Hseg'. apply queue_seg_insert_other; [ | done ].
      by apply Hb'.
    + eexists. rewrite <- app_assoc. split; [ reflexivity | done ].
  - apply last_None in Hl. subst l.
    case_decide as Hd; [ clear Hd | done ].
    apply runs_bind, runs_store_first. apply runs_store_last_p.
    split_and!; reduce_world.
    + split; reduce_world.
      * rewrite queue_of_with_last_p, queue_of_with_first. cbn [first].
        cbn [queue_seg]. split; [ done | ]. exists t. by rewrite Hnext.
      * by rewrite queue_of_with_last_p.
    + rewrite set_queue_with_last_p, set_queue_with_first.
      apply set_queue_same.
    + done.
    + intros a ta Ha. eexists. split; [ done | ].
      apply task_set_next_same.
    + done.
    + eexists. rewrite <- app_assoc. split; [ reflexivity | done ].
Qed.

Lemma post_enqueue_effect task t l w :
  queue_holds QIn (w_mem w) l ->
  tasks (w_mem w) !! task = Some t -> task_next t = None -> task ∉ l ->
  runs (ngx_thread_pool_task_post_enqueue no_interference task)
    (fun _ w' =>
       queue_holds QIn (w_mem w') (l ++ [task])
       /\ set_queue QIn (queue_of QIn (pool (w_mem w))) (pool (w_mem w'))
          = pool (w_mem w)
       /\ tasks (w_mem w') !! task = Some t
       /\ (forall a ta, tasks (w_mem w) !! a = Some ta ->
             exists ta', tasks (w_mem w') !! a = Some ta'
                         /\ task_set_next (task_next ta) ta' = ta)
       /\ (forall p l', (forall b, last l = Some b -> b ∉ l') ->
             queue_seg (tasks (w_mem w)) p l' ->
             queue_seg (tasks (w_mem w')) p l')
       /\ exists new, w_trace w' = w_trace w ++ new /\ only_stores new)
    w.
Proof.
  intros Hq Ht Hnext Hfresh. unfold runs.
  rewrite post_enqueue_is_spec.
  by apply (spec_enqueue_effect QIn task t l w).
Qed.

(** *** [ngx_thread_pool_task_post], run alone *)

Lemma post_effect (task : addr) (t : ngx_thread_pool_task_t)
    (count : Z) (l : list addr) (w : world) :
  tasks (w_mem w) !! task = Some t ->
  active (task_event t) = false ->
  ngx_sem_getvalue (tp_sem (pool (w_mem w))) = (NGX_OK, count) ->
  count < to_ngx_int (tp_max_queue (pool (w_mem w))) ->
  queue_holds QIn (w_mem w) l ->
  task ∉ l ->
  runs (ngx_thread_pool_task_post no_interference task)
    (fun rc w' =>
       rc = (if (ngx_sem_post (tp_sem (pool (w_mem w)))).1 =? NGX_OK
             then NGX_OK else NGX_ERROR)
       /\ queue_holds QIn (w_mem w') (l ++ [task])
       /\ tasks (w_mem w') !! task
          = Some (task_set_next None
                    (task_set_id (tp_task_id (pool (w_mem w)))
                       (task_set_event (set_active true (task_event t)) t)))
       /\ tp_task_id (pool (w_mem w'))
          = to_ngx_uint (tp_task_id (pool (w_mem w)) + 1)
       /\ tp_sem (pool (w_mem w'))
          = (ngx_sem_post (tp_sem (pool (w_mem w)))).2
       /\ tp_out (pool (w_mem w')) = tp_out (pool (w_mem w))
       /\ (forall p l', task ∉ l' ->
             (forall b, last l = Some b -> b ∉ l') ->
             queue_seg (tasks (w_mem w)) p l' ->
             queue_seg (tasks (w_mem w')) p l')
       /\ tp_max_queue (pool (w_mem w')) = tp_max_queue (pool (w_mem w))
       /\ (forall b tb, b <> task -> tasks (w_mem w) !! b = Some tb ->
             exists tb', tasks (w_mem w') !! b = Some tb'
                         /\ task_event tb' = task_event tb)
       /\ exists new, w_trace w' = w_trace w ++ new /\ only_stores new)
    w.
Proof.
  intros Ht Hactive Hsem Hroom Hq Hfresh.
  unfold ngx_thread_pool_task_post.
  apply runs_bind. eapply runs_load_task; [ exact Ht | ]. cbv beta.
  rewrite Hactive.
  apply runs_bind, runs_load_pool. cbv beta.
  rewrite Hsem. cbn [negb Z.eqb NGX_OK].
  destruct (Z.geb_spec count (to_ngx_int (tp_max_queue (pool (w_mem w)))));
    [ lia | ].
  apply runs_bind. eapply runs_update_task; [ exact Ht | ].
  apply runs_bind. eapply runs_update_task; [ apply lookup_insert_eq | ].
  apply runs_bind, runs_store_pool.
  apply runs_bind. eapply runs_update_task; [ apply lookup_insert_eq | ].
  reduce_world. rewrite !insert_insert_eq.
  set (t' := task_set_next None _).
  apply runs_bind.
  eapply runs_weaken.
  { apply (post_enqueue_effect task t' l); reduce_world.
    - destruct Hq as [Hseg Hlast]. split; reduce_world.
      + by apply queue_seg_insert_other.
      + done.
    - apply lookup_insert_eq.
    - done.
    - done. }
  reduce_world.
  intros _ w1 (Hq1 & Hpool1 & Htask1 & Hothers1 & Hchains1 & new & Htr1
               & Hs1).
  apply runs_bind, runs_load_pool. cbv beta.
  assert (tp_sem (pool (w_mem w1)) = tp_sem (pool (w_mem w))) as Hsem1.
  { apply (f_equal tp_sem) in Hpool1. done. }
  assert (tp_task_id (pool (w_mem w1))
          = to_ngx_uint (tp_task_id (pool (w_mem w)) + 1)) as Hid1.
  { apply (f_equal tp_task_id) in Hpool1. done. }
  assert (tp_out (pool (w_mem w1)) = tp_out (pool (w_mem w))) as Hout1.
  { apply (f_equal tp_out) in Hpool1. done. }
  assert (tp_max_queue (pool (w_mem w1)) = tp_max_queue (pool (w_mem w)))
    as Hmq1.
  { apply (f_equal tp_max_queue) in Hpool1. done. }
  rewrite Hsem1.
  destruct (ngx_sem_post (tp_sem (pool (w_mem w)))) as [rc sem'].
  cbn [fst snd].
  apply runs_bind, runs_store_pool. reduce_world.
  assert (forall rc' : Z,
            runs (ret rc')
              (fun rc0 w' =>
                 rc0 = rc'
                 /\ queue_holds QIn (w_mem w') (l ++ [task])
                 /\ tasks (w_mem w') !! task = Some t'
                 /\ tp_task_id (pool (w_mem w'))
                    = to_ngx_uint (tp_task_id (pool (w_mem w)) + 1)
                 /\ tp_sem (pool (w_mem w')) = sem'
                 /\ tp_out (pool (w_mem w')) = tp_out (pool (w_mem w))
                 /\ (forall p l', task ∉ l' ->
                       (forall b, last l = Some b -> b ∉ l') ->
                       queue_seg (tasks (w_mem w)) p l' ->
                       queue_seg (tasks (w_mem w')) p l')
                 /\ tp_max_queue (pool (w_mem w'))
                    = tp_max_queue (pool (w_mem w))
                 /\ (forall b tb, b <> task ->
                       tasks (w_mem w) !! b = Some tb ->
                       exists tb', tasks (w_mem w') !! b = Some tb'
                                   /\ task_event tb' = task_event tb)
                 /\ exists new,
                      w_trace w' = w_trace w ++ new /\ only_stores new)
              (with_mem (with_pool (tp_set_sem sem' (pool (w_mem w1)))
                           (w_mem w1)) w1)) as Hret.
  { intros rc'. apply runs_ret. reduce_world.
    split_and!; try done.
    - intros p l' Hfresh' Hlast' Hseg'. apply Hchains1; [ done | ].
      reduce_world. by apply queue_seg_insert_other.
    - intros b tb Hne Hb.
      destruct (Hothers1 b tb) as (tb' & Hb' & Heq).
      { reduce_world. by rewrite lookup_insert_ne. }
      exists tb'. split; [ done | ].
      apply (f_equal task_event) in Heq. done.
    - by exists new. }
  unfold NGX_OK in *. destruct (rc =? 0); cbn [negb]; apply Hret.
Qed.

(** X18. A post that passes the checks, run alone on an intake queue that
    holds the tasks [l], puts the task at the end of the queue: the queue
    then holds [l] followed by the task; the task bears the pool's
    task-id counter as its id, its event is active and its link is
    [NULL]; the counter is one more (modulo the word size); the semaphore
    is posted; the completion queue is untouched; no task's work is run
    and no completion handler is called. The status is [NGX_OK] when the
    semaphore accepted the post, and [NGX_ERROR] when it did not: in that
    case the task is in the queue and active all the same. *)
Theorem post_alone_appends (task : addr) (t : ngx_thread_pool_task_t)
    (count : Z) (l : list addr) (w : world) :
  tasks (w_mem w) !! task = Some t ->
  active (task_event t) = false ->
  ngx_sem_getvalue (tp_sem (pool (w_mem w))) = (NGX_OK, count) ->
  count < to_ngx_int (tp_max_queue (pool (w_mem w))) ->
  queue_holds QIn (w_mem w) l ->
  task ∉ l ->
  exists w' new,
    ngx_thread_pool_task_post no_interference task w
    = Some (if (ngx_sem_post (tp_sem (pool (w_mem w)))).1 =? NGX_OK
            then NGX_OK else NGX_ERROR, w')
    /\ queue_holds QIn (w_mem w') (l ++ [task])
    /\ tasks (w_mem w') !! task
       = Some (task_set_next None
                 (task_set_id (tp_task_id (pool (w_mem w)))
                    (task_set_event (set_active true (task_event t)) t)))
    /\ tp_task_id (pool (w_mem w'))
       = to_ngx_uint (tp_task_id (pool (w_mem w)) + 1)
    /\ tp_sem (pool (w_mem w'))
       = (ngx_sem_post (tp_sem (pool (w_mem w)))).2
    /\ tp_out (pool (w_mem w')) = tp_out (pool (w_mem w))
    /\ w_trace w' = w_trace w ++ new
    /\ task_runs new = []
    /\ handler_calls new = [].
Proof.
  intros Ht Hactive Hsem Hroom Hq Hfresh.
  destruct (post_effect task t count l w Ht Hactive Hsem Hroom Hq Hfresh)
    as (rc & w' & Hrun & -> & Hq' & Ht' & Hid & Hs & Hout & _ & _ & _ & new
        & Htr & Hst).
  exists w', new. split_and!; try done.
  - by apply only_stores_no_runs.
  - by apply only_stores_no_calls.
Qed.

(** *** [ngx_thread_pool_task_post], whatever the other threads do *)





(** *** A worker takes a task *)

Lemma runs_cmp_set_first_alone q old set Q w :
  first (queue_of q (pool (w_mem w))) = old ->
  Q true (with_obs (StoreCell (FirstOf q) set)
            (with_mem (with_pool (with_first q set (pool (w_mem w)))
                         (w_mem w)) (ticked w))) ->
  runs (ngx_atomic_cmp_set_first no_interference q old set) Q w.
Proof.
  intros Hold HQ. unfold ngx_atomic_cmp_set_first.
  apply runs_bind, runs_others_run. unfold no_interference.
  apply runs_bind, runs_load_first. reduce_world.
  case_decide as Hd; [ | done ].
  apply runs_bind, runs_store_first. by apply runs_ret.
Qed.

Lemma dequeue_effect (fuel : nat) (a : addr) (l : list addr) (w : world) :
  queue_holds QIn (w_mem w) (a :: l) ->
  runs (ngx_thread_pool_cycle_dequeue no_interference (S fuel))
    (fun r w' =>
       r = a
       /\ queue_holds QIn (w_mem w') l
       /\ tasks (w_mem w') = tasks (w_mem w)
       /\ set_queue QIn (tp_in (pool (w_mem w))) (pool (w_mem w'))
          = pool (w_mem w)
       /\ exists new, w_trace w' = w_trace w ++ new /\ only_stores new)
    w.
Proof.
  intros [[Hfirst (ta & Ha & Hrest)] Hlast].
  cbn [ngx_thread_pool_cycle_dequeue].
  apply runs_bind, runs_load_first. rewrite Hfirst.
  apply runs_bind. eapply runs_load_task; [ exact Ha | ].
  apply runs_bind. apply runs_cmp_set_first_alone; [ done | ].
  cbn [negb]. apply runs_bind, runs_load_first. reduce_world.
  rewrite queue_of_with_first. cbn [first].
  destruct l as [ | b l ].
  - cbn [queue_seg] in Hrest. rewrite Hrest.
    apply runs_bind, runs_load_last_p. reduce_world.
    rewrite queue_of_with_first. cbn [last_p]. rewrite Hlast.
    unfold queue_tail. cbn [last].
    apply runs_bind.
    case_decide as Hd; [ done | clear Hd ].
    apply runs_bind.
    apply runs_cmp_set_last_p_alone.
    { reduce_world. rewrite queue_of_with_first. cbn [last_p].
      by rewrite Hlast. }
    apply runs_ret. cbn [negb]. apply runs_ret. reduce_world.
    split_and!; [ done | | done | | ].
    + split; reduce_world.
      * by rewrite queue_of_with_last_p, queue_of_with_first.
      * by rewrite queue_of_with_last_p.
    + rewrite set_queue_with_last_p, set_queue_with_first.
      apply (set_queue_same QIn).
    + eexists. rewrite <- app_assoc. split; [ reflexivity | done ].
  - destruct Hrest as [Hnext Hrest]. rewrite Hnext.
    apply runs_ret. reduce_world.
    split_and!; [ done | | done | | ].
    + split; reduce_world.
      * rewrite queue_of_with_first. cbn [first]. rewrite <- Hnext.
        by split.
      * rewrite queue_of_with_first. cbn [last_p]. by rewrite Hlast.
    + rewrite set_queue_with_first. apply (set_queue_same QIn).
    + eexists. split; [ reflexivity | done ].
Qed.

(** X20. The intake queue is first in, first out: a worker that runs
    alone on a queue holding [a] followed by [l] takes [a] at its first
    attempt and leaves the queue holding [l]; it writes to no task and to
    nothing in the pool but the intake queue. *)
Theorem dequeue_alone_takes_head (fuel : nat) (a : addr) (l : list addr)
    (w : world) :
  queue_holds QIn (w_mem w) (a :: l) ->
  exists w',
    ngx_thread_pool_cycle_dequeue no_interference (S fuel) w
    = Some (a, w')
    /\ queue_holds QIn (w_mem w') l
    /\ tasks (w_mem w') = tasks (w_mem w)
    /\ set_queue QIn (tp_in (pool (w_mem w))) (pool (w_mem w'))
       = pool (w_mem w).
Proof.
  intros Hq.
  destruct (dequeue_effect fuel a l w Hq)
    as (r & w' & Hrun & -> & Hq' & Htasks & Hpool & _).
  exists w'. by split_and!.
Qed.

(** Left alone on an empty intake queue, a worker does not return. *)
Lemma dequeue_empty_alone (fuel : nat) (w : world) :
  first (tp_in (pool (w_mem w))) = None ->
  ngx_thread_pool_cycle_dequeue no_interference fuel w = None.
Proof.
  revert w. induction fuel as [ | fuel IH ]; intros w Hempty; [ done | ].
  cbn [ngx_thread_pool_cycle_dequeue].
  cbv [bind load_first load_pool load_mem ret others_run no_interference].
  cbn [queue_of w_mem]. rewrite Hempty.
  by apply IH.
Qed.

(** *** A worker and a post that comes while it waits *)

Lemma runs_cmp_set_first_quiet interfere q old set Q w :
  interfere (w_tick w) (w_mem w) = w_mem w ->
  first (queue_of q (pool (w_mem w))) = old ->
  Q true (with_obs (StoreCell (FirstOf q) set)
            (with_mem (with_pool (with_first q set (pool (w_mem w)))
                         (w_mem w)) (ticked w))) ->
  runs (ngx_atomic_cmp_set_first interfere q old set) Q w.
Proof.
  intros Hquiet Hold HQ. unfold ngx_atomic_cmp_set_first.
  apply runs_bind, runs_others_run. rewrite Hquiet.
  apply runs_bind, runs_load_first. reduce_world.
  case_decide as Hd; [ | done ].
  apply runs_bind, runs_store_first. by apply runs_ret.
Qed.

Lemma runs_cmp_set_last_p_quiet interfere q old set Q w :
  interfere (w_tick w) (w_mem w) = w_mem w ->
  last_p (queue_of q (pool (w_mem w))) = old ->
  Q true (with_obs (StoreLastP q set)
            (with_mem (with_pool (with_last_p q set (pool (w_mem w)))
                         (w_mem w)) (ticked w))) ->
  runs (ngx_atomic_cmp_set_last_p interfere q old set) Q w.
Proof.
  intros Hquiet Hold HQ. eexists true, _. split; [ | exact HQ ].
  cbv [ngx_atomic_cmp_set_last_p bind others_run load_last_p
       load_pool load_mem ret].
  cbn [w_mem w_tick]. rewrite Hquiet, Hold. by case_decide.
Qed.

Lemma dequeue_quiet_effect interfere (fuel : nat) (a : addr)
    (l : list addr) (w : world) :
  (forall m, interfere (w_tick w) m = m) ->
  (forall m, interfere (S (w_tick w)) m = m) ->
  queue_holds QIn (w_mem w) (a :: l) ->
  runs (ngx_thread_pool_cycle_dequeue interfere (S fuel))
    (fun r w' =>
       r = a
       /\ queue_holds QIn (w_mem w') l
       /\ tasks (w_mem w') = tasks (w_mem w)
       /\ set_queue QIn (tp_in (pool (w_mem w))) (pool (w_mem w'))
          = pool (w_mem w)
       /\ (w_tick w < w_tick w')%nat
       /\ exists new,
            w_trace w' = w_trace w ++ new
            /\ handler_calls new = [] /\ task_runs new = [])
    w.
Proof.
  intros Hq0 Hq1 [[Hfirst (ta & Ha & Hrest)] Hlast].
  cbn [ngx_thread_pool_cycle_dequeue].
  apply runs_bind, runs_load_first. rewrite Hfirst.
  apply runs_bind. eapply runs_load_task; [ exact Ha | ].
  apply runs_bind. apply runs_cmp_set_first_quiet; [ done | done | ].
  cbn [negb]. apply runs_bind, runs_load_first. reduce_world.
  rewrite queue_of_with_first. cbn [first].
  destruct l as [ | b l ].
  - cbn [queue_seg] in Hrest. rewrite Hrest.
    apply runs_bind, runs_load_last_p. reduce_world.
    rewrite queue_of_with_first. cbn [last_p]. rewrite Hlast.
    unfold queue_tail. cbn [last].
    apply runs_bind.
    case_decide as Hd; [ done | clear Hd ].
    apply runs_bind.
    apply runs_cmp_set_last_p_quiet.
    { reduce_world. apply Hq1. }
    { reduce_world. rewrite queue_of_with_first. cbn [last_p].
      by rewrite Hlast. }
    apply runs_ret. cbn [negb]. apply runs_ret. reduce_world.
    split_and!; [ done | | done | | lia | ].
    + split; reduce_world.
      * by rewrite queue_of_with_last_p, queue_of_with_first.
      * by rewrite queue_of_with_last_p.
    + rewrite set_queue_with_last_p, set_queue_with_first.
      apply (set_queue_same QIn).
    + eexists. rewrite <- app_assoc. split; [ reflexivity | done ].
  - destruct Hrest as [Hnext Hrest]. rewrite Hnext.
    apply runs_ret. reduce_world.
    split_and!; [ done | | done | | lia | ].
    + split; reduce_world.
      * rewrite queue_of_with_first. cbn [first]. rewrite <- Hnext.
        by split.
      * rewrite queue_of_with_first. cbn [last_p]. by rewrite Hlast.
    + rewrite set_queue_with_first. apply (set_queue_same QIn).
    + eexists. split; [ reflexivity | done ].
Qed.

(** While the queue is empty and the other threads leave the memory as
    it is, each round of the loop is a yield. *)
Lemma dequeue_empty_rounds interfere (n fuel : nat) (w : world) :
  first (tp_in (pool (w_mem w))) = None ->
  (forall k, (k < n)%nat -> interfere (w_tick w + k)%nat (w_mem w) = w_mem w) ->
  ngx_thread_pool_cycle_dequeue interfere (n + fuel) w
  = ngx_thread_pool_cycle_dequeue interfere fuel
      {| w_mem := w_mem w; w_tick := (w_tick w + n)%nat;
         w_trace := w_trace w |}.
Proof.
  revert w. induction n as [ | n IH ]; intros w Hempty Hquiet.
  - rewrite Nat.add_0_r. by destruct w.
  - cbn [Nat.add ngx_thread_pool_cycle_dequeue].
    cbv [bind load_first load_pool load_mem ret others_run].
    cbn [queue_of w_mem]. rewrite Hempty.
    specialize (Hquiet 0%nat ltac:(lia)) as Hnow.
    rewrite Nat.add_0_r in Hnow. rewrite Hnow.
    rewrite IH; cbn [w_mem w_tick w_trace].
    + by rewrite Nat.add_succ_r.
    + done.
    + intros k Hk. rewrite Nat.add_succ_l, <- Nat.add_succ_r.
      apply Hquiet. lia.
Qed.

(** X21. A worker that finds the intake queue empty yields and looks
    again. Left alone, it does not return a task, however long it is
    left to run. And when the other threads leave the memory as it is
    during [n] of its yields, have posted by the end of the next one, so
    that the intake queue holds [a] followed by [l], and do not run
    after that, the worker returns [a] and leaves the queue holding [l],
    with the tasks as the post left them. *)
Theorem dequeue_empty_waits_for_post (w : world) :
  first (tp_in (pool (w_mem w))) = None ->
  (forall fuel, ngx_thread_pool_cycle_dequeue no_interference fuel w = None)
  /\ (forall interfere (n fuel : nat) (a : addr) (l : list addr),
        (forall k, (k < n)%nat ->
           interfere (w_tick w + k)%nat (w_mem w) = w_mem w) ->
        queue_holds QIn (interfere (w_tick w + n)%nat (w_mem w)) (a :: l) ->
        (forall k m, (n < k)%nat -> interfere (w_tick w + k)%nat m = m) ->
        exists w',
          ngx_thread_pool_cycle_dequeue interfere (S n + S fuel) w
          = Some (a, w')
          /\ queue_holds QIn (w_mem w') l
          /\ tasks (w_mem w')
             = tasks (interfere (w_tick w + n)%nat (w_mem w))
          /\ (w_tick w + n < w_tick w')%nat).
Proof.
  intros Hempty. split.
  - intros fuel. by apply dequeue_empty_alone.
  - intros interfere n fuel a l Hquiet Hposted Hafter.
    replace (S n + S fuel)%nat with (n + S (S fuel))%nat by lia.
    rewrite dequeue_empty_rounds by done.
    cbn [ngx_thread_pool_cycle_dequeue].
    cbv [bind load_first load_pool load_mem ret others_run].
    cbn [queue_of w_mem w_tick w_trace]. rewrite Hempty.
    set (w1 := {| w_mem := interfere (w_tick w + n)%nat (w_mem w);
                  w_tick := S (w_tick w + n); w_trace := w_trace w |}).
    destruct (dequeue_quiet_effect interfere fuel a l w1)
      as (r & w' & Hrun & -> & Hq' & Htasks & _ & Htick & _).
    + intros m. cbn [w1 w_tick]. rewrite <- Nat.add_succ_r.
      apply Hafter. lia.
    + intros m. cbn [w1 w_tick]. rewrite <- !Nat.add_succ_r.
      apply Hafter. lia.
    + done.
    + exists w'. cbn [w1 w_tick] in Htick. split_and!; [ done | done | done | lia ].
Qed.
(** *** A worker hands a task back *)

Lemma cycle_enqueue_effect fuel task t l w :
  queue_holds QOut (w_mem w) l ->
  tasks (w_mem w) !! task = Some t -> task_next t = None -> task ∉ l ->
  runs (ngx_thread_pool_cycle_enqueue no_interference (S fuel) task)
    (fun _ w' =>
       (queue_holds QOut (w_mem w') (l ++ [task])
        /\ set_queue QOut (tp_out (pool (w_mem w))) (pool (w_mem w'))
           = pool (w_mem w)
        /\ tasks (w_mem w') !! task = Some t
        /\ (forall a ta, tasks (w_mem w) !! a = Some ta ->
              exists ta', tasks (w_mem w') !! a = Some ta'
                          /\ task_set_next (task_next ta) ta' = ta)
        /\ (forall p l', (forall b, last l = Some b -> b ∉ l') ->
              queue_seg (tasks (w_mem w)) p l' ->
              queue_seg (tasks (w_mem w')) p l'))
       /\ exists new, w_trace w' = w_trace w ++ new /\ only_stores new)
    w.
Proof.
  intros Hq Ht Hnext Hfresh.
  destruct (spec_enqueue_effect QOut task t l w Hq Ht Hnext Hfresh)
    as ([] & ws & Hspec & H1 & H2 & H3 & H4 & H5 & _).
  pose proof (cycle_enqueue_alone fuel task w) as Hmem.
  rewrite Hspec in Hmem.
  assert (runs (ngx_thread_pool_cycle_enqueue no_interference (S fuel) task)
            (fun _ w' =>
               exists new,
                 w_trace w' = w_trace w ++ new /\ only_stores new) w)
    as ([] & w' & Hrun & new & Htrace & Hstores).
  { destruct Hq as [Hseg Hlast].
    cbn [ngx_thread_pool_cycle_enqueue].
    apply runs_bind, runs_load_last_p.
    apply runs_bind, runs_cmp_set_last_p_alone; [ done | ].
    rewrite Hlast. unfold queue_tail.
    destruct (last l) as [b | ] eqn:Hl.
    - assert (b ∈ l) as Hbin by (by apply last_elem_of).
      destruct (queue_seg_allocated _ _ _ _ Hseg Hbin) as [tb Hb].
      eapply runs_store_through_next; [ exact Hb | ]. reduce_world.
      eexists. rewrite <- app_assoc. split; [ reflexivity | done ].
    - apply runs_store_through_first, runs_store_first. reduce_world.
      eexists. rewrite <- app_assoc. split; [ reflexivity | done ]. }
  exists tt, w'. split; [ done | ].
  rewrite Hrun in Hmem. cbn [final_mem] in Hmem. injection Hmem as ->.
  split; [ by split_and! | ]. by exists new.
Qed.

Lemma cycle_complete_effect (fuel : nat) (task : addr)
    (t : ngx_thread_pool_task_t) (l : list addr) (w : world) :
  queue_holds QOut (w_mem w) l ->
  tasks (w_mem w) !! task = Some t ->
  task ∉ l ->
  runs (ngx_thread_pool_cycle_complete no_interference (S fuel) task)
    (fun _ w' =>
       queue_holds QOut (w_mem w') (l ++ [task])
       /\ set_queue QOut (tp_out (pool (w_mem w))) (pool (w_mem w'))
          = pool (w_mem w)
       /\ tasks (w_mem w') !! task = Some (task_set_next None t)
       /\ (forall p l', task ∉ l' ->
             (forall b, last l = Some b -> b ∉ l') ->
             queue_seg (tasks (w_mem w)) p l' ->
             queue_seg (tasks (w_mem w')) p l')
       /\ exists new,
            w_trace w' = w_trace w ++ new ++ [SignalNotify]
            /\ only_stores new)
    w.
Proof.
  intros Hq Ht Hfresh.
  unfold ngx_thread_pool_cycle_complete.
  apply runs_bind. eapply runs_update_task; [ exact Ht | ].
  apply runs_bind. eapply runs_weaken.
  { apply (cycle_enqueue_effect fuel task (task_set_next None t) l);
      reduce_world.
    - destruct Hq as [Hseg Hlast]. split; reduce_world; [ | done ].
      by apply queue_seg_insert_other.
    - apply lookup_insert_eq.
    - done.
    - done. }
  reduce_world.
  intros _ w1 ((Hq1 & Hpool1 & Htask1 & _ & Hchains) & new & Htrace
               & Hstores).
  apply runs_emit. reduce_world.
  split_and!; try done.
  - intros p l' Hfresh' Hlast' Hseg. apply Hchains; [ done | ].
    reduce_world. by apply queue_seg_insert_other.
  - exists new. by rewrite Htrace, app_assoc.
Qed.

(** X22. A worker that has run a task hands it back: whatever the task's
    link held, [ngx_thread_pool_cycle], run alone on a completion queue
    that holds [l], leaves it holding [l] followed by the task, touches
    nothing else in the pool, and then signals the event loop, once. *)
Theorem cycle_complete_appends (fuel : nat) (task : addr)
    (t : ngx_thread_pool_task_t) (l : list addr) (w : world) :
  queue_holds QOut (w_mem w) l ->
  tasks (w_mem w) !! task = Some t ->
  task ∉ l ->
  exists w' new,
    ngx_thread_pool_cycle_complete no_interference (S fuel) task w
    = Some (tt, w')
    /\ queue_holds QOut (w_mem w') (l ++ [task])
    /\ set_queue QOut (tp_out (pool (w_mem w))) (pool (w_mem w'))
       = pool (w_mem w)
    /\ tasks (w_mem w') !! task = Some (task_set_next None t)
    /\ w_trace w' = w_trace w ++ new ++ [SignalNotify]
    /\ only_stores new.
Proof.
  intros Hq Ht Hfresh.
  destruct (cycle_complete_effect fuel task t l w Hq Ht Hfresh)
    as ([] & w' & Hrun & Hq' & Hpool & Htask & _ & new & Htrace & Hstores).
  exists w', new. by split_and!.
Qed.

(** *** One turn of a worker *)

Section WorkerTurn.
Variable task_work : Z -> Z -> mem -> mem.

Lemma runs_run_task task t Q w :
  tasks (w_mem w) !! task = Some t ->
  Q tt (with_mem (task_work (task_handler t) (task_ctx t) (w_mem w))
          (with_obs (RunTask task (task_ctx t)) w)) ->
  runs (run_task task_work task) Q w.
Proof.
  intros Ht HQ. eexists tt, _. split; [ | exact HQ ].
  cbv [run_task bind load_task load_mem emit store_mem]. by rewrite Ht.
Qed.

Lemma worker_turn_effect (fuel : nat) (a : addr)
    (l l' : list addr) (sem' : ngx_sem_t) (w : world) :
  work_keeps_links task_work ->
  ngx_sem_wait (tp_sem (pool (w_mem w))) = Some (NGX_OK, sem') ->
  queue_holds QIn (w_mem w) (a :: l) ->
  queue_holds QOut (w_mem w) l' ->
  (forall b, b ∈ l' -> b ∉ a :: l) ->
  runs (ngx_thread_pool_cycle_turn no_interference task_work (S fuel))
    (fun r w' =>
       r = true
       /\ queue_holds QIn (w_mem w') l
       /\ queue_holds QOut (w_mem w') (l' ++ [a])
       /\ tp_sem (pool (w_mem w')) = sem'
       /\ exists ta stores1 stores2,
            tasks (w_mem w) !! a = Some ta
            /\ w_trace w'
               = w_trace w ++ stores1 ++ [RunTask a (task_ctx ta)]
                   ++ stores2 ++ [SignalNotify]
            /\ only_stores stores1 /\ only_stores stores2) w.
Proof.
  intros Hwork Hwait Hin Hout Hdisj.
  pose proof Hin as [[_ (ta & Ha & _)] _].
  assert (a ∉ l) as Hal.
  { destruct Hin as [Hseg _]. by apply queue_seg_head_fresh in Hseg. }
  assert (a ∉ l') as Hal'.
  { intros Hin'. apply (Hdisj a Hin'). set_solver. }
  unfold ngx_thread_pool_cycle_turn.
  apply runs_bind, runs_load_pool. rewrite Hwait.
  apply runs_bind, runs_store_pool. cbn [negb Z.eqb NGX_OK].
  apply runs_bind. eapply runs_weaken.
  { apply (dequeue_effect fuel a l). reduce_world.
    destruct Hin as [Hseg Hlast]. by split. }
  reduce_world.
  intros r w1 (-> & Hin1 & Htasks1 & Hpool1 & s1 & Htr1 & Hs1).
  assert (tp_out (pool (w_mem w1)) = tp_out (pool (w_mem w))) as Hout1.
  { apply (f_equal tp_out) in Hpool1. done. }
  assert (tp_sem (pool (w_mem w1)) = sem') as Hsem1.
  { apply (f_equal tp_sem) in Hpool1. done. }
  apply runs_bind. eapply runs_run_task; [ by rewrite Htasks1 | ].
  destruct (Hwork (task_handler ta) (task_ctx ta) (w_mem w1))
    as [Hpool2 Hchains2].
  set (m2 := task_work (task_handler ta) (task_ctx ta) (w_mem w1)) in *.
  assert (queue_holds QIn m2 l) as Hin2.
  { destruct Hin1 as [Hseg Hlast]. split.
    - rewrite Hpool2. by apply Hchains2.
    - by rewrite Hpool2. }
  assert (queue_holds QOut m2 l') as Hout2.
  { destruct Hout as [Hseg Hlast]. split.
    - rewrite Hpool2. cbn [queue_of]. rewrite Hout1. apply Hchains2.
      by rewrite Htasks1.
    - rewrite Hpool2. cbn [queue_of]. by rewrite Hout1. }
  assert (is_Some (tasks m2 !! a)) as [ta2 Ha2].
  { destruct Hin as [Hseg _].
    rewrite <- Htasks1 in Hseg. apply Hchains2 in Hseg.
    destruct Hseg as [_ (t2 & Ht2 & _)]. by eexists. }
  apply runs_bind. eapply runs_weaken.
  { apply (cycle_complete_effect fuel a ta2 l'); reduce_world; done. }
  reduce_world.
  intros _ w3 (Hout3 & Hpool3 & _ & Hchains3 & s2 & Htr3 & Hs2).
  apply runs_ret. split_and!; try done.
  - destruct Hin2 as [Hseg Hlast]. split.
    + apply (f_equal tp_in) in Hpool3. cbn in Hpool3. cbn [queue_of].
      rewrite Hpool3. apply Hchains3; [ done | | done ].
      intros b Hb Hbl. apply last_elem_of in Hb.
      apply (Hdisj b Hb). set_solver.
    + apply (f_equal tp_in) in Hpool3. cbn in Hpool3. cbn [queue_of].
      by rewrite Hpool3.
  - apply (f_equal tp_sem) in Hpool3. cbn in Hpool3. rewrite Hpool3.
    by rewrite Hpool2.
  - exists ta, s1, s2. split_and!; try done.
    rewrite Htr3. reduce_world. rewrite Htr1.
    by rewrite <- !app_assoc.
Qed.

(** X23. One turn of a worker, run alone, moves the head of the intake
    queue to the end of the completion queue. With a semaphore that lets
    the worker through, an intake queue holding [a] followed by [l], a
    completion queue holding [l'], no task in both, and work that leaves
    the pool and the task links alone: the turn returns; it has run the
    handler of [a] once, on the payload of [a], then signalled the event
    loop once; the intake queue holds [l] and the completion queue [l']
    followed by [a]. *)
Theorem worker_turn_moves_task (fuel : nat) (a : addr)
    (l l' : list addr) (sem' : ngx_sem_t) (w : world) :
  work_keeps_links task_work ->
  ngx_sem_wait (tp_sem (pool (w_mem w))) = Some (NGX_OK, sem') ->
  queue_holds QIn (w_mem w) (a :: l) ->
  queue_holds QOut (w_mem w) l' ->
  (forall b, b ∈ l' -> b ∉ a :: l) ->
  exists w' ta stores1 stores2,
    tasks (w_mem w) !! a = Some ta
    /\ ngx_thread_pool_cycle_turn no_interference task_work (S fuel) w
       = Some (true, w')
    /\ queue_holds QIn (w_mem w') l
    /\ queue_holds QOut (w_mem w') (l' ++ [a])
    /\ tp_sem (pool (w_mem w')) = sem'
    /\ w_trace w'
       = w_trace w ++ stores1 ++ [RunTask a (task_ctx ta)] ++ stores2
           ++ [SignalNotify]
    /\ only_stores stores1 /\ only_stores stores2.
Proof.
  intros Hwork Hwait Hin Hout Hdisj.
  destruct (worker_turn_effect fuel a l l' sem' w Hwork Hwait Hin Hout
              Hdisj)
    as (r & w' & Hrun & -> & Hin' & Hout' & Hsem' & ta & s1 & s2 & Ha & Htr
        & H1 & H2).
  exists w', ta, s1, s2. by split_and!.
Qed.

End WorkerTurn.

(** *** The handler and an append in progress *)

(** One round of the handler's loop on a completion queue whose first
    task has a pending append behind it. *)
Lemma handler_loop_pending_append
    (interfere : nat -> mem -> mem)
    (event_handler : Z -> addr -> mem -> mem) (fuel : nat) (task : addr)
    (t : ngx_thread_pool_task_t) (w : world) :
  first (tp_out (pool (w_mem w))) = Some task ->
  tasks (w_mem w) !! task = Some t ->
  task_next t = None ->
  last_p (tp_out (pool (w_mem w))) <> Some (NextOf task) ->
  ngx_thread_pool_handler_loop interfere event_handler (S fuel) w
  = Some (tt,
          {| w_mem := w_mem w; w_tick := w_tick w;
             w_trace := w_trace w
                        ++ [StoreCell (FirstOf QOut) None;
                            StoreCell (FirstOf QOut) (Some task)] |}).
Proof.
  intros Hfirst Ht Hnext Hlp.
  enough (runs (ngx_thread_pool_handler_loop interfere event_handler
                  (S fuel))
            (fun _ w' =>
               w' = {| w_mem := w_mem w; w_tick := w_tick w;
                       w_trace := w_trace w
                                  ++ [StoreCell (FirstOf QOut) None;
                                      StoreCell (FirstOf QOut)
                                        (Some task)] |}) w)
    as ([] & w' & Hrun & ->); [ done | ].
  cbn [ngx_thread_pool_handler_loop].
  apply runs_bind, runs_load_first. cbn [queue_of]. rewrite Hfirst.
  apply runs_bind. eapply runs_load_task; [ exact Ht | ]. rewrite Hnext.
  apply runs_bind, runs_store_first.
  apply runs_bind, runs_load_first. reduce_world.
  rewrite queue_of_with_first. cbn [first].
  apply runs_bind. apply runs_bind, runs_load_last_p. reduce_world.
  rewrite queue_of_with_first. cbn [last_p queue_of].
  case_decide as Hd; [ | done ].
  apply runs_ret, runs_store_first. reduce_world.
  destruct w as [[tp ts] tick tr]. cbn [w_mem w_tick w_trace pool tasks] in *.
  unfold with_obs, with_mem, with_pool.
  cbn [w_mem w_tick w_trace pool tasks].
  rewrite <- app_assoc. cbn [app]. do 2 f_equal.
  destruct tp as [sem id qin [fo lo] name th mq file line].
  cbn in *. by rewrite Hfirst.
Qed.

(** X24. The handler does not take a task that a worker is appending
    after. When the completion queue starts at a task whose link is still
    [NULL] while [last_p] already points elsewhere (a worker has claimed
    the tail and not yet stored its task through the link), and no other
    thread runs during the call, [ngx_thread_pool_handler] re-arms the
    notification if it has to, writes [NULL] to [first], writes the task
    back, and returns: no completion handler is called and the memory is
    what it was. *)
Theorem handler_waits_for_pending_append
    (event_handler : Z -> addr -> mem -> mem) (have_handle_notify : bool)
    (fuel : nat) (task : addr) (t : ngx_thread_pool_task_t) (w : world) :
  first (tp_out (pool (w_mem w))) = Some task ->
  tasks (w_mem w) !! task = Some t ->
  task_next t = None ->
  last_p (tp_out (pool (w_mem w))) <> Some (NextOf task) ->
  ngx_thread_pool_handler no_interference event_handler have_handle_notify
    (S fuel) w
  = Some (tt,
          {| w_mem := w_mem w; w_tick := w_tick w;
             w_trace := w_trace w
                        ++ (if have_handle_notify then [HandleNotify]
                            else [])
                        ++ [StoreCell (FirstOf QOut) None;
                            StoreCell (FirstOf QOut) (Some task)] |}).
Proof.
  intros Hfirst Ht Hnext Hlp.
  unfold ngx_thread_pool_handler, bind.
  destruct have_handle_notify; cbn [emit ret].
  - rewrite (handler_loop_pending_append no_interference event_handler fuel
               task t) by done.
    cbn [w_mem w_tick w_trace]. by rewrite <- app_assoc.
  - by rewrite (handler_loop_pending_append no_interference event_handler
                  fuel task t).
Qed.

(** *** A task goes through the pool *)


(** *** Races between the event loop and a worker *)

(** X26. A post that races with the dequeue of the last task starts the
    queue anew. When the event loop has read a tail [last_p] that is the
    link of a task, and a worker takes that last task before the
    compare-and-set (so that the queue is empty by then), the
    compare-and-set fails and the post stores the task into [first] and
    its link into [last_p]: the intake queue holds exactly the new
    task. *)
Theorem post_enqueue_after_racing_dequeue (interfere : nat -> mem -> mem)
    (task b : addr) (t : ngx_thread_pool_task_t) (w : world) :
  last_p (tp_in (pool (w_mem w))) = Some (NextOf b) ->
  queue_holds QIn (interfere (w_tick w) (w_mem w)) [] ->
  tasks (interfere (w_tick w) (w_mem w)) !! task = Some t ->
  task_next t = None ->
  exists w',
    ngx_thread_pool_task_post_enqueue interfere task w = Some (tt, w')
    /\ queue_holds QIn (w_mem w') [task]
    /\ tasks (w_mem w') = tasks (interfere (w_tick w) (w_mem w))
    /\ w_trace w'
       = w_trace w ++ [StoreCell (FirstOf QIn) (Some task);
                       StoreLastP QIn (Some (NextOf task))].
Proof.
  intros Hlp [Hseg Hlast] Ht Hnext.
  enough (runs (ngx_thread_pool_task_post_enqueue interfere task)
            (fun _ w' =>
               queue_holds QIn (w_mem w') [task]
               /\ tasks (w_mem w') = tasks (interfere (w_tick w) (w_mem w))
               /\ w_trace w'
                  = w_trace w ++ [StoreCell (FirstOf QIn) (Some task);
                                  StoreLastP QIn (Some (NextOf task))]) w)
    as ([] & w' & Hrun & Hrest).
  { by exists w'. }
  unfold ngx_thread_pool_task_post_enqueue.
  apply runs_bind, runs_load_last_p. cbn [queue_of]. rewrite Hlp.
  apply runs_bind.
  case_decide as Hd; [ done | clear Hd ].
  apply runs_bind. unfold ngx_atomic_cmp_set_last_p.
  apply runs_bind, runs_others_run.
  apply runs_bind, runs_load_last_p. reduce_world.
  rewrite Hlast. unfold queue_tail. cbn [last].
  case_decide as Hd; [ done | clear Hd ].
  apply runs_ret, runs_ret. cbn [negb].
  apply runs_bind, runs_store_first. apply runs_store_last_p.
  reduce_world. split_and!.
  - split; reduce_world.
    + rewrite queue_of_with_last_p, queue_of_with_first. cbn [first].
      split; [ done | ]. exists t. by rewrite Hnext.
    + by rewrite queue_of_with_last_p.
  - done.
  - by rewrite <- app_assoc.
Qed.

(** X27. A worker does not take a task that the event loop is appending
    after. When the intake queue starts at a task whose link is still
    [NULL] while [last_p] already points elsewhere (a post has claimed
    the tail and not yet stored its task through the link), and the
    other threads do nothing from the worker's read of [first] until it
    yields, the worker clears [first], finds the append pending, writes
    the task back, yields, and starts over from the state the other
    threads leave during the yield. *)
Theorem dequeue_waits_for_pending_append (interfere : nat -> mem -> mem)
    (fuel : nat) (a : addr) (ta : ngx_thread_pool_task_t) (w : world) :
  first (tp_in (pool (w_mem w))) = Some a ->
  tasks (w_mem w) !! a = Some ta ->
  task_next ta = None ->
  last_p (tp_in (pool (w_mem w))) <> Some (NextOf a) ->
  interfere (w_tick w) (w_mem w) = w_mem w ->
  ngx_thread_pool_cycle_dequeue interfere (S fuel) w
  = ngx_thread_pool_cycle_dequeue interfere fuel
      {| w_mem := interfere (S (w_tick w)) (w_mem w);
         w_tick := S (S (w_tick w));
         w_trace := w_trace w
                    ++ [StoreCell (FirstOf QIn) None;
                        StoreCell (FirstOf QIn) (Some a)] |}.
Proof.
  intros Hfirst Ha Hnext Hlp Hquiet.
  destruct w as [[tp ts] tick tr].
  destruct tp as [sem id [fi li] qout name th mq file line].
  cbn [w_mem w_tick w_trace pool tasks tp_in first last_p] in *. subst fi.
  cbn [ngx_thread_pool_cycle_dequeue].
  cbv [bind load_first load_pool load_mem ret load_task
       ngx_atomic_cmp_set_first others_run].
  cbn [w_mem w_tick w_trace pool tasks queue_of tp_in first last_p].
  rewrite Ha.
  cbn [w_mem w_tick w_trace pool tasks queue_of tp_in first last_p].
  rewrite Hquiet.
  cbn [w_mem w_tick w_trace pool tasks queue_of tp_in first last_p].
  case_decide as Hd; [ clear Hd | done ].
  cbv [store_first bind load_pool load_mem ret store_pool store_mem emit
       load_last_p load_first load_task others_run].
  cbn [w_mem w_tick w_trace pool tasks negb queue_of set_queue tp_in
       tp_set_in first last_p].
  rewrite Hnext.
  case_decide as Hd; [ clear Hd | done ].
  cbn [w_mem w_tick w_trace pool tasks negb queue_of set_queue tp_in
       tp_set_in first last_p tp_sem tp_task_id tp_out tp_name tp_threads
       tp_max_queue tp_file tp_line].
  rewrite Ha, Hnext.
  cbn [w_mem w_tick w_trace pool tasks negb queue_of set_queue tp_in
       tp_set_in first last_p tp_sem tp_task_id tp_out tp_name tp_threads
       tp_max_queue tp_file tp_line].
  by rewrite <- app_assoc.
Qed.

End MorePoolFacts.

(** *** Many tasks, one worker: first in, first out *)

Section Fifo.
Implicit Types w : @world counting_semaphore.

(** Tasks that can be posted: allocated, with an event that is not
    active. *)
Lemma post_each_effect (l : list addr) :
  forall (l0 : list addr) (c : Z) w,
    tp_sem (pool (w_mem w)) = Some c ->
    queue_holds QIn (w_mem w) l0 ->
    NoDup (l0 ++ l) ->
    Forall (fun a => exists t, tasks (w_mem w) !! a = Some t
                               /\ active (task_event t) = false) l ->
    c + Z.of_nat (length l) <= tp_max_queue (pool (w_mem w)) ->
    tp_max_queue (pool (w_mem w)) < 2 ^ 63 ->
    0 <= c ->
    runs (post_each no_interference l)
      (fun rcs w' =>
         rcs = replicate (length l) NGX_OK
         /\ queue_holds QIn (w_mem w') (l0 ++ l)
         /\ tp_sem (pool (w_mem w')) = Some (c + Z.of_nat (length l))
         /\ tp_out (pool (w_mem w')) = tp_out (pool (w_mem w))
         /\ exists new, w_trace w' = w_trace w ++ new /\ only_stores new)
      w.
Proof.
  induction l as [ | a l IH ]; intros l0 c w Hsem Hq Hdup Hall Hroom Hmq Hc.
  - apply runs_ret. rewrite app_nil_r, Z.add_0_r. split_and!; try done.
    exists []. by rewrite app_nil_r.
  - cbn [post_each length] in *.
    apply Forall_cons in Hall as [(t & Ht & Hactive) Hall].
    assert (a ∉ l0) as Hfresh.
    { apply NoDup_app in Hdup as (_ & Hdisj & _).
      intros Hin. apply (Hdisj a Hin). set_solver. }
    assert (a ∉ l) as Hal.
    { apply NoDup_app in Hdup as (_ & _ & Hd).
      by apply NoDup_cons in Hd as [Hd _]. }
    apply runs_bind. eapply runs_weaken.
    { apply (post_effect a t c l0 w); try done.
      - by rewrite Hsem.
      - rewrite to_ngx_int_small by lia. lia. }
    reduce_world. rewrite Hsem. cbn [ngx_sem_post counting_semaphore fst snd].
    cbn [Z.eqb NGX_OK].
    intros rc w1 (-> & Hq1 & _ & _ & Hsem1 & Hout1 & _ & Hmq1 & Hothers1 & s0
                  & Htr1 & Hs0).
    apply runs_bind. eapply runs_weaken.
    { apply (IH (l0 ++ [a]) (c + 1) w1); try done.
      - by rewrite <- app_assoc.
      - apply Forall_forall. intros b Hb.
        rewrite Forall_forall in Hall.
        destruct (Hall b Hb) as (tb & Htb & Hactb).
        destruct (Hothers1 b tb) as (tb' & Htb' & Hev); [ | done | ].
        { intros ->. done. }
        exists tb'. by rewrite Hev.
      - rewrite Hmq1. lia.
      - by rewrite Hmq1.
      - lia. }
    cbv beta.
    intros rcs w2 (-> & Hq2 & Hsem2 & Hout2 & s1 & Htr2 & Hs1).
    apply runs_ret. split_and!.
    + done.
    + by rewrite <- app_assoc in Hq2.
    + rewrite Hsem2. f_equal. lia.
    + by rewrite Hout2.
    + exists (s0 ++ s1). rewrite Htr2, Htr1, <- app_assoc.
      split; [ done | by apply only_stores_app ].
Qed.

(** X28. Posts fill the intake queue in order. The event loop, alone,
    posts the distinct tasks [l], none of them in the queue, each
    allocated with an event that is not active, to a pool over a counting
    semaphore at count [c] whose limit leaves room for all of them: every
    post returns [NGX_OK], the intake queue holds what it held followed
    by [l] in the order of the posts, the semaphore has been posted once
    per task, the completion queue is untouched, no task's work is run
    and no completion handler is called. *)
Theorem posts_alone_fill_queue (l l0 : list addr) (c : Z) w :
  tp_sem (pool (w_mem w)) = Some c ->
  0 <= c ->
  queue_holds QIn (w_mem w) l0 ->
  NoDup (l0 ++ l) ->
  Forall (fun a => exists t, tasks (w_mem w) !! a = Some t
                             /\ active (task_event t) = false) l ->
  c + Z.of_nat (length l) <= tp_max_queue (pool (w_mem w)) ->
  tp_max_queue (pool (w_mem w)) < 2 ^ 63 ->
  exists w' new,
    post_each no_interference l w
    = Some (replicate (length l) NGX_OK, w')
    /\ queue_holds QIn (w_mem w') (l0 ++ l)
    /\ tp_sem (pool (w_mem w')) = Some (c + Z.of_nat (length l))
    /\ tp_out (pool (w_mem w')) = tp_out (pool (w_mem w))
    /\ w_trace w' = w_trace w ++ new
    /\ task_runs new = []
    /\ handler_calls new = [].
Proof.
  intros Hsem Hc Hq Hdup Hall Hroom Hmq.
  destruct (post_each_effect l l0 c w Hsem Hq Hdup Hall Hroom Hmq Hc)
    as (rcs & w' & Hrun & -> & Hq' & Hsem' & Hout' & new & Htr & Hs).
  exists w', new. split_and!; try done.
  - by apply only_stores_no_runs.
  - by apply only_stores_no_calls.
Qed.

Section Worker.
Variable task_work : Z -> Z -> @mem counting_semaphore -> @mem counting_semaphore.

Lemma cycle_effect (fuel : nat) (l : list addr) :
  forall (l' : list addr) (c : Z) w,
    work_keeps_links task_work ->
    tp_sem (pool (w_mem w)) = Some c ->
    Z.of_nat (length l) <= c ->
    queue_holds QIn (w_mem w) l ->
    queue_holds QOut (w_mem w) l' ->
    (forall b, b ∈ l' -> b ∉ l) ->
    runs (ngx_thread_pool_cycle no_interference task_work (S fuel)
            (length l))
      (fun r w' =>
         r = true
         /\ queue_holds QIn (w_mem w') []
         /\ queue_holds QOut (w_mem w') (l' ++ l)
         /\ tp_sem (pool (w_mem w')) = Some (c - Z.of_nat (length l))
         /\ exists new,
              w_trace w' = w_trace w ++ new
              /\ task_runs new = l
              /\ handler_calls new = [])
      w.
Proof.
  induction l as [ | a l IH ]; intros l' c w Hwork Hsem Hc Hin Hout Hdisj.
  - apply runs_ret. rewrite app_nil_r, Z.sub_0_r. split_and!; try done.
    exists []. by rewrite app_nil_r.
  - cbn [ngx_thread_pool_cycle length] in *.
    assert (a ∉ l) as Hal.
    { destruct Hin as [Hseg _]. by apply queue_seg_head_fresh in Hseg. }
    apply runs_bind. eapply runs_weaken.
    { apply (worker_turn_effect task_work fuel a l l' (Some (c - 1)) w);
        try done.
      rewrite Hsem. cbn [ngx_sem_wait counting_semaphore].
      destruct (Z.ltb_spec 0 c); [ done | lia ]. }
    cbv beta.
    intros r w1 (-> & Hin1 & Hout1 & Hsem1 & ta & s1 & s2 & Ha & Htr1 & Hs1
                 & Hs2).
    eapply runs_weaken.
    { apply (IH (l' ++ [a]) (c - 1) w1); try done.
      - lia.
      - intros b Hb. apply elem_of_app in Hb as [Hb | Hb].
        + apply Hdisj in Hb. set_solver.
        + apply list_elem_of_singleton in Hb. by subst b. }
    cbv beta.
    intros r w2 (-> & Hin2 & Hout2 & Hsem2 & new & Htr2 & Hruns & Hcalls).
    split_and!.
    + done.
    + done.
    + by rewrite <- app_assoc in Hout2.
    + rewrite Hsem2. f_equal. lia.
    + exists ((s1 ++ [RunTask a (task_ctx ta)] ++ s2 ++ [SignalNotify])
              ++ new).
      split_and!.
      * rewrite Htr2, Htr1. by rewrite <- !app_assoc.
      * rewrite !task_runs_app, Hruns.
        rewrite (only_stores_no_runs s1), (only_stores_no_runs s2) by done.
        done.
      * rewrite !handler_calls_app, Hcalls.
        rewrite (only_stores_no_calls s1), (only_stores_no_calls s2)
          by done.
        done.
Qed.

(** X29. A worker drains the intake queue in order. Alone, with a
    counting semaphore whose count covers the tasks [l] of the intake
    queue and work that leaves the pool and the task links alone, the
    loop of [ngx_thread_pool_cycle] is still running after as many turns
    as there are tasks; it has run the work of the tasks of [l] in order,
    once each, and called no completion handler; the intake queue is
    empty, the completion queue holds what it held followed by [l], and
    the semaphore is down by the number of tasks. *)
Theorem cycle_alone_drains_intake (fuel : nat) (l l' : list addr) (c : Z)
    w :
  work_keeps_links task_work ->
  tp_sem (pool (w_mem w)) = Some c ->
  Z.of_nat (length l) <= c ->
  queue_holds QIn (w_mem w) l ->
  queue_holds QOut (w_mem w) l' ->
  (forall b, b ∈ l' -> b ∉ l) ->
  exists w' new,
    ngx_thread_pool_cycle no_interference task_work (S fuel) (length l) w
    = Some (true, w')
    /\ queue_holds QIn (w_mem w') []
    /\ queue_holds QOut (w_mem w') (l' ++ l)
    /\ tp_sem (pool (w_mem w')) = Some (c - Z.of_nat (length l))
    /\ w_trace w' = w_trace w ++ new
    /\ task_runs new = l
    /\ handler_calls new = [].
Proof.
  intros Hwork Hsem Hc Hin Hout Hdisj.
  destruct (cycle_effect fuel l l' c w Hwork Hsem Hc Hin Hout Hdisj)
    as (r & w' & Hrun & -> & Hin' & Hout' & Hsem' & new & Htr & Hruns
        & Hcalls).
  exists w', new. by split_and!.
Qed.


End Worker.
End Fifo.

(** ** Examples for the further properties *)

Lemma holding_method_tracks_active : method_tracks_active holding_method.
Proof. intros ev e f r. by repeat split. Qed.

(** X2, witness: the select build with LEVEL alone. *)
Lemma level_variants_agree_witness :
  ngx_handle_write_event (build := select_build) holding_method
    NGX_USE_LEVEL_EVENT held_event 1 idle_reactor
  = ngx_handle_level_write_event (build := select_build) holding_method
      NGX_USE_LEVEL_EVENT held_event idle_reactor
  /\ ngx_handle_read_event (build := select_build) holding_method
       NGX_USE_LEVEL_EVENT held_event 0 idle_reactor
     = ngx_handle_level_read_event (build := select_build) holding_method
         NGX_USE_LEVEL_EVENT held_event idle_reactor.
Proof.
  apply (level_variants_agree (build := select_build) holding_method
           NGX_USE_LEVEL_EVENT held_event 1 idle_reactor).
  reflexivity.
Defined.

(** X4, witness: on the kqueue build with CLEAR, a second
    [ngx_handle_read_event] on the event just registered does nothing. *)
Lemma helpers_settle_witness :
  ngx_handle_read_event (build := kqueue_build) holding_method
    NGX_USE_CLEAR_EVENT
    (ngx_handle_read_event (build := kqueue_build) holding_method
       NGX_USE_CLEAR_EVENT zero_event 0 idle_reactor).1.2 0
    (ngx_handle_read_event (build := kqueue_build) holding_method
       NGX_USE_CLEAR_EVENT zero_event 0 idle_reactor).2
  = (NGX_OK,
     (ngx_handle_read_event (build := kqueue_build) holding_method
        NGX_USE_CLEAR_EVENT zero_event 0 idle_reactor).1.2,
     (ngx_handle_read_event (build := kqueue_build) holding_method
        NGX_USE_CLEAR_EVENT zero_event 0 idle_reactor).2).
Proof.
  apply (proj2 (proj2 (proj2
           (helpers_settle (build := kqueue_build) holding_method
              NGX_USE_CLEAR_EVENT zero_event 0 idle_reactor
              holding_method_tracks_active))) eq_refl _ eq_refl).
Defined.

(** X5, witness: the select build with LEVEL alone, an active event and
    [NGX_CLOSE_EVENT]. *)
Lemma read_close_reregisters_witness :
  exists c1 c2,
    calls (read_event_run (build := select_build) holding_method
             NGX_USE_LEVEL_EVENT [(false, 1); (false, 1)] held_event
             idle_reactor).2
    = calls idle_reactor ++ [c1; c2]
    /\ call_sig c1 = (OpDel, 0, 1)
    /\ call_sig c2 = (OpAdd, 0, 0).
Proof.
  apply (read_close_reregisters (build := select_build) holding_method
           NGX_USE_LEVEL_EVENT held_event 1 idle_reactor
           holding_method_tracks_active);
    [ reflexivity | discriminate | discriminate | reflexivity
    | reflexivity ].
Defined.

(** X6, witness: [default] is the second of the two pools. *)
Lemma get_finds_first_witness :
  (exists tp, two_pools !! 1%nat = Some tp /\ tp_name tp = "default"%string)
  /\ forall j tp, (j < 1)%nat -> two_pools !! j = Some tp ->
                  tp_name tp <> "default"%string.
Proof.
  apply (get_finds_first (semaphore := counting_semaphore) two_pools
           "default" eq_refl).
Defined.

(** X7, witness: a second reference to [io], from another place. *)
Lemma add_dedups_witness :
  ngx_thread_pool_add (semaphore := counting_semaphore)
    directive_io_max_queue
    (ngx_thread_pool_add (semaphore := counting_semaphore)
       directive_io_threads [] (Some "io"%string)).2
    (Some "io"%string)
  = (Some 0%nat,
     (ngx_thread_pool_add (semaphore := counting_semaphore)
       directive_io_threads [] (Some "io"%string)).2).
Proof.
  apply (add_dedups (semaphore := counting_semaphore) directive_io_threads
           directive_io_max_queue [] _ (Some "io"%string) 0%nat eq_refl).
Defined.

(** X9, witness: a reference to [aio] with the two pools. *)
Lemma add_keeps_names_distinct_witness :
  NoDup (tp_name <$> (ngx_thread_pool_add directive_io_threads two_pools
                        (Some "aio"%string)).2).
Proof.
  apply (add_keeps_names_distinct (semaphore := counting_semaphore)
           directive_io_threads two_pools "aio" eq_refl).
  apply NoDup_cons. split; [ | apply NoDup_singleton ].
  intros H. apply list_elem_of_singleton in H. discriminate H.
Defined.

(** X10, witness: [thread_pool io threads=2 sendfile max_queue=0
    threads=8;] on an empty configuration. *)
Lemma directive_accepted_iff_witness :
  (ngx_thread_pool (semaphore := counting_semaphore) decimal_atoi
     directive_io_mixed "thread_pool" []).1.1 = NGX_CONF_OK
  <-> (pcalloc_ok directive_io_mixed = true
       /\ array_push_ok directive_io_mixed = true)
      /\ Forall (fun v => param_accepted decimal_atoi v = true)
           ["threads=2"; "sendfile"; "max_queue=0"; "threads=8"]%string
      /\ Exists (fun v => is_threads_param v = true)
           ["threads=2"; "sendfile"; "max_queue=0"; "threads=8"]%string.
Proof.
  apply (directive_accepted_iff (semaphore := counting_semaphore)
           decimal_atoi directive_io_mixed "thread_pool" "thread_pool" "io"
           ["threads=2"; "sendfile"; "max_queue=0"; "threads=8"]%string []
           eq_refl).
Defined.

(** X11, witness: the same directive leaves [io] with 8 threads and a
    queue limit of 0. *)
Lemma directive_stores_last_values_witness :
  exists i tp0 tp v,
    (ngx_thread_pool (semaphore := counting_semaphore) decimal_atoi
       directive_io_mixed "thread_pool" []).1.2 = []
    /\ ngx_thread_pool_get
         (ngx_thread_pool (semaphore := counting_semaphore) decimal_atoi
            directive_io_mixed "thread_pool" []).2 "io"
       = Some i
    /\ (ngx_thread_pool_add (semaphore := counting_semaphore)
           directive_io_mixed [] (Some "io"%string)).2 !! i
       = Some tp0
    /\ (ngx_thread_pool (semaphore := counting_semaphore) decimal_atoi
          directive_io_mixed "thread_pool" []).2
       = <[i := tp]>
           (ngx_thread_pool_add (semaphore := counting_semaphore)
           directive_io_mixed [] (Some "io"%string)).2
    /\ last_param is_threads_param
         ["threads=2"; "sendfile"; "max_queue=0"; "threads=8"]%string
       = Some v
    /\ tp_threads tp = threads_value decimal_atoi v
    /\ tp_threads tp <> 0
    /\ tp_max_queue tp
       = default 65536
           (max_queue_value decimal_atoi
              <$> last_param is_max_queue_param
                    ["threads=2"; "sendfile"; "max_queue=0";
                     "threads=8"]%string)
    /\ tp_name tp = tp_name tp0
    /\ tp_file tp = tp_file tp0
    /\ tp_line tp = tp_line tp0.
Proof.
  apply (directive_stores_last_values (semaphore := counting_semaphore)
           decimal_atoi directive_io_mixed "thread_pool" "thread_pool" "io"
           ["threads=2"; "sendfile"; "max_queue=0"; "threads=8"]%string []
           eq_refl eq_refl).
Defined.

(** X12, witness: [thread_pool io threads=4;] and then
    [thread_pool io max_queue=8;]. *)
Lemma directive_twice_rejected_witness :
  ngx_thread_pool (semaphore := counting_semaphore) decimal_atoi
    directive_io_max_queue "thread_pool"
    (ngx_thread_pool (semaphore := counting_semaphore) decimal_atoi
       directive_io_threads "thread_pool" []).2
  = (NGX_CONF_ERROR, [EmergDuplicate "io"],
     (ngx_thread_pool (semaphore := counting_semaphore) decimal_atoi
        directive_io_threads "thread_pool" []).2).
Proof.
  apply (directive_twice_rejected (semaphore := counting_semaphore)
           decimal_atoi directive_io_threads directive_io_max_queue
           "thread_pool" "thread_pool" "thread_pool" "thread_pool" "io"
           ["threads=4"%string] ["max_queue=8"%string] []
           eq_refl eq_refl eq_refl eq_refl).
Defined.

(** X13, witness: the directive with [sendfile] among its parameters. *)
Lemma directive_ignores_other_params_witness :
  ngx_thread_pool (semaphore := counting_semaphore) decimal_atoi
    {| args := "thread_pool"%string :: "io"%string
               :: List.filter param_recognised
                    ["threads=2"; "sendfile"; "max_queue=0";
                     "threads=8"]%string;
       conf_file_name := conf_file_name directive_io_mixed;
       conf_file_line := conf_file_line directive_io_mixed;
       pcalloc_ok := pcalloc_ok directive_io_mixed;
       array_push_ok := array_push_ok directive_io_mixed |}
    "thread_pool" []
  = ngx_thread_pool (semaphore := counting_semaphore) decimal_atoi
      directive_io_mixed "thread_pool" [].
Proof.
  apply (directive_ignores_other_params (semaphore := counting_semaphore)
           decimal_atoi directive_io_mixed "thread_pool" "thread_pool" "io"
           ["threads=2"; "sendfile"; "max_queue=0"; "threads=8"]%string []
           eq_refl).
Defined.

(** X14, witness: the two pools, finalized twice. *)
Lemma init_conf_idempotent_witness :
  ngx_thread_pool_init_conf (ngx_thread_pool_init_conf two_pools).2
  = (NGX_CONF_OK, [], (ngx_thread_pool_init_conf two_pools).2).
Proof.
  apply (init_conf_idempotent (semaphore := counting_semaphore) two_pools
           eq_refl).
Defined.

(** X16, witness: [io] is declared and a module refers to the default
    pool. *)
Lemma default_reference_provided_witness :
  (ngx_thread_pool_add directive_io_mixed [conf_pool "io" 4 65536] None).1
  = Some 1%nat
  /\ ngx_thread_pool_init_conf
       (ngx_thread_pool_add directive_io_mixed [conf_pool "io" 4 65536]
          None).2
     = (NGX_CONF_OK, [],
        [conf_pool "io" 4 65536]
        ++ [ @Build_ngx_thread_pool_t counting_semaphore None 0 zero_queue
               zero_queue "default" 32 65536 "nginx.conf" 3 ]).
Proof.
  apply (default_reference_provided (semaphore := counting_semaphore)
           directive_io_mixed [conf_pool "io" 4 65536]).
  - repeat constructor. discriminate.
  - intros H. apply list_elem_of_singleton in H. discriminate H.
  - reflexivity.
  - reflexivity.
Defined.

(** X17, witness: [io] is declared and a module refers to [aio]. *)
Lemma undeclared_reference_fails_witness :
  ngx_thread_pool_init_conf
    (ngx_thread_pool_add directive_io_mixed [conf_pool "io" 4 65536]
       (Some "aio"%string)).2
  = (NGX_CONF_ERROR, [EmergUnknownPool "aio" "nginx.conf" 3],
     (ngx_thread_pool_add directive_io_mixed [conf_pool "io" 4 65536]
        (Some "aio"%string)).2).
Proof.
  apply (undeclared_reference_fails (semaphore := counting_semaphore)
           directive_io_mixed [conf_pool "io" 4 65536] "aio" eq_refl).
  - discriminate.
  - repeat constructor. discriminate.
  - intros H. apply list_elem_of_singleton in H. discriminate H.
  - reflexivity.
  - reflexivity.
Defined.

(** *** Examples on the pool at run time *)

Ltac show_queue :=
  split; [ | reflexivity ];
  repeat (cbn [queue_seg];
          first [ reflexivity
                | split; [ reflexivity | eexists; split; [ reflexivity | ] ] ]).

Ltac show_fresh :=
  repeat (apply not_elem_of_cons; split; [ discriminate | ]);
  apply not_elem_of_nil.

Lemma private_work_keeps_links {semaphore : ngx_semaphore} :
  work_keeps_links private_work.
Proof. intros h ctx m. by split. Qed.

(** X18, witness: task 2 is posted behind task 1. *)
Lemma post_alone_appends_witness :
  exists w' new,
    ngx_thread_pool_task_post no_interference 2%positive
      (world_of task_1_active)
    = Some (NGX_OK, w')
    /\ queue_holds QIn (w_mem w') [1%positive; 2%positive]
    /\ tasks (w_mem w') !! 2%positive = Some (posted_task 1 None)
    /\ tp_task_id (pool (w_mem w')) = 2
    /\ tp_sem (pool (w_mem w')) = Some 2
    /\ tp_out (pool (w_mem w')) = empty_queue QOut
    /\ w_trace w' = w_trace (world_of task_1_active) ++ new
    /\ task_runs new = []
    /\ handler_calls new = [].
Proof.
  apply (post_alone_appends (semaphore := counting_semaphore) 2%positive
           (new_task 7 8) 1 [1%positive] (world_of task_1_active)
           eq_refl eq_refl eq_refl eq_refl).
  - show_queue.
  - show_fresh.
Defined.


(** X20, witness: a worker takes task 1, the only one waiting. *)
Lemma dequeue_alone_takes_head_witness :
  exists w',
    ngx_thread_pool_cycle_dequeue no_interference 1 (world_of task_1_active)
    = Some (1%positive, w')
    /\ queue_holds QIn (w_mem w') []
    /\ tasks (w_mem w') = tasks task_1_active
    /\ set_queue QIn (tp_in (pool task_1_active)) (pool (w_mem w'))
       = pool task_1_active.
Proof.
  apply (dequeue_alone_takes_head (semaphore := counting_semaphore) 0
           1%positive [] (world_of task_1_active)).
  show_queue.
Defined.

(** X21, witness: a worker on an idle pool; left alone, five rounds
    return nothing; when the event loop posts task 1 during the third
    yield, the worker returns task 1. *)
Lemma dequeue_empty_waits_for_post_witness :
  ngx_thread_pool_cycle_dequeue no_interference 5
    (world_of (three_tasks 4 0))
  = None
  /\ exists w',
       ngx_thread_pool_cycle_dequeue late_post 4
         (world_of (three_tasks 4 0))
       = Some (1%positive, w')
       /\ queue_holds QIn (w_mem w') []
       /\ tasks (w_mem w') = tasks (late_post 2 (three_tasks 4 0))
       /\ (2 < w_tick w')%nat.
Proof.
  destruct (dequeue_empty_waits_for_post (semaphore := counting_semaphore)
              (world_of (three_tasks 4 0)) eq_refl) as [Halone Hposted].
  split; [ apply Halone | ].
  apply (Hposted late_post 2%nat 0%nat 1%positive []).
  - intros [ | [ | k ] ] Hk; [ reflexivity | reflexivity | lia ].
  - show_queue.
  - intros [ | [ | [ | k ] ] ] m Hk; [ lia | lia | lia | reflexivity ].
Defined.

(** X22, witness: task 3 is handed back behind tasks 1 and 2. *)
Lemma cycle_complete_appends_witness :
  exists w' new,
    ngx_thread_pool_cycle_complete no_interference 1 3%positive
      (world_of two_completed)
    = Some (tt, w')
    /\ queue_holds QOut (w_mem w') [1%positive; 2%positive; 3%positive]
    /\ set_queue QOut (tp_out (pool two_completed)) (pool (w_mem w'))
       = pool two_completed
    /\ tasks (w_mem w') !! 3%positive = Some (posted_task 2 None)
    /\ w_trace w' = w_trace (world_of two_completed) ++ new ++ [SignalNotify]
    /\ only_stores new.
Proof.
  apply (cycle_complete_appends (semaphore := counting_semaphore) 0
           3%positive (posted_task 2 None) [1%positive; 2%positive]
           (world_of two_completed)).
  - show_queue.
  - reflexivity.
  - show_fresh.
Defined.

(** X23, witness: one turn of a worker on the pool where task 1 waits. *)
Lemma worker_turn_moves_task_witness :
  exists w' ta stores1 stores2,
    tasks task_1_active !! 1%positive = Some ta
    /\ ngx_thread_pool_cycle_turn no_interference private_work 1
         (world_of task_1_active)
       = Some (true, w')
    /\ queue_holds QIn (w_mem w') []
    /\ queue_holds QOut (w_mem w') [1%positive]
    /\ tp_sem (pool (w_mem w')) = Some 0
    /\ w_trace w'
       = w_trace (world_of task_1_active) ++ stores1
           ++ [RunTask 1%positive (task_ctx ta)] ++ stores2
           ++ [SignalNotify]
    /\ only_stores stores1 /\ only_stores stores2.
Proof.
  apply (worker_turn_moves_task (semaphore := counting_semaphore)
           private_work 0 1%positive [] [] (Some 0)
           (world_of task_1_active) private_work_keeps_links eq_refl).
  - show_queue.
  - show_queue.
  - intros b Hb. by apply elem_of_nil in Hb.
Defined.

(** X24, witness: task 1 heads the completion queue while a worker hands
    back task 3. *)
Lemma handler_waits_for_pending_append_witness :
  ngx_thread_pool_handler no_interference freeing_handler true 1
    (world_of completion_append_pending)
  = Some (tt,
          {| w_mem := completion_append_pending; w_tick := 0%nat;
             w_trace := [HandleNotify; StoreCell (FirstOf QOut) None;
                         StoreCell (FirstOf QOut) (Some 1%positive)] |}).
Proof.
  apply (handler_waits_for_pending_append (semaphore := counting_semaphore)
           freeing_handler true 0 1%positive
           (posted_task 0 None) (world_of completion_append_pending)
           eq_refl eq_refl eq_refl).
  discriminate.
Defined.


(** X26, witness: the event loop posts task 2 behind task 1 while a
    worker takes task 1. *)
Lemma post_enqueue_after_racing_dequeue_witness :
  exists w',
    ngx_thread_pool_task_post_enqueue rival_dequeue 2%positive
      (world_of task_1_active) = Some (tt, w')
    /\ queue_holds QIn (w_mem w') [2%positive]
    /\ tasks (w_mem w') = tasks (rival_dequeue 0 task_1_active)
    /\ w_trace w'
       = w_trace (world_of task_1_active)
           ++ [StoreCell (FirstOf QIn) (Some 2%positive);
               StoreLastP QIn (Some (NextOf 2%positive))].
Proof.
  apply (post_enqueue_after_racing_dequeue (semaphore := counting_semaphore)
           rival_dequeue 2%positive 1%positive (new_task 7 8)
           (world_of task_1_active) eq_refl).
  - show_queue.
  - reflexivity.
  - reflexivity.
Defined.

(** X27, witness: a worker finds task 1 while the event loop is posting
    task 2 behind it. *)
Lemma dequeue_waits_for_pending_append_witness :
  ngx_thread_pool_cycle_dequeue late_link 3
    (world_of intake_append_pending)
  = ngx_thread_pool_cycle_dequeue late_link 2
      {| w_mem := late_link 1 intake_append_pending;
         w_tick := 2;
         w_trace := [StoreCell (FirstOf QIn) None;
                     StoreCell (FirstOf QIn) (Some 1%positive)] |}.
Proof.
  apply (dequeue_waits_for_pending_append (semaphore := counting_semaphore)
           late_link 2 1%positive (posted_task 0 None)
           (world_of intake_append_pending) eq_refl eq_refl eq_refl).
  - discriminate.
  - reflexivity.
Defined.

(** X28, witness: tasks 1, 2 and 3 are posted to an idle pool. *)
Lemma posts_alone_fill_queue_witness :
  exists w' new,
    post_each no_interference [1%positive; 2%positive; 3%positive]
      (world_of (three_tasks 4 0))
    = Some ([NGX_OK; NGX_OK; NGX_OK], w')
    /\ queue_holds QIn (w_mem w') [1%positive; 2%positive; 3%positive]
    /\ tp_sem (pool (w_mem w')) = Some 3
    /\ tp_out (pool (w_mem w')) = empty_queue QOut
    /\ w_trace w' = w_trace (world_of (three_tasks 4 0)) ++ new
    /\ task_runs new = []
    /\ handler_calls new = [].
Proof.
  apply (posts_alone_fill_queue [1%positive; 2%positive; 3%positive] [] 0
           (world_of (three_tasks 4 0)) eq_refl).
  - lia.
  - show_queue.
  - repeat (apply NoDup_cons; split; [ show_fresh | ]). apply NoDup_nil_2.
  - repeat (apply Forall_cons; split;
            [ eexists; split; reflexivity | ]).
    apply Forall_nil_2.
  - cbn. lia.
  - cbn. lia.
Defined.

(** X29, witness: a worker takes two turns on the pool where tasks 1 and
    2 wait. *)
Lemma cycle_alone_drains_intake_witness :
  exists w' new,
    ngx_thread_pool_cycle no_interference private_work 1 2
      (world_of two_posted)
    = Some (true, w')
    /\ queue_holds QIn (w_mem w') []
    /\ queue_holds QOut (w_mem w') [1%positive; 2%positive]
    /\ tp_sem (pool (w_mem w')) = Some 0
    /\ w_trace w' = w_trace (world_of two_posted) ++ new
    /\ task_runs new = [1%positive; 2%positive]
    /\ handler_calls new = [].
Proof.
  apply (cycle_alone_drains_intake private_work 0 [1%positive; 2%positive]
           [] 2 (world_of two_posted) private_work_keeps_links eq_refl).
  - cbn. lia.
  - show_queue.
  - show_queue.
  - intros b Hb. by apply elem_of_nil in Hb.
Defined.

